(** * Configuration arbitration, model-format inference, build pipeline and
      build cache of [tensorrt_llm/llmapi/llm_utils.py]

    A shallow embedding of the decision layer of the LLM API helper module:
    [_ConfigArbitrator], [ModelLoader.get_model_format],
    [ModelLoader.BuildPipeline] and [CachedModelLoader], and of the code
    around them: [_ParallelConfig] and the head of [LlmArgs.from_kwargs],
    the checks of [LlmArgs] against an engine or a checkpoint, the
    arbitration [LlmArgs] runs over its configurations, the steps and the
    call of a [ModelLoader], the extra build configurations of an engine,
    and [CalibConfig].

    Python objects that are mutated in place are modelled with an explicit
    store; exceptions are modelled by an outcome type that keeps the state
    reached when the exception was raised. *)

#[local] Set Warnings "-clear-no-such-hyp".

From Stdlib Require Import QArith.
From stdpp Require Import gmap strings list fin_maps pretty sorting.

(** ** Exceptions and outcomes *)

(** The exceptions the modelled code can raise.  [OtherError] stands for
    any other exception, such as one thrown by a collaborator outside this
    file (a build step, a configuration loader, the storage probe); it
    carries the class name and the text of [str(e)]. *)
Inductive exn :=
  | ConfigArbitrateError (message : string)
  | AssertionError (message : string)
  | KeyError (key : string)
  | IndexError (message : string)
  | ValueError (message : string)
  | OtherError (cls : string) (message : string).

(** [type(e).__name__] *)
Definition class_name (e : exn) : string :=
  match e with
  | ConfigArbitrateError _ => "ConfigArbitrateError"
  | AssertionError _ => "AssertionError"
  | KeyError _ => "KeyError"
  | IndexError _ => "IndexError"
  | ValueError _ => "ValueError"
  | OtherError cls _ => cls
  end.

(** [str(e)] *)
Definition exn_str (e : exn) : string :=
  match e with
  | ConfigArbitrateError m | AssertionError m | IndexError m | ValueError m
  | OtherError _ m => m
  | KeyError k => "'" +:+ k +:+ "'"
  end.

(** Result of a call that touches no state: a value or an exception. *)
Inductive result (A : Type) :=
  | Return (a : A)
  | Raise (e : exn).
Arguments Return {A} a.
Arguments Raise {A} e.

(** Result of running a piece of code from a state: it returns normally in
    state [s], or raises [e] after having brought the state to [s]. *)
Inductive outcome (S : Type) :=
  | Done (s : S)
  | Raised (s : S) (e : exn).
Arguments Done {S} s.
Arguments Raised {S} s e.

Definition final_state {S} (o : outcome S) : S :=
  match o with Done s => s | Raised s _ => s end.

Definition raised {S} (o : outcome S) : option exn :=
  match o with Done _ => None | Raised _ e => Some e end.

(** ** Option values *)

(** The values options take in this module: [None], booleans, integers and
    strings. *)
Inductive value :=
  | VNone
  | VBool (b : bool)
  | VInt (z : Z)
  | VStr (s : string).

Global Instance value_eq_dec : EqDecision value.
Proof. solve_decision. Defined.

(** The integer a [bool] or [int] stands for ([bool] is a subclass of [int],
    [True == 1]). *)
Definition as_number (v : value) : option Z :=
  match v with
  | VBool b => Some (if b then 1 else 0)%Z
  | VInt z => Some z
  | _ => None
  end.

(** Python's [==] on option values. *)
Definition py_eqb (a b : value) : bool :=
  match a, b with
  | VNone, VNone => true
  | VStr s, VStr t => bool_decide (s = t)
  | _, _ =>
      match as_number a, as_number b with
      | Some x, Some y => bool_decide (x = y)
      | _, _ => false
      end
  end.

(** [str(v)], as used by an f-string field. *)
Definition py_str (v : value) : string :=
  match v with
  | VNone => "None"
  | VBool true => "True"
  | VBool false => "False"
  | VInt z => pretty z
  | VStr s => s
  end.

(** Keyword arguments [**options], in the order they were written. *)
Abbreviation kwargs := (list (string * value)).

(** ** JSON values *)

#[local] Set Warnings "-register-all".

(** What [json.load] returns and [json.dumps] takes.  A dict is the list of
    its items in insertion order; a float is given by its [repr]. *)
Inductive json :=
  | JNull
  | JBool (b : bool)
  | JInt (z : Z)
  | JFloat (repr : string)
  | JStr (s : string)
  | JList (items : list json)
  | JDict (items : list (string * json)).

Module Arbitrator.

(** ** The store of dict objects

    [virtual_configs] and [option_sources] are dicts of dicts.  The inner
    dicts are objects: [copy.copy] of the outer dict copies references to
    them, not their contents.  An inner dict is therefore a cell of a heap
    and the outer dicts map a config name to the address of its cell. *)

Abbreviation loc := nat.
Abbreviation heap V := (list (gmap string V)).

(** The dict stored at [l]. *)
Definition hget {V} (l : loc) (h : heap V) : gmap string V :=
  default ∅ (h !! l).

(** [d[k] = v] for the dict object at [l]. *)
Definition hset {V} (l : loc) (k : string) (v : V) (h : heap V) : heap V :=
  <[l := <[k := v]> (hget l h)]> h.

(** [d.setdefault(name, {})] on an outer dict: the address of the inner
    dict, a fresh empty dict being allocated when [name] is new. *)
Definition setdefault_dict {V} (name : string) (d : gmap string loc)
    (h : heap V) : gmap string loc * heap V * loc :=
  match d !! name with
  | Some l => (d, h, l)
  | None => (<[name := length h]> d, h ++ [∅], length h)
  end.

(** [d.setdefault(name, []).append(x)] on an insertion-ordered dict of
    lists. *)
Fixpoint setdefault_append {A} (name : string) (x : A)
    (d : list (string * list A)) : list (string * list A) :=
  match d with
  | [] => [(name, [x])]
  | (n, xs) :: rest =>
      if decide (n = name) then (n, xs ++ [x]) :: rest
      else (n, xs) :: setdefault_append name x rest
  end.

(** ** State *)

(** What running the arbitrator does outside itself. *)
Inductive effect :=
  | LogWarning (message : string)
  | CallFallback (fallback : string).

Abbreviation func_claim := (string * kwargs)%type.
Abbreviation perf_entry := (string * kwargs * option string)%type.

(** The four attributes of [_ConfigArbitrator], the two heaps their inner
    dicts live in, and the effects performed so far.  A fallback callable is
    identified by a name. *)
Record state := State {
  virtual_configs : gmap string loc;
  func_claims : list (string * list func_claim);
  perf_claims : list (string * list perf_entry);
  option_sources : gmap string loc;
  cfg_heap : heap value;
  src_heap : heap string;
  effects : list effect;
}.

(** [_ConfigArbitrator.__init__] *)
Definition __init__ : state :=
  State ∅ [] [] ∅ [] [] [].

Definition with_store (st : state) (vcs oss : gmap string loc)
    (hv : heap value) (hs : heap string) : state :=
  State vcs (func_claims st) (perf_claims st) oss hv hs (effects st).

Definition with_heaps (st : state) (hv : heap value) (hs : heap string)
    : state :=
  with_store st (virtual_configs st) (option_sources st) hv hs.

Definition with_effects (st : state) (eff : list effect) : state :=
  State (virtual_configs st) (func_claims st) (perf_claims st)
        (option_sources st) (cfg_heap st) (src_heap st) eff.

(** The value an option has in the working configuration. *)
Definition resolved (st : state) (config_name opt : string)
    : option value :=
  l ← virtual_configs st !! config_name; hget l (cfg_heap st) !! opt.

(** Who is recorded as having set an option. *)
Definition provenance (st : state) (config_name opt : string)
    : option string :=
  l ← option_sources st !! config_name; hget l (src_heap st) !! opt.

(** ** [setup] *)

Fixpoint setup_options (info : string) (l ls : loc) (kw : kwargs)
    (hv : heap value) (hs : heap string)
    : outcome (heap value * heap string) :=
  match kw with
  | [] => Done (hv, hs)
  | (opt, val) :: rest =>
      (* assert config.get(option, value) == value *)
      if py_eqb (default val (hget l hv !! opt)) val then
        setup_options info l ls rest
          (hset l opt val hv) (hset ls opt info hs)
      else Raised (hv, hs) (AssertionError "")
  end.

Definition setup (info config_name : string) (kw : kwargs) (st : state)
    : outcome state :=
  let '(vcs, hv, l) :=
    setdefault_dict config_name (virtual_configs st) (cfg_heap st) in
  let '(oss, hs, ls) :=
    setdefault_dict config_name (option_sources st) (src_heap st) in
  match setup_options info l ls kw hv hs with
  | Done (hv', hs') => Done (with_store st vcs oss hv' hs')
  | Raised (hv', hs') e => Raised (with_store st vcs oss hv' hs') e
  end.

(** ** [claim_func] and [claim_perf] *)

Definition claim_func (func config_name : string) (options : kwargs)
    (st : state) : state :=
  State (virtual_configs st)
        (setdefault_append config_name (func, options) (func_claims st))
        (perf_claims st) (option_sources st)
        (cfg_heap st) (src_heap st) (effects st).

Definition claim_perf (perf config_name : string) (fallback : option string)
    (options : kwargs) (st : state) : state :=
  State (virtual_configs st) (func_claims st)
        (setdefault_append perf (config_name, options, fallback)
           (perf_claims st))
        (option_sources st) (cfg_heap st) (src_heap st) (effects st).

(** ** [_arbitrate]: functionality claims *)

Definition conflict_message (opt : string) (val : value)
    (func existing_func : string) (existing : value) : string :=
  "Cannot set '" +:+ opt +:+ "' to be '" +:+ py_str val
    +:+ "' when enabling '" +:+ func +:+ "', since '" +:+ existing_func
    +:+ "' has set it to be '" +:+ py_str existing +:+ "'.".

Fixpoint func_options (func : string) (l ls : loc) (options : kwargs)
    (hv : heap value) (hs : heap string)
    : outcome (heap value * heap string) :=
  match options with
  | [] => Done (hv, hs)
  | (opt, val) :: rest =>
      match hget l hv !! opt with
      | Some existing =>
          if py_eqb existing val then func_options func l ls rest hv hs
          else
            match hget ls hs !! opt with
            | Some existing_func =>
                Raised (hv, hs)
                  (ConfigArbitrateError
                     (conflict_message opt val func existing_func
                        existing))
            | None => Raised (hv, hs) (KeyError opt)
            end
      | None =>
          func_options func l ls rest
            (hset l opt val hv) (hset ls opt func hs)
      end
  end.

Fixpoint func_funcs (l ls : loc) (funcs : list func_claim)
    (hv : heap value) (hs : heap string)
    : outcome (heap value * heap string) :=
  match funcs with
  | [] => Done (hv, hs)
  | (func, options) :: rest =>
      match func_options func l ls options hv hs with
      | Done (hv', hs') => func_funcs l ls rest hv' hs'
      | Raised s e => Raised s e
      end
  end.

Fixpoint func_phase (claims : list (string * list func_claim)) (st : state)
    : outcome state :=
  match claims with
  | [] => Done st
  | (config_name, funcs) :: rest =>
      let '(vcs, hv, l) :=
        setdefault_dict config_name (virtual_configs st) (cfg_heap st) in
      let '(oss, hs, ls) :=
        setdefault_dict config_name (option_sources st) (src_heap st) in
      match func_funcs l ls funcs hv hs with
      | Done (hv', hs') => func_phase rest (with_store st vcs oss hv' hs')
      | Raised (hv', hs') e => Raised (with_store st vcs oss hv' hs') e
      end
  end.

(** ** [_arbitrate]: performance claims *)

Definition ignore_message (perf opt : string) : string :=
  "Ignoring performance claim '" +:+ perf +:+ "' for option '" +:+ opt
    +:+ "' due to conflict.".

(** The loop over one entry's options; the boolean is [restore]. *)
Fixpoint perf_options (perf : string) (l ls : loc) (options : kwargs)
    (hv : heap value) (hs : heap string) (eff : list effect)
    : heap value * heap string * list effect * bool :=
  match options with
  | [] => (hv, hs, eff, false)
  | (opt, val) :: rest =>
      match hget l hv !! opt with
      | Some existing =>
          if py_eqb existing val then
            perf_options perf l ls rest
              (hset l opt val hv) (hset ls opt perf hs) eff
          else
            (hv, hs, eff ++ [LogWarning (ignore_message perf opt)], true)
      | None =>
          perf_options perf l ls rest
            (hset l opt val hv) (hset ls opt perf hs) eff
      end
  end.

(** The loop over the entries of one performance claim, run on the copies
    [vcs] and [oss] of the outer dicts. *)
Fixpoint perf_entries (perf : string) (entries : list perf_entry)
    (vcs oss : gmap string loc) (hv : heap value) (hs : heap string)
    (eff : list effect)
    : gmap string loc * gmap string loc * heap value * heap string
      * list effect * bool :=
  match entries with
  | [] => (vcs, oss, hv, hs, eff, false)
  | (config_name, options, fallback) :: rest =>
      let '(vcs', hv1, l) := setdefault_dict config_name vcs hv in
      let '(oss', hs1, ls) := setdefault_dict config_name oss hs in
      let '(hv2, hs2, eff2, restore) :=
        perf_options perf l ls options hv1 hs1 eff in
      if restore then
        let eff3 :=
          match fallback with
          | Some f => eff2 ++ [CallFallback f]
          | None => eff2
          end in
        (vcs', oss', hv2, hs2, eff3, true)
      else perf_entries perf rest vcs' oss' hv2 hs2 eff2
  end.

Fixpoint perf_phase (claims : list (string * list perf_entry)) (st : state)
    : state :=
  match claims with
  | [] => st
  | (perf, entries) :: rest =>
      (* copy.copy: the outer dicts are copied, the inner dicts shared *)
      let option_sources' := option_sources st in
      let virtual_configs' := virtual_configs st in
      let '(vcs, oss, hv, hs, eff, restore) :=
        perf_entries perf entries virtual_configs' option_sources'
          (cfg_heap st) (src_heap st) (effects st) in
      let st' :=
        if restore then with_effects (with_heaps st hv hs) eff
        else with_effects (with_store st vcs oss hv hs) eff in
      perf_phase rest st'
  end.

Definition _arbitrate (st : state) : outcome state :=
  match func_phase (func_claims st) st with
  | Done st' => Done (perf_phase (perf_claims st') st')
  | Raised st' e => Raised st' e
  end.

(** ** [__call__] *)

(** A live configuration object, as the map of its attributes. *)
Abbreviation config_object := (gmap string value).

(** [for option, value in virtual_config.items(): setattr(config, option,
    value)] *)
Definition apply_virtual (virtual_config : gmap string value)
    (config : config_object) : config_object :=
  map_fold (λ opt val cfg, <[opt := val]> cfg) config
    virtual_config.

Definition apply_configs (st : state)
    (configs : list (string * config_object))
    : list (string * config_object) :=
  (λ '(name, config),
     match virtual_configs st !! name with
     | Some l => (name, apply_virtual (hget l (cfg_heap st)) config)
     | None => (name, config)
     end) <$> configs.

Definition __call__ (st : state) (configs : list (string * config_object))
    : outcome (state * list (string * config_object)) :=
  match _arbitrate st with
  | Done st' => Done (st', apply_configs st' configs)
  | Raised st' e => Raised (st', configs) e
  end.

(** A sequence of registrations on an arbitrator. *)
Inductive registration :=
  | Setup (info config_name : string) (kw : kwargs)
  | ClaimFunc (func config_name : string) (options : kwargs)
  | ClaimPerf (perf config_name : string) (fallback : option string)
      (options : kwargs).

Fixpoint register (rs : list registration) (st : state) : outcome state :=
  match rs with
  | [] => Done st
  | Setup info config_name kw :: rest =>
      match setup info config_name kw st with
      | Done st' => register rest st'
      | Raised st' e => Raised st' e
      end
  | ClaimFunc func config_name options :: rest =>
      register rest (claim_func func config_name options st)
  | ClaimPerf perf config_name fallback options :: rest =>
      register rest (claim_perf perf config_name fallback options st)
  end.

(** ** The loops seen from the two dicts they work on

    Inside one of the loops above only the dict at [l] and the dict at [ls]
    are read and written.  The functions below are the same loops on the
    contents of these two dicts; [setup_options_cell], [func_funcs_cell]
    relate them to the loops on the heap. *)

Abbreviation cell := (gmap string value * gmap string string)%type.

Fixpoint cell_setup (info : string) (kw : kwargs)
    (vc : gmap string value) (os : gmap string string) : outcome cell :=
  match kw with
  | [] => Done (vc, os)
  | (opt, val) :: rest =>
      if py_eqb (default val (vc !! opt)) val then
        cell_setup info rest (<[opt := val]> vc) (<[opt := info]> os)
      else Raised (vc, os) (AssertionError "")
  end.

Fixpoint cell_options (func : string) (options : kwargs)
    (vc : gmap string value) (os : gmap string string) : outcome cell :=
  match options with
  | [] => Done (vc, os)
  | (opt, val) :: rest =>
      match vc !! opt with
      | Some existing =>
          if py_eqb existing val then cell_options func rest vc os
          else
            match os !! opt with
            | Some existing_func =>
                Raised (vc, os)
                  (ConfigArbitrateError
                     (conflict_message opt val func existing_func existing))
            | None => Raised (vc, os) (KeyError opt)
            end
      | None =>
          cell_options func rest (<[opt := val]> vc) (<[opt := func]> os)
      end
  end.

Fixpoint cell_funcs (funcs : list func_claim)
    (vc : gmap string value) (os : gmap string string) : outcome cell :=
  match funcs with
  | [] => Done (vc, os)
  | (func, options) :: rest =>
      match cell_options func options vc os with
      | Done (vc', os') => cell_funcs rest vc' os'
      | Raised s e => Raised s e
      end
  end.

(** Writing the two dicts back at their addresses. *)
Definition store_cell (l ls : loc) (hv : heap value) (hs : heap string)
    (o : outcome cell) : outcome (heap value * heap string) :=
  match o with
  | Done (vc, os) => Done (<[l := vc]> hv, <[ls := os]> hs)
  | Raised (vc, os) e => Raised (<[l := vc]> hv, <[ls := os]> hs) e
  end.

(** The inner dict a config name stands for (empty when the name is not
    bound). *)
Definition view {V} (d : gmap string loc) (h : heap V) (name : string)
    : gmap string V :=
  match d !! name with
  | Some l => hget l h
  | None => ∅
  end.

Definition config_view (st : state) : string → gmap string value :=
  view (virtual_configs st) (cfg_heap st).

Definition source_view (st : state) : string → gmap string string :=
  view (option_sources st) (src_heap st).

(** Well-formed outer dict: every address is allocated and no inner dict is
    bound to two names. *)
Record wf_outer {V} (d : gmap string loc) (h : heap V) : Prop := {
  wf_bound : ∀ name l, d !! name = Some l → l < length h;
  wf_inj : ∀ n1 n2 l, d !! n1 = Some l → d !! n2 = Some l → n1 = n2;
}.

(** The invariant of an arbitrator: both outer dicts are well-formed and
    every option that has a value has a recorded source. *)
Record wf (st : state) : Prop := {
  wf_configs : wf_outer (virtual_configs st) (cfg_heap st);
  wf_sources : wf_outer (option_sources st) (src_heap st);
  wf_provenance : ∀ name,
    dom (config_view st name) ⊆ dom (source_view st name);
}.

(** ** One dict pair updated, everything else as before *)

Definition wf_store (st : state) : Prop :=
  wf_outer (virtual_configs st) (cfg_heap st)
  ∧ wf_outer (option_sources st) (src_heap st).

Record cell_update (st st' : state) (name : string) (c : cell) : Prop := {
  cu_wf : wf_store st';
  cu_config : config_view st' name = c.1;
  cu_source : source_view st' name = c.2;
  cu_config_ne : ∀ n, n ≠ name → config_view st' n = config_view st n;
  cu_source_ne : ∀ n, n ≠ name → source_view st' n = source_view st n;
  cu_func_claims : func_claims st' = func_claims st;
  cu_perf_claims : perf_claims st' = perf_claims st;
  cu_effects : effects st' = effects st;
}.

(** The (config name, option) pairs a dict of functionality claims
    targets. *)
Definition option_keys (options : kwargs) : list string := options.*1.

Definition funcs_keys (funcs : list func_claim) : list string :=
  '(_, options) ← funcs; option_keys options.

Definition targets (claims : list (string * list func_claim))
    : list (string * string) :=
  '(config_name, funcs) ← claims; (config_name,.) <$> funcs_keys funcs.

(** The same for a sequence of [claim_func] calls, given as
    (func, config_name, options). *)
Definition call_targets (calls : list (string * string * kwargs))
    : list (string * string) :=
  '(_, config_name, options) ← calls;
  (config_name,.) <$> option_keys options.

Definition claim_funcs (calls : list (string * string * kwargs))
    : list registration :=
  (λ '(func, config_name, options), ClaimFunc func config_name options)
    <$> calls.

(** [func] has claimed [options] on [config_name]. *)
Definition registered (st : state) (func config_name : string)
    (options : kwargs) : Prop :=
  ∃ funcs, (config_name, funcs) ∈ func_claims st ∧ (func, options) ∈ funcs.

(** What [__call__] leaves in the live objects: every option of the
    working configuration of that name is assigned, the other attributes
    stay. *)
Definition assigned (st : state) (configs : list (string * config_object))
    : list (string * config_object) :=
  (λ '(name, config), (name, config_view st name ∪ config)) <$> configs.

(** The arbitrator after [fp8_quant] has claimed
    [use_paged_context_fmha=False] and a performance claim has asked for
    [context_fmha=True, use_paged_context_fmha=True]. *)
Definition partial_claim : state :=
  claim_perf "chunked_context" "plugin_config" (Some "fallback")
    [("context_fmha", VBool true); ("use_paged_context_fmha", VBool true)]
    (claim_func "fp8_quant" "plugin_config"
       [("use_paged_context_fmha", VBool false)] __init__).

End Arbitrator.

(** * [ModelLoader.get_model_format] *)

Module ModelFormat.

(** [_ModelFormatKind] *)
Inductive _ModelFormatKind := HF | TLLM_CKPT | TLLM_ENGINE.

(** [str(model_format)] *)
Definition kind_str (k : _ModelFormatKind) : string :=
  match k with
  | HF => "_ModelFormatKind.HF"
  | TLLM_CKPT => "_ModelFormatKind.TLLM_CKPT"
  | TLLM_ENGINE => "_ModelFormatKind.TLLM_ENGINE"
  end.

(** What is found at [Path(model_dir) / 'config.json']: nothing, a file
    that [open] or [json.load] fails on, or a file holding a JSON value. *)
Inductive config_file :=
  | Missing
  | Undecodable (e : exn)
  | Loaded (config : json).

(** [key in config].  On a dict this looks among the keys, on a list among
    the items, on a string for a substring; the other JSON values are not
    containers and the test raises [TypeError]. *)
Definition py_in (key : string) (config : json) : option bool :=
  match config with
  | JDict items => Some (bool_decide (key ∈ items.*1))
  | JList items =>
      Some (existsb (λ j, match j with
                          | JStr s => bool_decide (s = key)
                          | _ => false
                          end) items)
  | JStr s =>
      Some (match String.index 0 key s with Some _ => true | None => false end)
  | _ => None
  end.

(** [k1 in config and k2 in config] *)
Definition both_in (k1 k2 : string) (config : json) : option bool :=
  b ← py_in k1 config; if b : bool then py_in k2 config else Some false.

(** The three loaders [get_model_format] calls to validate what it
    inferred: [EngineConfig.from_json_file], [PretrainedConfig.
    from_checkpoint] and [AutoConfig.from_hugging_face].  They are outside
    this module; each either returns or raises. *)
Record loaders := Loaders {
  engine_config_from_json_file : option exn;
  pretrained_config_from_checkpoint : option exn;
  auto_config_from_hugging_face : option exn;
}.

Definition loader_of (ld : loaders) (k : _ModelFormatKind) : option exn :=
  match k with
  | TLLM_ENGINE => engine_config_from_json_file ld
  | TLLM_CKPT => pretrained_config_from_checkpoint ld
  | HF => auto_config_from_hugging_face ld
  end.

Definition missing_message (model_dir : string) : string :=
  "Failed to infer model format because no config.json exists in "
    +:+ model_dir.

Definition load_failure_message (k : _ModelFormatKind) (e : exn) : string :=
  "Inferred model format " +:+ kind_str k
    +:+ ", but failed to load config.json: " +:+ exn_str e.

(** The [try] block once [model_format] is bound: the loader runs; what it
    raises is replaced by a [ValueError]. *)
Definition validated (ld : loaders) (k : _ModelFormatKind)
    : result _ModelFormatKind :=
  match loader_of ld k with
  | None => Return k
  | Some e => Raise (ValueError (load_failure_message k e))
  end.

(** A [TypeError] of [in] is caught by the handler too, but then
    [model_format] is not bound yet and formatting the message fails. *)
Definition unbound_model_format : exn :=
  OtherError "UnboundLocalError" "model_format".

Definition get_model_format (model_dir : string) (file : config_file)
    (ld : loaders) : result _ModelFormatKind :=
  match file with
  | Missing => Raise (ValueError (missing_message model_dir))
  | Undecodable e => Raise e
  | Loaded config =>
      match both_in "pretrained_config" "build_config" config with
      | None => Raise unbound_model_format
      | Some true => validated ld TLLM_ENGINE
      | Some false =>
          match both_in "architecture" "dtype" config with
          | None => Raise unbound_model_format
          | Some true => validated ld TLLM_CKPT
          | Some false => validated ld HF
          end
      end
  end.

(** The classification in the words of the specification, on the keys of
    the config descriptor. *)
Definition classify (keys : list string) : _ModelFormatKind :=
  if bool_decide ("pretrained_config" ∈ keys ∧ "build_config" ∈ keys)
  then TLLM_ENGINE
  else if bool_decide ("architecture" ∈ keys ∧ "dtype" ∈ keys)
  then TLLM_CKPT
  else HF.

End ModelFormat.

(** * [ModelLoader.BuildPipeline] *)

Module Pipeline.

(** What the pipeline does that can be seen from outside: it runs the
    handler of a step, and it calls [release_gc]. *)
Inductive event :=
  | StepRun (i : nat)
  | GcReleased.

(** A step handler: a callable without arguments that changes the state
    [W] of the process, and returns or raises. *)
Abbreviation handler W := (W → outcome W).

Section pipeline.
(** The state of the process the build steps work on, with the clock
    [time.time()] reads in it and the effect of [release_gc()] on it. *)
Context {W : Type}.
Variable clock : W → Z.
Variable release_gc : W → W.


(** The attributes of a [BuildPipeline]; [build_steps_info] is the list
    of the [LlmBuildStats] object the pipeline was given.  The progress
    bar and what is printed are left out. *)
Record pipeline := Pipeline_ {
  labels : list string;
  step_handlers : list (handler W);
  counter : nat;
  build_steps_info : list (string * Z);
  world : W;
  trace : list event;
}.

(** [BuildPipeline.__init__] *)
Definition __init__ (labels : list string) (step_handlers : list (handler W))
    (build_steps_info : list (string * Z)) (w : W) : result pipeline :=
  if decide (length labels = length step_handlers) then
    Return (Pipeline_ labels step_handlers 0 build_steps_info w [])
  else Raise (AssertionError EmptyString).

Definition index_error : exn := IndexError "list index out of range".

(** [BuildPipeline.step_forward] *)
Definition step_forward (p : pipeline) : outcome pipeline :=
  match labels p !! counter p with
  | None => Raised p index_error
  | Some label =>
      let start_time := clock (world p) in
      match step_handlers p !! counter p with
      | None => Raised p index_error
      | Some run =>
          let ran := trace p ++ [StepRun (counter p)] in
          match run (world p) with
          | Raised w e =>
              Raised (Pipeline_ (labels p) (step_handlers p) (counter p)
                        (build_steps_info p) w ran) e
          | Done w =>
              (* release resource after each step *)
              let w' := release_gc w in
              let latency := (clock w' - start_time)%Z in
              Done (Pipeline_ (labels p) (step_handlers p)
                      (S (counter p))
                      (build_steps_info p ++ [(label, latency)])
                      w' (ran ++ [GcReleased]))
          end
      end
  end.

(** [for i in range(n): self.step_forward()] *)
Fixpoint step_forward_times (n : nat) (p : pipeline) : outcome pipeline :=
  match n with
  | 0 => Done p
  | S n =>
      match step_forward p with
      | Done p' => step_forward_times n p'
      | Raised p' e => Raised p' e
      end
  end.

(** [BuildPipeline.__call__] *)
Definition __call__ (p : pipeline) : outcome pipeline :=
  step_forward_times (length (labels p)) p.

(** The trace of [k] steps run to their end, from step [i] on. *)
Definition steps_done (i k : nat) : list event :=
  i ← seq i k; [StepRun i; GcReleased].
End pipeline.

Arguments pipeline W : clear implicits.

(** A process state that is just the clock, for examples: a step that
    takes [d] time units, a step that fails after [d] time units. *)
Definition takes (d : Z) : handler Z := λ now, Done (now + d)%Z.
Definition fails (d : Z) (e : exn) : handler Z := λ now, Raised (now + d)%Z e.

End Pipeline.

(** * The key of the engine cache *)

Module CacheKey.

(** Items of a dict are ordered by their keys, strings being compared
    character by character. *)
Definition key_le (p q : string * string) : Prop :=
  String.leb p.1 q.1 = true.

Global Instance key_le_dec : RelDecision key_le.
Proof. intros p q. unfold key_le. apply _. Defined.

(** [sorted(items)] for items with distinct keys. *)
Definition sort_items (items : list (string * string))
    : list (string * string) :=
  merge_sort key_le items.

#[local] Set Warnings "-register-all".

(** Two JSON values with the same content: the items of a dict (whose keys
    are distinct) may come in any order, at any depth. *)
Inductive same_content : json → json → Prop :=
  | same_null : same_content JNull JNull
  | same_bool b : same_content (JBool b) (JBool b)
  | same_int z : same_content (JInt z) (JInt z)
  | same_float r : same_content (JFloat r) (JFloat r)
  | same_str s : same_content (JStr s) (JStr s)
  | same_list l1 l2 :
      Forall2 same_content l1 l2 →
      same_content (JList l1) (JList l2)
  | same_dict d1 d d2 :
      NoDup d1.*1 →
      Forall2 (λ p q, p.1 = q.1 ∧ same_content p.2 q.2) d1 d →
      d ≡ₚ d2 →
      same_content (JDict d1) (JDict d2).

Section serialize.
(** [json.encoder.encode_basestring_ascii]: a string as a JSON string
    literal. *)
Variable encode_basestring : string → string.

Definition item_str (p : string * string) : string :=
  encode_basestring p.1 +:+ ": " +:+ p.2.

(** [json.dumps(j, sort_keys=True)].  The encoder sorts the items of a
    dict and then encodes them; here the values are encoded first and the
    items sorted after, which gives the same text as the order looks at the
    keys only. *)
Fixpoint dumps (j : json) : string :=
  match j with
  | JNull => "null"
  | JBool true => "true"
  | JBool false => "false"
  | JInt z => pretty z
  | JFloat r => r
  | JStr s => encode_basestring s
  | JList items => "[" +:+ String.concat ", " (dumps <$> items) +:+ "]"
  | JDict items =>
      "{" +:+ String.concat ", "
                (item_str <$> sort_items (prod_map id dumps <$> items))
          +:+ "}"
  end.

(** [serialize] of [_get_engine_cache_stage], on the dict [asdict(d)] or
    [d.to_dict()] of its argument. *)
Definition serialize (dic : json) : string := dumps dic.

(** The hash function of the cache, left open. *)
Variable hash : list string → string.

(** A cache stage, as far as this module looks at it. *)
Record CachedStage := Stage {
  fingerprint : string;
  force_rebuild : bool;
}.

(** Modelled from the spec: [BuildCache.get_engine_building_cache_stage]
    and the stage it returns are defined in [build_cache.py], which is not
    among the sources.  Following sections 3 and 4.2 of the specification,
    the fingerprint is derived from the serializations, with stable key
    order, of the build configuration without its plugin part, of the
    plugin configuration, of the parallel topology, of the quantization
    configuration and of the pretrained-model configuration, and from the
    model identity. *)
Definition get_engine_building_cache_stage
    (build_config plugin_config : json) (model_path : string)
    (force_rebuild : bool)
    (parallel_config pretrained_config quant_config : string)
    : CachedStage :=
  Stage (hash [serialize build_config; serialize plugin_config; model_path;
               parallel_config; quant_config; pretrained_config])
        force_rebuild.

(** What [_get_engine_cache_stage] reads: the build configuration (its
    plugin part apart), [_hf_model_dir], the parallel configuration, the
    model format, the quantization configuration and the configuration
    [get_pretrained_config()] returns, each as the dict it is turned
    into. *)
Record cache_inputs := CacheInputs {
  build_config : json;
  plugin_config : json;
  _hf_model_dir : option string;
  parallel_config : json;
  auto_parallel : bool;
  model_format_is_hf : bool;
  pretrained_config : json;
  quant_config : json;
}.

(** [CachedModelLoader._get_engine_cache_stage] *)
Definition _get_engine_cache_stage (a : cache_inputs) : result CachedStage :=
  match _hf_model_dir a with
  | None => Raise (AssertionError "HF model dir is required for cache key.")
  | Some model_path =>
      let force_rebuild := auto_parallel a || negb (model_format_is_hf a) in
      Return (get_engine_building_cache_stage
                (build_config a) (plugin_config a) model_path force_rebuild
                (serialize (parallel_config a))
                (serialize (pretrained_config a))
                (serialize (quant_config a)))
  end.

(** Two readings of the same logical inputs. *)
Definition same_inputs (a b : cache_inputs) : Prop :=
  same_content (build_config a) (build_config b)
  ∧ same_content (plugin_config a) (plugin_config b)
  ∧ _hf_model_dir a = _hf_model_dir b
  ∧ same_content (parallel_config a) (parallel_config b)
  ∧ auto_parallel a = auto_parallel b
  ∧ model_format_is_hf a = model_format_is_hf b
  ∧ same_content (pretrained_config a) (pretrained_config b)
  ∧ same_content (quant_config a) (quant_config b).
End serialize.

(** ** Two readings of one configuration

    An encoder of strings that only adds the quotes, a hash that only joins
    its inputs, and the inputs of one build read twice, the items of the
    dicts coming in different orders. *)

Definition quoted (s : string) : string :=
  String (Ascii.ascii_of_nat 34) s +:+ String (Ascii.ascii_of_nat 34) EmptyString.

Definition joined (inputs : list string) : string :=
  String.concat "-" inputs.

Definition first_reading : cache_inputs :=
  CacheInputs
    (JDict [("max_batch_size", JInt 8); ("max_beam_width", JInt 1)])
    (JDict [("use_paged_context_fmha", JBool true); ("nccl_plugin", JNull)])
    (Some "/models/llama")
    (JDict [("tp_size", JInt 2); ("pp_size", JInt 1);
            ("auto_parallel", JBool false)])
    false true
    (JDict [("architecture", JStr "LlamaForCausalLM");
            ("mapping", JDict [("world_size", JInt 2); ("tp_size", JInt 2)]);
            ("norm_epsilon", JFloat "1e-05")])
    (JDict [("quant_algo", JNull); ("exclude_modules", JList [])]).

Definition second_reading : cache_inputs :=
  CacheInputs
    (JDict [("max_beam_width", JInt 1); ("max_batch_size", JInt 8)])
    (JDict [("nccl_plugin", JNull); ("use_paged_context_fmha", JBool true)])
    (Some "/models/llama")
    (JDict [("pp_size", JInt 1); ("tp_size", JInt 2);
            ("auto_parallel", JBool false)])
    false true
    (JDict [("mapping", JDict [("tp_size", JInt 2); ("world_size", JInt 2)]);
            ("architecture", JStr "LlamaForCausalLM");
            ("norm_epsilon", JFloat "1e-05")])
    (JDict [("exclude_modules", JList []); ("quant_algo", JNull)]).

End CacheKey.

(** * [CachedModelLoader] *)

Module CachedLoader.
Import ModelFormat.

(** ** The objects *)

(** The attributes of [LlmArgs] the loader reads.  [model] is a local
    directory when [is_local_model] holds and the name of a model of the hub
    otherwise; [enable_build_cache] is the truth value of the attribute. *)
Record LlmArgs := Args {
  model : string;
  is_local_model : bool;
  model_format : _ModelFormatKind;
  enable_build_cache : bool;
  auto_parallel : bool;
}.

(** [LlmBuildStats], without the list of build steps. *)
Record LlmBuildStats := Stats {
  cache_hitted : bool;
  cache_info : option string;
  engine_dir : option string;
}.

(** The cache stage [_get_engine_cache_stage] obtains from [build_cache.py]:
    whether it holds an engine, the path of its engine, the directory its
    write guard hands out, and what [parent.free_storage_in_gb()] gives. *)
Record CachedStage := Stage {
  is_cached : bool;
  get_engine_path : string;
  write_guard_dir : string;
  free_storage_in_gb : result Q;
}.

(** The collaborators of the loader. *)
Record environment := Env {
  (** first component of [get_build_cache_config_from_env()] *)
  env_enable_build_cache : bool;
  (** the stage of the engine for the arguments at hand *)
  cache_stage : CachedStage;
  (** [get_directory_size_in_gb(model_dir)] *)
  get_directory_size_in_gb : result Q;
  (** [download_hf_pretrained_config(model, revision)] *)
  download_hf_pretrained_config : result string;
  (** running a [ModelLoader] (or the MPI session) to build into a
      directory: it returns or raises *)
  run_model_loader : string → option exn;
  (** [self.workspace] *)
  workspace : string;
}.

(** What the loader does outside itself. *)
Inductive event :=
  | BuildCacheNew
  | CacheStageLookup
  | CacheIsCached
  | CacheFreeStorage
  | WriteGuardEnter
  | WriteGuardExit
  | WriteGuardAbort
  | DirectorySize
  | DownloadPretrainedConfig
  | BuildTask (engine_dir : string)
  | ReleaseGc
  | LogError (message : string)
  | Print (message : string).

(** An event that consults or writes the build cache. *)
Definition is_cache_event (ev : event) : bool :=
  match ev with
  | BuildCacheNew | CacheStageLookup | CacheIsCached | CacheFreeStorage
  | WriteGuardEnter | WriteGuardExit | WriteGuardAbort => true
  | _ => false
  end.

(** The attributes of a [CachedModelLoader] and the trace of its events. *)
Record loader := Loader {
  llm_args : LlmArgs;
  _hf_model_dir : option string;
  engine_cache_stage : option CachedStage;
  llm_build_stats : LlmBuildStats;
  trace : list event;
}.

(** [CachedModelLoader.__init__] *)
Definition __init__ (args : LlmArgs) (stats : LlmBuildStats) : loader :=
  Loader args None None stats [].

(** ** Code that changes the loader and returns or raises *)

Definition M (A : Type) : Type := loader → loader * result A.

Definition ret {A} (a : A) : M A := λ s, (s, Return a).
Definition raise {A} (e : exn) : M A := λ s, (s, Raise e).
Definition bind {A B} (m : M A) (f : A → M B) : M B :=
  λ s, match m s with
       | (s', Return a) => f a s'
       | (s', Raise e) => (s', Raise e)
       end.

Global Instance M_bind : MBind M := λ A B f m, bind m f.
Global Instance M_ret : MRet M := λ A a, ret a.

(** [try: m  except Exception: h] *)
Definition try_except {A} (m : M A) (h : exn → M A) : M A :=
  λ s, match m s with
       | (s', Return a) => (s', Return a)
       | (s', Raise e) => h e s'
       end.

Definition get : M loader := λ s, (s, Return s).

Definition emit (ev : event) : M unit :=
  λ s, (Loader (llm_args s) (_hf_model_dir s) (engine_cache_stage s)
          (llm_build_stats s) (trace s ++ [ev]), Return tt).

Definition of_result {A} (r : result A) : M A :=
  match r with Return a => ret a | Raise e => raise e end.

Definition set_args (a : LlmArgs) : M unit :=
  λ s, (Loader a (_hf_model_dir s) (engine_cache_stage s)
          (llm_build_stats s) (trace s), Return tt).

Definition set_hf_model_dir (d : option string) : M unit :=
  λ s, (Loader (llm_args s) d (engine_cache_stage s)
          (llm_build_stats s) (trace s), Return tt).

Definition set_engine_cache_stage (c : option CachedStage) : M unit :=
  λ s, (Loader (llm_args s) (_hf_model_dir s) c
          (llm_build_stats s) (trace s), Return tt).

Definition set_stats (b : LlmBuildStats) : M unit :=
  λ s, (Loader (llm_args s) (_hf_model_dir s) (engine_cache_stage s)
          b (trace s), Return tt).

Definition is_HF (k : _ModelFormatKind) : bool :=
  match k with HF => true | _ => false end.

Definition is_TLLM_ENGINE (k : _ModelFormatKind) : bool :=
  match k with TLLM_ENGINE => true | _ => false end.

Section loader.
Variable env : environment.

(** [LlmArgs.model_dir] *)
Definition model_dir : M string :=
  s ← get;
  if is_local_model (llm_args s) then ret (model (llm_args s))
  else raise (AssertionError
                ("model_dir is only available for local model, "
                   +:+ model (llm_args s) +:+ ".")).

(** [CachedModelLoader.build_cache_enabled] *)
Definition build_cache_enabled (s : loader) : bool :=
  (enable_build_cache (llm_args s) || env_enable_build_cache env)
  && is_HF (model_format (llm_args s))
  && negb (auto_parallel (llm_args s)).

(** [CachedModelLoader._get_engine_cache_stage], as far as the loader is
    concerned: a [BuildCache] is made and, [_hf_model_dir] being set, the
    stage is looked up in it.  How the key of the stage is computed is the
    matter of [CacheKey]. *)
Definition _get_engine_cache_stage : M CachedStage :=
  emit BuildCacheNew;;
  s ← get;
  match _hf_model_dir s with
  | None => raise (AssertionError "HF model dir is required for cache key.")
  | Some _ => emit CacheStageLookup;; ret (cache_stage env)
  end.

(** [CachedModelLoader.get_engine_dir] *)
Definition get_engine_dir : M string :=
  s ← get;
  if is_TLLM_ENGINE (model_format (llm_args s)) then model_dir
  else if build_cache_enabled s then
    cache_stage ← _get_engine_cache_stage;
    ret (get_engine_path cache_stage)
  else ret (workspace env +:+ "/tmp.engine").

(** [build_task] of [_build_model] *)
Definition build_task (model_format : _ModelFormatKind) (engine_dir : string)
    : M unit :=
  if is_TLLM_ENGINE model_format then ret tt
  else
    emit (BuildTask engine_dir);;
    match run_model_loader env engine_dir with
    | Some e => raise e
    | None => emit ReleaseGc
    end.

(** [self.engine_cache_stage.<attr>]: the attribute may still be [None]. *)
Definition the_engine_cache_stage : M CachedStage :=
  s ← get;
  match engine_cache_stage s with
  | Some c => ret c
  | None => raise (OtherError "AttributeError" "engine_cache_stage")
  end.

Definition too_small : string := "The cache root directory is too small.".

(** The probe of the storage in [_build_model]. *)
Definition probe_storage : M bool :=
  try_except
    (s ← get;
     if is_local_model (llm_args s) then
       c ← the_engine_cache_stage;
       emit CacheFreeStorage;;
       free ← of_result (free_storage_in_gb c);
       dir ← model_dir;
       emit DirectorySize;;
       size ← of_result (get_directory_size_in_gb env);
       ret (Qle_bool size free)
     else ret true)
    (λ e, match e with
          | ValueError _ => ret false
          | _ => emit (LogError (exn_str e));; ret false
          end).

(** [with self.engine_cache_stage.write_guard() as engine_dir: body] *)
Definition with_write_guard (body : string → M unit) : M unit :=
  c ← the_engine_cache_stage;
  emit WriteGuardEnter;;
  try_except (body (write_guard_dir c);; emit WriteGuardExit)
    (λ e, emit WriteGuardAbort;; raise e).

(** [CachedModelLoader._build_model] *)
Definition _build_model : M string :=
  s0 ← get;
  let model_format := model_format (llm_args s0) in
  has_storage ←
    (if build_cache_enabled s0 then
       has_storage ← probe_storage;
       (if has_storage : bool then
          with_write_guard (λ dir,
            build_task model_format dir;;
            s ← get;
            set_stats (Stats true (cache_info (llm_build_stats s))
                         (engine_dir (llm_build_stats s))))
        else
          emit (Print
                  "The cache directory is too small, build-cache is disabled.");;
          s ← get;
          set_stats (Stats false (Some too_small)
                       (engine_dir (llm_build_stats s))));;
       ret has_storage
     else ret true);
  s1 ← get;
  (if negb (has_storage && build_cache_enabled s1) then
     dir ← get_engine_dir; build_task model_format dir
   else ret tt);;
  get_engine_dir.

(** [CachedModelLoader.__call__] *)
Definition __call__ : M string :=
  s0 ← get;
  if is_TLLM_ENGINE (model_format (llm_args s0)) then model_dir
  else
    set_engine_cache_stage None;;
    reused ←
      (if build_cache_enabled s0 then
         (if negb (is_local_model (llm_args s0)) then
            emit DownloadPretrainedConfig;;
            dir ← of_result (download_hf_pretrained_config env);
            set_hf_model_dir (Some dir)
          else
            if is_HF (model_format (llm_args s0)) then
              dir ← model_dir; set_hf_model_dir (Some dir)
            else set_hf_model_dir None);;
         c ← _get_engine_cache_stage;
         set_engine_cache_stage (Some c);;
         emit CacheIsCached;;
         if is_cached c then
           s ← get;
           set_stats (Stats true (cache_info (llm_build_stats s))
                        (engine_dir (llm_build_stats s)));;
           emit (Print ("Reusing cached engine in " +:+ get_engine_path c));;
           set_args (Args (get_engine_path c) true
                       (model_format (llm_args s))
                       (enable_build_cache (llm_args s))
                       (auto_parallel (llm_args s)));;
           dir ← model_dir;
           s' ← get;
           set_stats (Stats (cache_hitted (llm_build_stats s'))
                        (cache_info (llm_build_stats s')) (Some dir));;
           ret (Some dir)
         else ret None
       else ret None);
    match reused with
    | Some dir => ret dir
    | None => _build_model
    end.
End loader.

(** ** A local model and a cache root that is too small *)

Definition small_cache : environment :=
  Env false
      (Stage false "/cache/1a2b/content" "/cache/1a2b/content"
         (Return (1 # 1)%Q))
      (Return (13 # 1)%Q) (Raise (OtherError "OSError" "offline"))
      (λ _, None) "/tmp/workspace".

Definition local_hf_model : loader :=
  __init__ (Args "/models/llama" true HF true false) (Stats false None None).

(** The same with room enough, and a checkpoint given as the model. *)
Definition roomy_cache : environment :=
  Env false
      (Stage false "/cache/1a2b/content" "/cache/1a2b/content"
         (Return (100 # 1)%Q))
      (Return (13 # 1)%Q) (Raise (OtherError "OSError" "offline"))
      (λ _, None) "/tmp/workspace".

Definition checkpoint_args : LlmArgs :=
  Args "/models/llama-ckpt" true TLLM_CKPT true false.

Definition is_build_task (ev : event) : bool :=
  match ev with BuildTask _ => true | _ => false end.

(** Unfolding the code of the loader down to the state it passes on. *)
Ltac run_loader :=
  unfold __call__, _build_model, probe_storage, with_write_guard,
    the_engine_cache_stage, _get_engine_cache_stage, get_engine_dir,
    build_task, model_dir, build_cache_enabled, try_except, of_result;
  unfold mbind, M_bind, bind, get, ret, raise, emit, set_args,
    set_hf_model_dir, set_engine_cache_stage, set_stats;
  simpl.

End CachedLoader.

(** * More collaborators of the cached loader, for examples *)

Module LoaderExamples.
Import ModelFormat CachedLoader.

(** A cache with room enough, and a build that fails. *)
Definition failing_builds : environment :=
  Env false
      (Stage false "/cache/1a2b/content" "/cache/1a2b/tmp"
         (Return (100 # 1)%Q))
      (Return (13 # 1)%Q) (Raise (OtherError "OSError" "offline"))
      (λ _, Some (OtherError "RuntimeError" "CUDA out of memory"))
      "/tmp/workspace".

(** A cache that holds the engine already, with little room and a build
    that would fail. *)
Definition warm_cache : environment :=
  Env false
      (Stage true "/cache/1a2b/content" "/cache/1a2b/tmp"
         (Return (1 # 1)%Q))
      (Return (13 # 1)%Q) (Raise (OtherError "OSError" "offline"))
      (λ _, Some (OtherError "RuntimeError" "CUDA out of memory"))
      "/tmp/workspace".

End LoaderExamples.

(** * [_ParallelConfig] *)

Module ParallelConfig.

(** The fields of the dataclass.  [_world_size] and [_devices] are not
    parameters of the constructor. *)
Record _ParallelConfig := ParallelConfig_ {
  tp_size : Z;
  pp_size : Z;
  auto_parallel : bool;
  _world_size : Z;
  _devices : option (list Z);
}.

(** [_ParallelConfig(tp_size, pp_size, auto_parallel)] *)
Definition __init__ (tp_size pp_size : Z) (auto_parallel : bool)
    : _ParallelConfig :=
  ParallelConfig_ tp_size pp_size auto_parallel 1 None.

Definition RuntimeError (message : string) : exn :=
  OtherError "RuntimeError" message.

(** The getter of [world_size]. *)
Definition world_size (c : _ParallelConfig) : result Z :=
  if auto_parallel c then
    if (1 <? tp_size c)%Z || (1 <? pp_size c)%Z then
      Raise (RuntimeError
               "manually TP and PP are not supported in auto parallel mode.")
    else Return (_world_size c)
  else if (1 <? _world_size c)%Z then
    Raise (RuntimeError
             "world_size > 1 is only supported in auto parallel mode.")
  else Return (tp_size c * pp_size c)%Z.

Definition newline : string := String (Ascii.ascii_of_nat 10) EmptyString.

Definition world_size_message (world_size : Z) (c : _ParallelConfig)
    : string :=
  "world_size " +:+ pretty world_size
    +:+ " should be equal to tp_size * pp_size "
    +:+ pretty (tp_size c * pp_size c)%Z +:+ " in non-auto_parallel mode."
    +:+ newline
    +:+ "For non-auto-parallel mode, the world_size is not needed to set".

(** The setter of [world_size]. *)
Definition set_world_size (world_size : Z) (c : _ParallelConfig)
    : outcome _ParallelConfig :=
  if auto_parallel c then
    Done (ParallelConfig_ (tp_size c) (pp_size c) (auto_parallel c)
            world_size (_devices c))
  else if negb (world_size =? tp_size c * pp_size c)%Z then
    Raised c (ValueError (world_size_message world_size c))
  else Done c.

(** [list(range(n))] *)
Definition range (n : Z) : list Z := Z.of_nat <$> seq 0 (Z.to_nat n).

(** The getter of [devices]. *)
Definition devices (c : _ParallelConfig) : result (list Z) :=
  match _devices c with
  | None =>
      match world_size c with
      | Return w => Return (range w)
      | Raise e => Raise e
      end
  | Some ds => Return ds
  end.

(** [str] of a list of integers. *)
Definition list_str (l : list Z) : string :=
  "[" +:+ String.concat ", " (pretty <$> l) +:+ "]".

Definition devices_message (devices : list Z) (world_size : Z) : string :=
  "devices " +:+ list_str devices
    +:+ " should have the same length as world_size " +:+ pretty world_size.

(** The setter of [devices]. *)
Definition set_devices (devices : list Z) (c : _ParallelConfig)
    : outcome _ParallelConfig :=
  match world_size c with
  | Raise e => Raised c e
  | Return w =>
      if negb (Z.of_nat (length devices) =? w)%Z then
        Raised c (ValueError (devices_message devices w))
      else
        Done (ParallelConfig_ (tp_size c) (pp_size c) (auto_parallel c)
                (_world_size c) (Some devices))
  end.

(** [is_multi_gpu] *)
Definition is_multi_gpu (c : _ParallelConfig) : result bool :=
  match world_size c with
  | Return w => Return (1 <? w)%Z
  | Raise e => Raise e
  end.

(** An assignment to one of the two properties, and a sequence of them run
    by a caller that goes on after an assignment that raised. *)
Inductive assignment :=
  | SetWorldSize (world_size : Z)
  | SetDevices (devices : list Z).

Definition assign (a : assignment) (c : _ParallelConfig)
    : outcome _ParallelConfig :=
  match a with
  | SetWorldSize w => set_world_size w c
  | SetDevices ds => set_devices ds c
  end.

Definition assign_all (l : list assignment) (c : _ParallelConfig)
    : _ParallelConfig :=
  foldl (λ c a, final_state (assign a c)) c l.

(** What holds of a configuration made without auto-parallel mode, however
    its two properties are assigned afterwards. *)
Definition manual (tp pp : Z) (c : _ParallelConfig) : Prop :=
  tp_size c = tp ∧ pp_size c = pp ∧ auto_parallel c = false
  ∧ _world_size c = 1%Z
  ∧ ∀ ds, _devices c = Some ds → Z.of_nat (length ds) = (tp * pp)%Z.

(** ** The head of [LlmArgs.from_kwargs]

    The keyword arguments [from_kwargs] pops, and the rest. *)
Record parallel_kwargs := ParallelKwargs {
  kw_tensor_parallel_size : option Z;
  kw_pipeline_parallel_size : option Z;
  kw_auto_parallel : option bool;
  kw_world_size : option Z;
  kw_devices : option (list Z);
  kw_rest : kwargs;
}.

Section from_kwargs.
(** The instance under construction; [_check_executor_config_options_
    consistency], the constructor of the class and [setup] are taken as
    given. *)
Context {A : Type}.
Variable _check_executor_config_options_consistency : option exn.
Variable cls : _ParallelConfig → kwargs → result A.
Variable setup : A → result A.

(** [LlmArgs.from_kwargs] *)
Definition from_kwargs (kw : parallel_kwargs) : result A :=
  match _check_executor_config_options_consistency with
  | Some e => Raise e
  | None =>
      let parallel_config :=
        __init__ (default 1%Z (kw_tensor_parallel_size kw))
                 (default 1%Z (kw_pipeline_parallel_size kw))
                 (default false (kw_auto_parallel kw)) in
      (* world_size is only used for auto_parallel mode *)
      let world_size := default 1%Z (kw_world_size kw) in
      let configured :=
        if auto_parallel parallel_config then
          set_world_size world_size parallel_config
        else Done parallel_config in
      match configured with
      | Raised _ e => Raise e
      | Done parallel_config =>
          let with_devices :=
            match kw_devices kw with
            | Some (d :: ds) => set_devices (d :: ds) parallel_config
            | _ => Done parallel_config
            end in
          match with_devices with
          | Raised _ e => Raise e
          | Done parallel_config =>
              match cls parallel_config (kw_rest kw) with
              | Raise e => Raise e
              | Return ret => setup ret
              end
          end
      end
  end.
End from_kwargs.

End ParallelConfig.

(** * [LlmArgs]: the parallel configuration of an engine or checkpoint, and
      the arbitration of its configurations *)

Module LlmArguments.
Import ModelFormat ParallelConfig.

(** ** The objects *)

(** [getattr(obj, name)] on an object given by the map of its attributes. *)
Definition getattr (cls : string) (obj : Arbitrator.config_object)
    (name : string) : result value :=
  match obj !! name with
  | Some v => Return v
  | None =>
      Raise (OtherError "AttributeError"
               ("'" +:+ cls +:+ "' object has no attribute '" +:+ name
                  +:+ "'"))
  end.

(** The truth value of an option value. *)
Definition truthy (v : value) : bool :=
  match v with
  | VNone => false
  | VBool b => b
  | VInt z => negb (z =? 0)%Z
  | VStr s => negb (bool_decide (s = EmptyString))
  end.

Definition type_name (v : value) : string :=
  match v with
  | VNone => "NoneType"
  | VBool _ => "bool"
  | VInt _ => "int"
  | VStr _ => "str"
  end.

(** [v > n] for an integer [n]. *)
Definition py_gt (v : value) (n : Z) : result bool :=
  match as_number v with
  | Some z => Return (n <? z)%Z
  | None =>
      Raise (OtherError "TypeError"
               ("'>' not supported between instances of '" +:+ type_name v
                  +:+ "' and 'int'"))
  end.

(** [asdict(obj)] for a dataclass, as far as its fields [fields] go that
    hold [None], booleans, integers and strings, in the order of their
    declaration: these values are taken as they are.  A field that holds
    a dataclass or a container, which [asdict] copies into dicts and
    lists, is not among [fields]. *)
Fixpoint asdict (cls : string) (fields : list string)
    (obj : Arbitrator.config_object) : result kwargs :=
  match fields with
  | [] => Return []
  | f :: rest =>
      match getattr cls obj f with
      | Raise e => Raise e
      | Return v =>
          match asdict cls rest obj with
          | Raise e => Raise e
          | Return kw => Return ((f, v) :: kw)
          end
      end
  end.

(** A [BuildConfig]: the names of its fields and its attributes, and those
    of the [PluginConfig] object its attribute [plugin_config] holds, which
    is kept apart from the other attributes. *)
Record BuildConfig := BuildConfig_ {
  build_fields : list string;
  build_attrs : Arbitrator.config_object;
  plugin_fields : list string;
  plugin_config : Arbitrator.config_object;
}.

(** A [KvCacheConfig].  The two attributes [_validate_kv_cache_config]
    reads are kept apart from the attributes the arbitrator is given to
    assign; no claim made in this class names them. *)
Record KvCacheConfig := KvCacheConfig_ {
  kv_attrs : Arbitrator.config_object;
  max_attention_window : option (list Z);
  sink_token_length : option Z;
}.

(** [QuantAlgo], an enum of which one member is told apart here. *)
Inductive QuantAlgo := FP8 | OtherAlgo (name : string).

Record QuantConfig := QuantConfig_ {
  quant_algo : option QuantAlgo;
}.

(** The [mapping] of a pretrained configuration. *)
Record Mapping := Mapping_ {
  mapping_tp_size : Z;
  mapping_pp_size : Z;
  mapping_world_size : Z;
}.

(** What [EngineConfig.from_json_file] gives. *)
Record EngineConfig := EngineConfig_ {
  engine_pretrained_config : Mapping;
  engine_build_config : BuildConfig;
}.

(** The attributes of an [LlmArgs] the methods below read or write.
    [llm_args] is what [str(self.llm_args.embedding_parallel_mode)] gives
    when the instance has been given such an attribute; the class defines
    none.  [warnings] are the lines written through [logger.warning]. *)
Record LlmArgs := LlmArgs_ {
  model_format : _ModelFormatKind;
  parallel_config : _ParallelConfig;
  build_config : option BuildConfig;
  quant_config : option QuantConfig;
  kv_cache_config : option KvCacheConfig;
  _pretrained_config : option Mapping;
  embedding_parallel_mode : string;
  share_embedding_table : bool;
  _convert_checkpoint_options : gmap string value;
  enable_chunked_context : bool;
  _config_arbitrator : option Arbitrator.state;
  llm_args : option string;
  warnings : list string;
}.

(** ** Code that changes the instance and returns or raises *)

Definition M (A : Type) : Type := LlmArgs → LlmArgs * result A.

Definition ret {A} (a : A) : M A := λ s, (s, Return a).
Definition raise {A} (e : exn) : M A := λ s, (s, Raise e).
Definition bind {A B} (m : M A) (f : A → M B) : M B :=
  λ s, match m s with
       | (s', Return a) => f a s'
       | (s', Raise e) => (s', Raise e)
       end.

Global Instance M_bind : MBind M := λ A B f m, bind m f.
Global Instance M_ret : MRet M := λ A a, ret a.

Definition get : M LlmArgs := λ s, (s, Return s).

Definition of_result {A} (r : result A) : M A :=
  match r with Return a => ret a | Raise e => raise e end.

Definition set_parallel_config (c : _ParallelConfig) : M unit :=
  λ s, (LlmArgs_ (model_format s) c (build_config s) (quant_config s)
          (kv_cache_config s) (_pretrained_config s)
          (embedding_parallel_mode s) (share_embedding_table s)
          (_convert_checkpoint_options s) (enable_chunked_context s)
          (_config_arbitrator s) (llm_args s) (warnings s), Return tt).

Definition set_build_config (b : option BuildConfig) : M unit :=
  λ s, (LlmArgs_ (model_format s) (parallel_config s) b (quant_config s)
          (kv_cache_config s) (_pretrained_config s)
          (embedding_parallel_mode s) (share_embedding_table s)
          (_convert_checkpoint_options s) (enable_chunked_context s)
          (_config_arbitrator s) (llm_args s) (warnings s), Return tt).

Definition set_kv_cache_config (kv : option KvCacheConfig) : M unit :=
  λ s, (LlmArgs_ (model_format s) (parallel_config s) (build_config s)
          (quant_config s) kv (_pretrained_config s)
          (embedding_parallel_mode s) (share_embedding_table s)
          (_convert_checkpoint_options s) (enable_chunked_context s)
          (_config_arbitrator s) (llm_args s) (warnings s), Return tt).

Definition set_pretrained_config (m : option Mapping) : M unit :=
  λ s, (LlmArgs_ (model_format s) (parallel_config s) (build_config s)
          (quant_config s) (kv_cache_config s) m
          (embedding_parallel_mode s) (share_embedding_table s)
          (_convert_checkpoint_options s) (enable_chunked_context s)
          (_config_arbitrator s) (llm_args s) (warnings s), Return tt).

(** [self._convert_checkpoint_options[key] = val] *)
Definition set_convert_checkpoint_option (key : string) (val : value)
    : M unit :=
  λ s, (LlmArgs_ (model_format s) (parallel_config s) (build_config s)
          (quant_config s) (kv_cache_config s) (_pretrained_config s)
          (embedding_parallel_mode s) (share_embedding_table s)
          (<[key := val]> (_convert_checkpoint_options s))
          (enable_chunked_context s)
          (_config_arbitrator s) (llm_args s) (warnings s), Return tt).

Definition set_enable_chunked_context (b : bool) : M unit :=
  λ s, (LlmArgs_ (model_format s) (parallel_config s) (build_config s)
          (quant_config s) (kv_cache_config s) (_pretrained_config s)
          (embedding_parallel_mode s) (share_embedding_table s)
          (_convert_checkpoint_options s) b
          (_config_arbitrator s) (llm_args s) (warnings s), Return tt).

Definition set_config_arbitrator (arb : option Arbitrator.state) : M unit :=
  λ s, (LlmArgs_ (model_format s) (parallel_config s) (build_config s)
          (quant_config s) (kv_cache_config s) (_pretrained_config s)
          (embedding_parallel_mode s) (share_embedding_table s)
          (_convert_checkpoint_options s) (enable_chunked_context s)
          arb (llm_args s) (warnings s), Return tt).

(** [logger.warning(message)] *)
Definition warn (message : string) : M unit :=
  λ s, (LlmArgs_ (model_format s) (parallel_config s) (build_config s)
          (quant_config s) (kv_cache_config s) (_pretrained_config s)
          (embedding_parallel_mode s) (share_embedding_table s)
          (_convert_checkpoint_options s) (enable_chunked_context s)
          (_config_arbitrator s) (llm_args s) (warnings s ++ [message]),
        Return tt).

Definition none_has_no (attribute : string) : exn :=
  OtherError "AttributeError"
    ("'NoneType' object has no attribute '" +:+ attribute +:+ "'").

(** [self.build_config.<attribute>] *)
Definition the_build_config (attribute : string) : M BuildConfig :=
  s ← get;
  match build_config s with
  | Some b => ret b
  | None => raise (none_has_no attribute)
  end.

(** [self.kv_cache_config.<attribute>] *)
Definition the_kv_cache_config (attribute : string) : M KvCacheConfig :=
  s ← get;
  match kv_cache_config s with
  | Some kv => ret kv
  | None => raise (none_has_no attribute)
  end.

(** [self._config_arbitrator.<method>] *)
Definition the_config_arbitrator (method : string) : M Arbitrator.state :=
  s ← get;
  match _config_arbitrator s with
  | Some arb => ret arb
  | None => raise (none_has_no method)
  end.

(** [self._config_arbitrator.setup(info, config_name, **kw)] *)
Definition arbitrator_setup (info config_name : string) (kw : kwargs)
    : M unit :=
  arb ← the_config_arbitrator "setup";
  match Arbitrator.setup info config_name kw arb with
  | Done arb' => set_config_arbitrator (Some arb')
  | Raised arb' e => set_config_arbitrator (Some arb');; raise e
  end.

(** [self._config_arbitrator.claim_func(func, config_name, **options)] *)
Definition arbitrator_claim_func (func config_name : string)
    (options : kwargs) : M unit :=
  arb ← the_config_arbitrator "claim_func";
  set_config_arbitrator
    (Some (Arbitrator.claim_func func config_name options arb)).

(** [self._config_arbitrator.claim_perf(perf, config_name, fallback,
    **options)] *)
Definition arbitrator_claim_perf (perf config_name : string)
    (fallback : option string) (options : kwargs) : M unit :=
  arb ← the_config_arbitrator "claim_perf";
  set_config_arbitrator
    (Some (Arbitrator.claim_perf perf config_name fallback options arb)).

(** ** The parallel configuration of an engine or a checkpoint *)

Definition inconsistent_message (what : string) (given : Z) (kind : string)
    (found : Z) : string :=
  what +:+ " " +:+ pretty given +:+ " is not consistent with the " +:+ kind
    +:+ "'s " +:+ what +:+ " " +:+ pretty found.

(** [LlmArgs._load_config_from_engine], given what
    [EngineConfig.from_json_file(engine_dir / 'config.json')] does. *)
Definition _load_config_from_engine (from_json_file : result EngineConfig)
    : M unit :=
  engine_config ← of_result from_json_file;
  set_pretrained_config (Some (engine_pretrained_config engine_config));;
  set_build_config (Some (engine_build_config engine_config));;
  (* load and check parallel_config *)
  let mapping := engine_pretrained_config engine_config in
  s ← get;
  let c := parallel_config s in
  if negb ((tp_size c =? 1)%Z || (tp_size c =? mapping_tp_size mapping)%Z)
  then
    raise (ValueError (inconsistent_message "tp_size" (tp_size c) "engine"
                         (mapping_tp_size mapping)))
  else if
    negb ((pp_size c =? 1)%Z || (pp_size c =? mapping_pp_size mapping)%Z)
  then
    raise (ValueError (inconsistent_message "pp_size" (pp_size c) "engine"
                         (mapping_pp_size mapping)))
  else
    set_parallel_config
      (ParallelConfig.__init__ (mapping_tp_size mapping)
         (mapping_pp_size mapping) false).

(** The second literal of the message is no f-string: its braces are
    printed as they are. *)
Definition auto_parallel_message (world_size : Z) : string :=
  "auto parallel with world_size " +:+ pretty world_size
    +:+ " does not support checkpoint with " +:+ "world_size {world_size} > 1".

(** [LlmArgs._load_config_from_ckpt], given what
    [PretrainedConfig.from_json_file(ckpt_dir / 'config.json')] does, as far
    as its [mapping] goes. *)
Definition _load_config_from_ckpt (from_json_file : result Mapping)
    : M unit :=
  mapping ← of_result from_json_file;
  let tp := mapping_tp_size mapping in
  let pp := mapping_pp_size mapping in
  let world := mapping_world_size mapping in
  s ← get;
  let c := parallel_config s in
  (* load parallel_config *)
  if negb (tp_size c =? 1)%Z && negb (tp_size c =? tp)%Z then
    raise (ValueError (inconsistent_message "tp_size" (tp_size c)
                         "checkpoint" tp))
  else if negb (pp_size c =? 1)%Z && negb (pp_size c =? pp)%Z then
    raise (ValueError (inconsistent_message "pp_size" (pp_size c)
                         "checkpoint" pp))
  else
    unsupported ←
      (if auto_parallel c then
         w ← of_result (world_size c);
         if negb (w =? 1)%Z && negb (world =? 1)%Z then ret (Some w)
         else ret None
       else ret None);
    match unsupported with
    | Some w => raise (ValueError (auto_parallel_message w))
    | None =>
        if negb (auto_parallel c) then
          set_parallel_config (ParallelConfig.__init__ tp pp false)
        else ret tt
    end.

(** ** The options of [convert_checkpoint] *)

(** [LlmArgs._setup_embedding_parallel_mode] *)
Definition _setup_embedding_parallel_mode : M unit :=
  s ← get;
  (if bool_decide (embedding_parallel_mode s = "NONE") then
     set_convert_checkpoint_option "use_parallel_embedding" (VBool false)
   else if bool_decide (embedding_parallel_mode s = "SHARDING_ALONG_VOCAB")
   then
     set_convert_checkpoint_option "use_parallel_embedding" (VBool true);;
     set_convert_checkpoint_option "embedding_sharding_dim" (VInt 0)
   else if bool_decide (embedding_parallel_mode s = "SHARDING_ALONG_HIDDEN")
   then
     set_convert_checkpoint_option "use_parallel_embedding" (VBool true);;
     set_convert_checkpoint_option "embedding_sharding_dim" (VInt 1)
   else
     (* the message reads self.llm_args.embedding_parallel_mode *)
     match llm_args s with
     | Some mode =>
         raise (ValueError ("Invalid embedding_parallel_mode: " +:+ mode))
     | None =>
         raise (OtherError "AttributeError"
                  "'LlmArgs' object has no attribute 'llm_args'")
     end);;
  s ← get;
  set_convert_checkpoint_option "share_embedding_table"
    (VBool (share_embedding_table s)).

(** ** What the features ask of the configurations *)

(** [LlmArgs.build_config_mutable] *)
Definition build_config_mutable (s : LlmArgs) : bool :=
  match model_format s with TLLM_ENGINE => false | _ => true end.

(** [LlmArgs._validate_kv_cache_config] *)
Definition _validate_kv_cache_config : M unit :=
  s ← get;
  match kv_cache_config s with
  | None => raise (ValueError "KvCacheConfig is required for streaming LLM.")
  | Some kv =>
      match max_attention_window kv with
      | None =>
          raise (ValueError
                   "KvCacheConfig.max_attention_window should be set for streaming LLM.")
      | Some window =>
          if existsb (λ i, (i <=? 0)%Z) window then
            raise (ValueError
                     "Elements in KvCacheConfig.max_attention_window should be greater than 0.")
          else
            match sink_token_length kv with
            | None =>
                raise (ValueError
                         "KvCacheConfig.sink_token_length should be set for streaming LLM.")
            | Some n =>
                if (n <=? 0)%Z then
                  raise (ValueError
                           "KvCacheConfig.sink_token_length should be greater than 0.")
                else ret tt
            end
      end
  end.

(** [LlmArgs._setup_build_config_into_config_arbitrator]: the attribute
    [plugin_config] being apart, nothing is to be deleted from
    [asdict(self.build_config)]. *)
Definition _setup_build_config_into_config_arbitrator : M unit :=
  s ← get;
  b ← match build_config s with
      | Some b => ret b
      | None =>
          raise (OtherError "TypeError"
                   "asdict() should be called on dataclass instances")
      end;
  build_config ← of_result (asdict "BuildConfig" (build_fields b)
                              (build_attrs b));
  arbitrator_setup "BuildConfig is readonly" "build_config" build_config;;
  b ← the_build_config "plugin_config";
  plugin_config ← of_result (asdict "PluginConfig" (plugin_fields b)
                               (plugin_config b));
  arbitrator_setup "PluginConfig is readonly" "plugin_config" plugin_config.

(** [LlmArgs._setup_enable_chunked_context]; the closure [fallback] goes by
    its name. *)
Definition _setup_enable_chunked_context : M unit :=
  s ← get;
  if enable_chunked_context s then
    if build_config_mutable s then
      arbitrator_claim_perf "chunked_context" "plugin_config"
        (Some "fallback") [("use_paged_context_fmha", VBool true)]
    else ret tt
  else ret tt.

(** [fallback] of [_setup_enable_chunked_context] *)
Definition fallback : M unit :=
  warn "Disabling chunked context due to configuration conflict.";;
  set_enable_chunked_context false.

(** [LlmArgs._setup_enable_streaming_llm] *)
Definition _setup_enable_streaming_llm : M unit :=
  b ← the_build_config "plugin_config";
  streamingllm ← of_result (getattr "PluginConfig" (plugin_config b)
                              "streamingllm");
  if truthy streamingllm then
    _validate_kv_cache_config;;
    arbitrator_claim_func "streamingllm" "plugin_config"
      [("streamingllm", VBool true);
       ("use_paged_context_fmha", VBool false)];;
    arbitrator_claim_func "streamingllm" "kv_cache_config"
      [("enable_block_reuse", VBool false)]
  else ret tt.

(** [LlmArgs._setup_quant_config] *)
Definition _setup_quant_config : M unit :=
  s ← get;
  match quant_config s with
  | None => raise (none_has_no "quant_algo")
  | Some q =>
      match quant_algo q with
      | Some FP8 =>
          arbitrator_claim_func "fp8_quant" "plugin_config"
            [("use_paged_context_fmha", VBool false)]
      | _ => ret tt
      end
  end.

(** What the arbitrator did outside itself, carried out on the instance:
    its warnings are logged and the fallback it called is run. *)
Definition perform (eff : Arbitrator.effect) : M unit :=
  match eff with
  | Arbitrator.LogWarning message => warn message
  | Arbitrator.CallFallback _ => fallback
  end.

Fixpoint perform_all (effs : list Arbitrator.effect) : M unit :=
  match effs with
  | [] => ret tt
  | eff :: rest => perform eff;; perform_all rest
  end.

(** The object a call of the arbitrator leaves under a name. *)
Definition object_after (configs : list (string * Arbitrator.config_object))
    (name : string) (obj : Arbitrator.config_object)
    : Arbitrator.config_object :=
  default obj ((λ found, found.2.2) <$> list_find (λ p, p.1 = name) configs).

(** [self._config_arbitrator(plugin_config=self.build_config.plugin_config,
    kv_cache_config=self.kv_cache_config, build_config=self.build_config)]:
    the three objects are as the call leaves them, and what the arbitrator
    did outside itself is carried out. *)
Definition arbitrator_call : M unit :=
  arb ← the_config_arbitrator "__call__";
  b ← the_build_config "plugin_config";
  s ← get;
  kv ← match kv_cache_config s with
       | Some kv => ret kv
       | None => raise (AssertionError EmptyString)
       end;
  match Arbitrator.__call__ arb
          [("plugin_config", plugin_config b);
           ("kv_cache_config", kv_attrs kv);
           ("build_config", build_attrs b)] with
  | Raised (arb', _) e => set_config_arbitrator (Some arb');; raise e
  | Done (arb', configs) =>
      set_config_arbitrator (Some arb');;
      set_build_config
        (Some (BuildConfig_ (build_fields b)
                 (object_after configs "build_config" (build_attrs b))
                 (plugin_fields b)
                 (object_after configs "plugin_config" (plugin_config b))));;
      set_kv_cache_config
        (Some (KvCacheConfig_
                 (object_after configs "kv_cache_config" (kv_attrs kv))
                 (max_attention_window kv) (sink_token_length kv)));;
      perform_all (Arbitrator.effects arb')
  end.

Section arbitration.
(** [GpuArch.is_post_ampere()] *)
Variable is_post_ampere : bool.

(** [LlmArgs._setup_kv_cache_config] *)
Definition _setup_kv_cache_config : M unit :=
  s ← get;
  match kv_cache_config s with
  | None => raise (AssertionError EmptyString)
  | Some kv =>
      (if negb is_post_ampere then
         arbitrator_setup "pre-ampere not supported" "kv_cache_config"
           [("enable_block_reuse", VBool false)]
       else ret tt);;
      enable_block_reuse ← of_result (getattr "KvCacheConfig" (kv_attrs kv)
                                        "enable_block_reuse");
      if truthy enable_block_reuse then
        arbitrator_claim_func "enable_block_reuse" "kv_cache_config"
          [("enable_block_reuse", VBool true)];;
        arbitrator_claim_func "enable_block_reuse" "plugin_config"
          [("use_paged_context_fmha", VBool true)]
      else ret tt
  end.

(** [LlmArgs._perform_config_arbitration] *)
Definition _perform_config_arbitration : M unit :=
  set_config_arbitrator (Some Arbitrator.__init__);;
  s ← get;
  (if build_config_mutable s then
     b ← the_build_config "max_num_tokens";
     max_num_tokens ← of_result (getattr "BuildConfig" (build_attrs b)
                                   "max_num_tokens");
     (if negb (truthy max_num_tokens) then
        set_build_config
          (Some (BuildConfig_ (build_fields b)
                   (<["max_num_tokens" := VInt 2048]> (build_attrs b))
                   (plugin_fields b) (plugin_config b)))
      else ret tt);;
     (if negb is_post_ampere then
        arbitrator_setup "pre-ampere not supported" "plugin_config"
          [("use_paged_context_fmha", VBool false)]
      else ret tt);;
     _setup_enable_chunked_context;;
     _setup_enable_streaming_llm;;
     _setup_quant_config;;
     b ← the_build_config "max_beam_width";
     max_beam_width ← of_result (getattr "BuildConfig" (build_attrs b)
                                   "max_beam_width");
     beam_search ← of_result (py_gt max_beam_width 1);
     if beam_search : bool then
       arbitrator_claim_func "beam_search (beam_width > 1)" "kv_cache_config"
         [("enable_block_reuse", VBool false)]
     else ret tt
   else _setup_build_config_into_config_arbitrator);;
  _setup_kv_cache_config;;
  arbitrator_call;;
  set_config_arbitrator None.
End arbitration.

End LlmArguments.

Module LlmArgumentsAux.
Import ModelFormat ParallelConfig LlmArguments.

(** A [KvCacheConfig] streaming LLM can work with. *)
Definition valid_for_streaming (kv : KvCacheConfig) : Prop :=
  ∃ window n,
    max_attention_window kv = Some window
    ∧ Forall (λ i, 0 < i)%Z window
    ∧ sink_token_length kv = Some n
    ∧ (0 < n)%Z.

(** Unfolding the code of [LlmArgs] down to the state it passes on. *)
Ltac run_args :=
  unfold _perform_config_arbitration, _setup_kv_cache_config,
    _setup_quant_config, _setup_enable_streaming_llm,
    _setup_enable_chunked_context,
    _setup_build_config_into_config_arbitrator, _validate_kv_cache_config,
    _setup_embedding_parallel_mode, _load_config_from_ckpt,
    _load_config_from_engine, arbitrator_claim_perf, arbitrator_claim_func,
    arbitrator_call, arbitrator_setup, the_config_arbitrator, the_kv_cache_config,
    the_build_config, fallback;
  unfold mbind, M_bind, bind, get, ret, raise, of_result, warn,
    set_config_arbitrator, set_enable_chunked_context,
    set_convert_checkpoint_option, set_pretrained_config,
    set_kv_cache_config, set_build_config, set_parallel_config;
  simpl.

End LlmArgumentsAux.

Module ArbitrationOutcome.
Import ModelFormat ParallelConfig LlmArguments LlmArgumentsAux.

(** ** What the arbitration of [LlmArgs] comes to

    The features that ask for [use_paged_context_fmha=False] and for
    [enable_block_reuse=False], seen from the hardware ([post_ampere]) and
    the truth values of [plugin_config.streamingllm], of
    [quant_algo is QuantAlgo.FP8], of [max_beam_width > 1]. *)
Definition forced_off (post_ampere streaming fp8 : bool) : bool :=
  negb post_ampere || streaming || fp8.

Definition reuse_off (post_ampere streaming beam : bool) : bool :=
  negb post_ampere || streaming || beam.

Definition is_fp8 (q : QuantConfig) : bool :=
  match quant_algo q with Some FP8 => true | _ => false end.

(** The value arbitration gives [use_paged_context_fmha], if any. *)
Definition paged (post_ampere chunked streaming fp8 reuse : bool)
    : option bool :=
  if forced_off post_ampere streaming fp8 then Some false
  else if reuse || chunked then Some true
  else None.

(** The option and the feature the error of a conflict names. *)
Definition blamed_option (streaming fp8 : bool) : string :=
  if streaming || fp8 then "use_paged_context_fmha"
  else "enable_block_reuse".

Definition blamed_feature (post_ampere streaming fp8 : bool) : string :=
  if negb post_ampere then "pre-ampere not supported"
  else if streaming then "streamingllm"
  else if fp8 then "fp8_quant"
  else "beam_search (beam_width > 1)".

Definition set_flag (opt : string) (b : option bool)
    (obj : Arbitrator.config_object) : Arbitrator.config_object :=
  match b with
  | Some b => <[opt := VBool b]> obj
  | None => obj
  end.

(** An instance whose format is not the engine format and whose
    configurations are there, with the attributes the arbitration reads
    holding values of their types. *)
Record well_typed (s : LlmArgs) (b : BuildConfig) (kv : KvCacheConfig)
    (q : QuantConfig) (max_num_tokens : value) (max_beam_width : Z)
    (streaming reuse : bool) : Prop := {
  wt_mutable : build_config_mutable s = true;
  wt_build : build_config s = Some b;
  wt_kv : kv_cache_config s = Some kv;
  wt_quant : quant_config s = Some q;
  wt_tokens : build_attrs b !! "max_num_tokens" = Some max_num_tokens;
  wt_beam : build_attrs b !! "max_beam_width" = Some (VInt max_beam_width);
  wt_streaming : plugin_config b !! "streamingllm" = Some (VBool streaming);
  wt_reuse : kv_attrs kv !! "enable_block_reuse" = Some (VBool reuse);
  wt_valid : streaming = true → valid_for_streaming kv;
}.

(** The instance after an arbitration that returned. *)
Definition arbitrated (post_ampere : bool) (s : LlmArgs) (b : BuildConfig)
    (max_num_tokens : value) (streaming fp8 reuse : bool) : LlmArgs :=
  let chunked := enable_chunked_context s in
  let off := forced_off post_ampere streaming fp8 in
  LlmArgs_ (model_format s) (parallel_config s)
    (Some (BuildConfig_ (build_fields b)
             (if truthy max_num_tokens then build_attrs b
              else <["max_num_tokens" := VInt 2048]> (build_attrs b))
             (plugin_fields b)
             (set_flag "use_paged_context_fmha"
                (paged post_ampere chunked streaming fp8 reuse)
                (plugin_config b))))
    (quant_config s) (kv_cache_config s) (_pretrained_config s)
    (embedding_parallel_mode s) (share_embedding_table s)
    (_convert_checkpoint_options s)
    (chunked && negb off)
    None (llm_args s)
    (warnings s
     ++ if chunked && off then
          [Arbitrator.ignore_message "chunked_context"
             "use_paged_context_fmha";
           "Disabling chunked context due to configuration conflict."]
        else []).

(** The value arbitration gives [enable_block_reuse], if any. *)
Definition block (post_ampere streaming beam reuse : bool) : option bool :=
  if reuse_off post_ampere streaming beam then Some false
  else if reuse then Some true
  else None.

(** The claims each feature makes, on an arbitrator. *)
Definition claims_chunked (chunked : bool) (arb : Arbitrator.state)
    : Arbitrator.state :=
  if chunked then
    Arbitrator.claim_perf "chunked_context" "plugin_config"
      (Some "fallback") [("use_paged_context_fmha", VBool true)] arb
  else arb.

Definition claims_streaming (streaming : bool) (arb : Arbitrator.state)
    : Arbitrator.state :=
  if streaming then
    Arbitrator.claim_func "streamingllm" "kv_cache_config"
      [("enable_block_reuse", VBool false)]
      (Arbitrator.claim_func "streamingllm" "plugin_config"
         [("streamingllm", VBool true);
          ("use_paged_context_fmha", VBool false)] arb)
  else arb.

Definition claims_fp8 (fp8 : bool) (arb : Arbitrator.state)
    : Arbitrator.state :=
  if fp8 then
    Arbitrator.claim_func "fp8_quant" "plugin_config"
      [("use_paged_context_fmha", VBool false)] arb
  else arb.

Definition claims_beam (beam : bool) (arb : Arbitrator.state)
    : Arbitrator.state :=
  if beam then
    Arbitrator.claim_func "beam_search (beam_width > 1)" "kv_cache_config"
      [("enable_block_reuse", VBool false)] arb
  else arb.

Definition claims_reuse (reuse : bool) (arb : Arbitrator.state)
    : Arbitrator.state :=
  if reuse then
    Arbitrator.claim_func "enable_block_reuse" "plugin_config"
      [("use_paged_context_fmha", VBool true)]
      (Arbitrator.claim_func "enable_block_reuse" "kv_cache_config"
         [("enable_block_reuse", VBool true)] arb)
  else arb.

(** The baseline set up on hardware before Ampere. *)
Definition setup_pre_ampere (post_ampere : bool) (config_name opt : string)
    (arb : Arbitrator.state) : outcome Arbitrator.state :=
  if post_ampere then Done arb
  else Arbitrator.setup "pre-ampere not supported" config_name
         [(opt, VBool false)] arb.

(** The arbitrator as [_perform_config_arbitration] has it when it calls
    it, for an instance whose format is not the engine format. *)
Definition arbitrator_before_call
    (post_ampere chunked streaming fp8 beam reuse : bool)
    : outcome Arbitrator.state :=
  match setup_pre_ampere post_ampere "plugin_config"
          "use_paged_context_fmha" Arbitrator.__init__ with
  | Raised a e => Raised a e
  | Done a0 =>
      match setup_pre_ampere post_ampere "kv_cache_config"
              "enable_block_reuse"
              (claims_beam beam
                 (claims_fp8 fp8
                    (claims_streaming streaming
                       (claims_chunked chunked a0)))) with
      | Raised a e => Raised a e
      | Done a5 => Done (claims_reuse reuse a5)
      end
  end.

Global Instance exn_eq_dec : EqDecision exn.
Proof. solve_decision. Defined.

Global Instance effect_eq_dec : EqDecision Arbitrator.effect.
Proof. solve_decision. Defined.

(** The instance with another arbitrator. *)
Definition with_arbitrator (s : LlmArgs) (arb : option Arbitrator.state)
    : LlmArgs :=
  (set_config_arbitrator arb s).1.

(** The instance with another build configuration. *)
Definition with_build_config (s : LlmArgs) (b : option BuildConfig)
    : LlmArgs :=
  (set_build_config b s).1.

(** Evaluating a closed term, by the virtual machine. *)
Ltac vm_eval t :=
  let r := eval vm_compute in t in
  let H := fresh "Heval" in
  assert (t = r) as H by (vm_compute; reflexivity);
  rewrite H; clear H.

(** ** An instance for a model of the hub, with beam search and block
    reuse both asked for *)
Definition beam_search_with_reuse : LlmArgs :=
  LlmArgs_ HF (ParallelConfig.__init__ 1 1 false)
    (Some (BuildConfig_ ["max_num_tokens"; "max_beam_width"]
             (<["max_num_tokens" := VNone]>
                (<["max_beam_width" := VInt 4]> ∅))
             ["streamingllm"; "use_paged_context_fmha"]
             (<["streamingllm" := VBool false]>
                (<["use_paged_context_fmha" := VBool false]> ∅))))
    (Some (QuantConfig_ None))
    (Some (KvCacheConfig_ (<["enable_block_reuse" := VBool true]> ∅)
             None None))
    None "SHARDING_ALONG_VOCAB" false ∅ true None None [].

(** The same without beam search, for FP8 quantization *)
Definition fp8_with_chunked_context : LlmArgs :=
  LlmArgs_ HF (ParallelConfig.__init__ 1 1 false)
    (Some (BuildConfig_ ["max_num_tokens"; "max_beam_width"]
             (<["max_num_tokens" := VNone]>
                (<["max_beam_width" := VInt 1]> ∅))
             ["streamingllm"; "use_paged_context_fmha"]
             (<["streamingllm" := VBool false]>
                (<["use_paged_context_fmha" := VBool true]> ∅))))
    (Some (QuantConfig_ (Some FP8)))
    (Some (KvCacheConfig_ (<["enable_block_reuse" := VBool false]> ∅)
             None None))
    None "SHARDING_ALONG_VOCAB" false ∅ true None None [].

End ArbitrationOutcome.

(** * What the arbitrator keeps *)

Module ArbitratorKeeps.
Import Arbitrator.

(** Every option that has a value in a dict of [h] has one in the dict at
    the same address of [h'], equal to it in the sense of [==]. *)
Definition heap_keeps (h h' : heap value) : Prop :=
  ∀ l opt v,
    hget l h !! opt = Some v →
    ∃ v', hget l h' !! opt = Some v' ∧ py_eqb v v' = true.

(** The same for two states of an arbitrator: the names of
    [virtual_configs] stand for the dicts they stood for, and these keep
    their options. *)
Definition keeps (st st' : state) : Prop :=
  virtual_configs st ⊆ virtual_configs st'
  ∧ heap_keeps (cfg_heap st) (cfg_heap st').

(** A baseline for hardware before Ampere, then the claims of FP8
    quantization and of a chunked context. *)
Definition pre_ampere_registrations : list registration :=
  [ClaimFunc "fp8_quant" "plugin_config"
     [("use_paged_context_fmha", VBool false)];
   ClaimPerf "chunked_context" "plugin_config" (Some "fallback")
     [("use_paged_context_fmha", VBool true)]].

End ArbitratorKeeps.

(** * The arbitration of [LlmArgs] for an engine *)

Module EngineArbitration.
Import ModelFormat ParallelConfig LlmArguments.

(** An instance given an engine, with its configurations there: the fields
    of the build and plugin configurations that hold [None], booleans,
    integers and strings are attributes of them, [use_paged_context_fmha]
    is such a field of the plugin configuration, and [enable_block_reuse]
    holds a boolean. *)
Record engine_typed (s : LlmArgs) (b : BuildConfig) (kv : KvCacheConfig)
    (paged : value) (reuse : bool) : Prop := {
  et_engine : model_format s = TLLM_ENGINE;
  et_build : build_config s = Some b;
  et_kv : kv_cache_config s = Some kv;
  et_build_fields :
    Forall (λ f, is_Some (build_attrs b !! f)) (build_fields b);
  et_plugin_fields :
    Forall (λ f, is_Some (plugin_config b !! f)) (plugin_fields b);
  et_paged_field : "use_paged_context_fmha" ∈ plugin_fields b;
  et_paged : plugin_config b !! "use_paged_context_fmha" = Some paged;
  et_reuse : kv_attrs kv !! "enable_block_reuse" = Some (VBool reuse);
}.

(** The arbitrator of an engine after its two baselines. *)
Record engine_baseline (arb : Arbitrator.state)
    (objB objP : Arbitrator.config_object)
    (paged : value) : Prop := {
  eb_wf : Arbitrator.wf_store arb;
  eb_build : Arbitrator.config_view arb "build_config" ⊆ objB;
  eb_plugin : Arbitrator.config_view arb "plugin_config" ⊆ objP;
  eb_paged :
    Arbitrator.config_view arb "plugin_config" !! "use_paged_context_fmha"
    = Some paged;
  eb_source :
    Arbitrator.source_view arb "plugin_config" !! "use_paged_context_fmha"
    = Some "PluginConfig is readonly";
  eb_kv : Arbitrator.config_view arb "kv_cache_config" = ∅;
  eb_kv_source : Arbitrator.source_view arb "kv_cache_config" = ∅;
  eb_func_claims : Arbitrator.func_claims arb = [];
  eb_perf_claims : Arbitrator.perf_claims arb = [];
  eb_effects : Arbitrator.effects arb = [];
}.

(** The error of a block reuse that cannot be had. *)
Definition reuse_error (post_ampere : bool) (paged : value) : exn :=
  if post_ampere then
    ConfigArbitrateError
      (Arbitrator.conflict_message "use_paged_context_fmha" (VBool true)
         "enable_block_reuse" "PluginConfig is readonly" paged)
  else
    ConfigArbitrateError
      (Arbitrator.conflict_message "enable_block_reuse" (VBool true)
         "enable_block_reuse" "pre-ampere not supported" (VBool false)).

(** An engine built without paged context FMHA, to be run with block
    reuse. *)
Definition engine_without_paged_context : LlmArgs :=
  LlmArgs_ TLLM_ENGINE (ParallelConfig.__init__ 1 1 false)
    (Some (BuildConfig_ ["max_num_tokens"; "max_beam_width"]
             (<["max_num_tokens" := VInt 8192]>
                (<["max_beam_width" := VInt 1]> ∅))
             ["streamingllm"; "use_paged_context_fmha"]
             (<["streamingllm" := VBool false]>
                (<["use_paged_context_fmha" := VBool false]> ∅))))
    (Some (QuantConfig_ None))
    (Some (KvCacheConfig_ (<["enable_block_reuse" := VBool true]> ∅)
             None None))
    None "SHARDING_ALONG_VOCAB" false ∅ true None None [].

End EngineArbitration.

(** * [ModelLoader]: the build steps and the call *)

Module ModelLoaderCall.
Import ModelFormat.

(** The methods of a [ModelLoader] that [_gather_build_steps] makes steps
    of. *)
Inductive method :=
  | _build_engine_from_inmemory_model
  | _download_hf_model
  | _load_model_from_hf
  | _build_engine
  | _load_model_from_ckpt.

(** [self.llm_args.model]: a [Module], [None], a name or a [Path]. *)
Inductive model_arg :=
  | AModule
  | ANone
  | AName (name : string)
  | APath (dir : string).

(** [LlmArgs.is_local_model] and [LlmArgs.is_hub_model] *)
Definition is_local_model (model : model_arg) : bool :=
  match model with APath _ => true | _ => false end.

Definition is_hub_model (model : model_arg) : bool :=
  negb (is_local_model model).

Definition model_str (model : model_arg) : string :=
  match model with
  | AModule => "Module()"
  | ANone => "None"
  | AName name => name
  | APath dir => dir
  end.

(** [LlmArgs.model_dir] *)
Definition model_dir (model : model_arg) : result string :=
  match model with
  | APath dir => Return dir
  | _ =>
      Raise (AssertionError
               ("model_dir is only available for local model, "
                  +:+ model_str model +:+ "."))
  end.

(** [ModelLoader._gather_build_steps], as the list [_build_pipeline] it
    leaves. *)
Definition _gather_build_steps (model : model_arg)
    (_model_format : _ModelFormatKind) : result (list (string * method)) :=
  match model with
  | AModule =>
      (* Build engine from user provided model *)
      Return [("Build TensorRT-LLM engine",
               _build_engine_from_inmemory_model)]
  | _ =>
      let download :=
        if is_hub_model model
           && negb (match _model_format with
                    | TLLM_ENGINE => true
                    | _ => false
                    end)
        then
          match model with
          | ANone =>
              Raise (ValueError
                       "Either model_dir or model should be provided to ModelConfig.")
          | _ => Return [("Downloading HF model", _download_hf_model)]
          end
        else Return [] in
      match download with
      | Raise e => Raise e
      | Return steps =>
          match _model_format with
          | HF =>
              Return (steps
                      ++ [("Loading HF model to memory", _load_model_from_hf);
                          ("Building TRT-LLM engine", _build_engine)])
          | TLLM_CKPT =>
              Return (steps
                      ++ [("Loading TRT checkpoints to memory",
                           _load_model_from_ckpt);
                          ("Build TRT-LLM engine", _build_engine)])
          | TLLM_ENGINE => Return steps
          end
      end
  end.

(** What a call of the loader does outside the pipeline, and the events of
    the pipeline. *)
Inductive event :=
  | SetDevice
  | Step (ev : Pipeline.event)
  | Save (model_dir engine_dir : string).

Section loader.
(** The state of the process, with [self.llm_args.model] and whether the
    loader has been given an attribute [model] in it. *)
Context {W : Type}.
Variable clock : W → Z.
Variable release_gc : W → W.
Variable model_of : W → model_arg.
Variable has_model : W → bool.
(** The methods that download, load and build; [torch.cuda.set_device];
    and [ModelLoader.save] on the runtime context of the loader. *)
Variable bound : method → Pipeline.handler W.
Variable set_device : W → W.
Variable save : string → string → Pipeline.handler W.

(** [ModelLoader._build_engine_from_inmemory_model]:
    [_ModelInfo.from_module] raises [NotImplementedError], if its argument
    [self.model] can be read at all. *)
Definition build_engine_from_inmemory_model : Pipeline.handler W :=
  λ w,
    match model_of w with
    | AModule =>
        if has_model w then Raised w (OtherError "NotImplementedError" "")
        else
          Raised w (OtherError "AttributeError"
                      "'ModelLoader' object has no attribute 'model'")
    | _ => Raised w (AssertionError EmptyString)
    end.

Definition step_handler (m : method) : Pipeline.handler W :=
  match m with
  | _build_engine_from_inmemory_model => build_engine_from_inmemory_model
  | _ => bound m
  end.

(** The attributes of a [ModelLoader] a call reads, with
    [llm_args.model_format] and [llm_args.parallel_config.is_multi_gpu]. *)
Record ModelLoader := Loader {
  model_format : _ModelFormatKind;
  is_multi_gpu : result bool;
  _build_pipeline : list (string * method);
}.

(** The process, the [build_steps_info] of the statistics and the events
    so far. *)
Record state := State {
  world : W;
  build_steps_info : list (string * Z);
  trace : list event;
}.

(** [ModelLoader.__call__] *)
Definition __call__ (self : ModelLoader) (engine_dir : option string)
    (s : state) : state * result string :=
  match model_format self with
  | TLLM_ENGINE => (s, model_dir (model_of (world s)))
  | _ =>
      match is_multi_gpu self with
      | Raise e => (s, Raise e)
      | Return multi =>
          let s1 :=
            if multi : bool then
              State (set_device (world s)) (build_steps_info s)
                    (trace s ++ [SetDevice])
            else s in
          match Pipeline.__init__ (_build_pipeline self).*1
                  (step_handler <$> (_build_pipeline self).*2)
                  (build_steps_info s1) (world s1) with
          | Raise e => (s1, Raise e)
          | Return pipeline =>
              let ran := Pipeline.__call__ clock release_gc pipeline in
              let p := final_state ran in
              let s2 :=
                State (Pipeline.world p) (Pipeline.build_steps_info p)
                      (trace s1 ++ (Step <$> Pipeline.trace p)) in
              match raised ran with
              | Some e => (s2, Raise e)
              | None =>
                  match engine_dir with
                  | None => (s2, Raise (AssertionError EmptyString))
                  | Some engine_dir =>
                      match model_dir (model_of (world s2)) with
                      | Raise e => (s2, Raise e)
                      | Return dir =>
                          let saved :=
                            trace s2 ++ [Save dir engine_dir] in
                          match save dir engine_dir (world s2) with
                          | Raised w e =>
                              (State w (build_steps_info s2) saved, Raise e)
                          | Done w =>
                              (State w (build_steps_info s2) saved,
                               Return engine_dir)
                          end
                      end
                  end
              end
          end
      end
  end.
End loader.

(** A process state for examples: the clock and the model. *)
Definition downloads (dir : string) : Pipeline.handler (Z * model_arg) :=
  λ w, Done ((w.1 + 60)%Z, APath dir).

Definition works (d : Z) : Pipeline.handler (Z * model_arg) :=
  λ w, Done ((w.1 + d)%Z, w.2).

Definition example_methods (m : method) : Pipeline.handler (Z * model_arg) :=
  match m with
  | _download_hf_model => downloads "/hub/llama"
  | _ => works 30
  end.

End ModelLoaderCall.

(** * [ModelLoader.load_extra_build_configs_from_engine] *)

Module ExtraBuildConfigs.
Import ModelFormat.

(** [type(j).__name__] of a decoded JSON value *)
Definition type_name (j : json) : string :=
  match j with
  | JNull => "NoneType"
  | JBool _ => "bool"
  | JInt _ => "int"
  | JFloat _ => "float"
  | JStr _ => "str"
  | JList _ => "list"
  | JDict _ => "dict"
  end.





End ExtraBuildConfigs.

(** * [CalibConfig] *)

Module Calib.

(** The dataclass; no field is checked against its annotation. *)
Record CalibConfig := CalibConfig_ {
  device : value;
  calib_dataset : value;
  calib_batches : value;
  calib_batch_size : value;
  calib_max_seq_length : value;
  random_seed : value;
  tokenizer_max_seq_length : value;
}.

(** The fields with their defaults, in the order of their declaration. *)
Definition fields : kwargs :=
  [("device", VStr "cuda");
   ("calib_dataset", VStr "cnn_dailymail");
   ("calib_batches", VInt 512);
   ("calib_batch_size", VInt 1);
   ("calib_max_seq_length", VInt 512);
   ("random_seed", VInt 1234);
   ("tokenizer_max_seq_length", VInt 2048)].

Definition unexpected (key : string) : exn :=
  OtherError "TypeError"
    ("CalibConfig.__init__() got an unexpected keyword argument '" +:+ key
       +:+ "'").

(** The argument a keyword gives a parameter, or its default. *)
Definition argument (config : kwargs) (name : string) : value :=
  match list_find (λ item, item.1 = name) config with
  | Some (_, (_, v)) => v
  | None => default VNone (snd <$> (snd <$> list_find (λ f, f.1 = name) fields))
  end.

(** [CalibConfig.from_dict]: the class called with the items of [config]
    as keyword arguments *)
Definition from_dict (config : kwargs) : result CalibConfig :=
  match list_find (λ item, item.1 ∉ fields.*1) config with
  | Some (_, (key, _)) => Raise (unexpected key)
  | None =>
      Return (CalibConfig_ (argument config "device")
                (argument config "calib_dataset")
                (argument config "calib_batches")
                (argument config "calib_batch_size")
                (argument config "calib_max_seq_length")
                (argument config "random_seed")
                (argument config "tokenizer_max_seq_length"))
  end.

(** [CalibConfig.to_dict]: [asdict(self)] *)
Definition to_dict (self : CalibConfig) : kwargs :=
  [("device", device self);
   ("calib_dataset", calib_dataset self);
   ("calib_batches", calib_batches self);
   ("calib_batch_size", calib_batch_size self);
   ("calib_max_seq_length", calib_max_seq_length self);
   ("random_seed", random_seed self);
   ("tokenizer_max_seq_length", tokenizer_max_seq_length self)].

End Calib.

(** * The build pipeline as its loader runs it *)

Module LoaderContext.
Import ModelFormat ModelLoaderCall.

(** ** Steps in sequence, in the words of the specification

    The steps run strictly in the order given, from step [i] on.  A
    reclaim is forced after a step that returns, and its entry (label,
    latency) is recorded.  A step that raises ends the sequence at once:
    no later step runs, and the entries of the steps before it are
    kept. *)
Section sequence.
Context {W : Type}.
Variable clock : W → Z.
Variable release_gc : W → W.

Record run := Run {
  run_events : list Pipeline.event;
  run_entries : list (string * Z);
  run_world : W;
  run_error : option exn;
}.

Fixpoint in_sequence (steps : list (string * Pipeline.handler W)) (i : nat)
    (w : W) : run :=
  match steps with
  | [] => Run [] [] w None
  | (label, handler) :: rest =>
      match handler w with
      | Raised w' e => Run [Pipeline.StepRun i] [] w' (Some e)
      | Done w1 =>
          let w2 := release_gc w1 in
          let after := in_sequence rest (S i) w2 in
          Run (Pipeline.StepRun i :: Pipeline.GcReleased :: run_events after)
              ((label, (clock w2 - clock w)%Z) :: run_entries after)
              (run_world after) (run_error after)
      end
  end.
End sequence.

Arguments run W : clear implicits.

(** ** The loader as a context manager *)

(** What happens in the [with] block of a loader: the events of its call,
    and the [release_gc()] of [__exit__]. *)
Inductive event :=
  | InCall (ev : ModelLoaderCall.event)
  | ExitReleaseGc.

Section context.
Context {W : Type}.
Variable clock : W → Z.
Variable release_gc : W → W.
Variable model_of : W → model_arg.
Variable has_model : W → bool.
Variable bound : method → Pipeline.handler W.
Variable set_device : W → W.
Variable save : string → string → Pipeline.handler W.
(** Setting to [None] the attributes of the loader that are not callable,
    [model_format] and [workspace] apart. *)
Variable clear_attributes : W → W.

(** [ModelLoader.__exit__], on the process: the attributes of the loader
    are set to [None] and [release_gc()] is called.  It returns [None], so
    an exception of the block goes on. *)
Definition __exit__ (w : W) : W := release_gc (clear_attributes w).

(** [with ModelLoader(...) as model_loader:
       model_loader(engine_dir=engine_dir)],
    as in [build_task] of [CachedModelLoader._build_model] and in
    [CachedModelLoader._node_build_task], the loader being made:
    [__enter__] gives the loader, the call runs, and [__exit__] runs
    whether the call returned or raised. *)
Definition with_model_loader (self : ModelLoader)
    (engine_dir : option string) (s : state)
    : (W * list (string * Z) * list event) * result string :=
  let called :=
    __call__ clock release_gc model_of has_model bound set_device save
      self engine_dir s in
  ((__exit__ (world called.1), build_steps_info called.1,
    (InCall <$> trace called.1) ++ [ExitReleaseGc]),
   called.2).

(** The steps of a loader, each label with the handler of its method. *)
Definition steps_of (self : ModelLoader)
    : list (string * Pipeline.handler W) :=
  (λ step, (step.1, step_handler model_of has_model bound step.2))
    <$> _build_pipeline self.
End context.

(** Methods for examples: the engine build runs out of memory. *)
Definition out_of_memory : exn :=
  OtherError "RuntimeError" "CUDA out of memory".

Definition failing_build (m : method)
    : Pipeline.handler (Z * model_arg) :=
  match m with
  | _build_engine => λ w, Raised ((w.1 + 7)%Z, w.2) out_of_memory
  | _ => example_methods m
  end.

End LoaderContext.

(** * Registrations without fallbacks *)

Module Registrations.
Import Arbitrator.


End Registrations.

(** * Facts about the arbitrator *)

Module ArbitratorFacts.
Import Arbitrator.

(** ** Python equality is an equivalence on option values *)

Lemma py_eqb_refl v : py_eqb v v = true.
Proof. destruct v as [|[]| |]; simpl; by try apply bool_decide_eq_true. Qed.

Lemma py_eqb_sym a b : py_eqb a b = py_eqb b a.
Proof.
  destruct a as [|[]| |], b as [|[]| |]; simpl; try done;
    apply bool_decide_ext; split; congruence.
Qed.

Lemma py_eqb_trans a b c :
  py_eqb a b = true → py_eqb b c = true → py_eqb a c = true.
Proof.
  destruct a as [|[]| |], b as [|[]| |], c as [|[]| |]; simpl; try done;
    rewrite ?bool_decide_eq_true; congruence.
Qed.

Lemma py_eqb_neq_l a b c :
  py_eqb a b = true → py_eqb a c = false → py_eqb b c = false.
Proof.
  intros Hab Hac. destruct (py_eqb b c) eqn:Hbc; [|done].
  by rewrite (py_eqb_trans a b c) in Hac.
Qed.

(** ** The heap *)

Section heap.
Context {V : Type}.
Implicit Types (h : heap V) (d : gmap string loc) (m : gmap string V).

Lemma hget_insert_eq l m h : l < length h → hget l (<[l := m]> h) = m.
Proof. intros Hl. unfold hget. by rewrite list_lookup_insert_eq. Qed.

Lemma hget_insert_ne l l' m h : l ≠ l' → hget l' (<[l := m]> h) = hget l' h.
Proof. intros Hl. unfold hget. by rewrite list_lookup_insert_ne. Qed.

Lemma hset_insert l k v m h :
  l < length h → hset l k v (<[l := m]> h) = <[l := <[k := v]> m]> h.
Proof.
  intros Hl. unfold hset.
  by rewrite hget_insert_eq, list_insert_insert_eq.
Qed.

Lemma insert_hget l h : l < length h → <[l := hget l h]> h = h.
Proof.
  intros Hl. apply list_insert_id. unfold hget.
  destruct (lookup_lt_is_Some_2 h l Hl) as [m ->]. done.
Qed.

Lemma hget_alloc h : hget (length h) (h ++ [∅]) = ∅.
Proof.
  unfold hget. rewrite lookup_app_r by lia.
  by replace (length h - length h) with 0 by lia.
Qed.

Lemma hget_app_l l h h' : l < length h → hget l (h ++ h') = hget l h.
Proof. intros Hl. unfold hget. by rewrite lookup_app_l. Qed.

Lemma wf_outer_empty : wf_outer (V := V) ∅ [].
Proof. split; intros *; by rewrite lookup_empty. Qed.

(** What [setdefault] followed by an update of the inner dict does, in
    terms of the dicts the names stand for. *)
Lemma setdefault_dict_spec name d h d' h' l :
  wf_outer d h →
  setdefault_dict name d h = (d', h', l) →
  l < length h' ∧ hget l h' = view d h name ∧
  ∀ m, wf_outer d' (<[l := m]> h') ∧
       view d' (<[l := m]> h') name = m ∧
       ∀ n, n ≠ name → view d' (<[l := m]> h') n = view d h n.
Proof.
  intros [Hb Hi]. unfold setdefault_dict, view.
  destruct (d !! name) as [l0|] eqn:Hname; intros [= <- <- <-].
  - split_and!; [by eapply Hb|done|]. intros m. split_and!.
    + split; [|done]. intros n l Hn. rewrite length_insert. by eapply Hb.
    + rewrite Hname. apply hget_insert_eq. by eapply Hb.
    + intros n Hn. destruct (d !! n) as [l1|] eqn:Hl1; [|done].
      apply hget_insert_ne. intros <-. apply Hn. by eapply Hi.
  - split_and!.
    + rewrite length_app. simpl. lia.
    + apply hget_alloc.
    + intros m. split_and!.
      * split.
        -- intros n l. rewrite length_insert, length_app. simpl.
           rewrite lookup_insert. case_decide; [intros [= <-]; lia|].
           intros Hn%Hb. lia.
        -- intros n1 n2 l. rewrite !lookup_insert.
           repeat case_decide; subst; try done.
           ++ intros [= <-] Hn%Hb. lia.
           ++ intros Hn%Hb [= <-]. lia.
           ++ apply Hi.
      * rewrite lookup_insert_eq. apply hget_insert_eq.
        rewrite length_app. simpl. lia.
      * intros n Hn. rewrite lookup_insert_ne by done.
        destruct (d !! n) as [l1|] eqn:Hl1; [|done].
        apply Hb in Hl1. rewrite hget_insert_ne by lia.
        by apply hget_app_l.
Qed.
End heap.

(** ** The loops on the heap and the loops on the two dicts agree *)

Lemma setup_options_cell info l ls kw hv hs vc os :
  l < length hv → ls < length hs →
  setup_options info l ls kw (<[l := vc]> hv) (<[ls := os]> hs)
  = store_cell l ls hv hs (cell_setup info kw vc os).
Proof.
  intros Hl Hls. revert vc os.
  induction kw as [|[opt val] kw IH]; intros vc os; simpl; [done|].
  rewrite hget_insert_eq by done.
  destruct (py_eqb _ val); [|done].
  rewrite !hset_insert by done. apply IH.
Qed.

Lemma func_options_cell func l ls options hv hs vc os :
  l < length hv → ls < length hs →
  func_options func l ls options (<[l := vc]> hv) (<[ls := os]> hs)
  = store_cell l ls hv hs (cell_options func options vc os).
Proof.
  intros Hl Hls. revert vc os.
  induction options as [|[opt val] options IH]; intros vc os; simpl; [done|].
  rewrite !hget_insert_eq by done.
  destruct (vc !! opt) as [existing|].
  - destruct (py_eqb existing val); [apply IH|].
    by destruct (os !! opt).
  - rewrite !hset_insert by done. apply IH.
Qed.

Lemma func_funcs_cell l ls funcs hv hs vc os :
  l < length hv → ls < length hs →
  func_funcs l ls funcs (<[l := vc]> hv) (<[ls := os]> hs)
  = store_cell l ls hv hs (cell_funcs funcs vc os).
Proof.
  intros Hl Hls. revert vc os.
  induction funcs as [|[func options] funcs IH]; intros vc os; simpl; [done|].
  rewrite func_options_cell by done.
  destruct (cell_options func options vc os) as [[vc' os']|[vc' os'] e];
    simpl; [apply IH|done].
Qed.

Lemma wf_wf_store st : wf st → wf_store st.
Proof. intros [??]. by split. Qed.

(** Running one of the loops after the two [setdefault] calls amounts to
    running it on the dicts the config name stands for. *)
Lemma with_store_cell (st : state) name
    (loop : loc → loc → heap value → heap string
            → outcome (heap value * heap string))
    (cloop : gmap string value → gmap string string → outcome cell) :
  wf_store st →
  (∀ l ls hv hs vc os, l < length hv → ls < length hs →
     loop l ls (<[l := vc]> hv) (<[ls := os]> hs)
     = store_cell l ls hv hs (cloop vc os)) →
  ∃ vcs oss l ls hv hs,
    setdefault_dict name (virtual_configs st) (cfg_heap st) = (vcs, hv, l)
    ∧ setdefault_dict name (option_sources st) (src_heap st) = (oss, hs, ls)
    ∧ match cloop (config_view st name) (source_view st name) with
      | Done c =>
          ∃ hv' hs', loop l ls hv hs = Done (hv', hs')
            ∧ cell_update st (with_store st vcs oss hv' hs') name c
      | Raised c e =>
          ∃ hv' hs', loop l ls hv hs = Raised (hv', hs') e
            ∧ cell_update st (with_store st vcs oss hv' hs') name c
      end.
Proof.
  intros [Hv Hs] Hloop.
  destruct (setdefault_dict name (virtual_configs st) (cfg_heap st))
    as [[vcs hv] l] eqn:Ev.
  destruct (setdefault_dict name (option_sources st) (src_heap st))
    as [[oss hs] ls] eqn:Es.
  exists vcs, oss, l, ls, hv, hs. split_and!; [done..|].
  destruct (setdefault_dict_spec _ _ _ _ _ _ Hv Ev) as (Hl & Hgv & Hupv).
  destruct (setdefault_dict_spec _ _ _ _ _ _ Hs Es) as (Hls & Hgs & Hups).
  rewrite <-(insert_hget l hv), <-(insert_hget ls hs) by done.
  rewrite Hloop by done. rewrite Hgv, Hgs. unfold config_view, source_view.
  assert (∀ c, cell_update st
            (with_store st vcs oss (<[l := c.1]> hv) (<[ls := c.2]> hs))
            name c) as Hcu.
  { intros [vc os]. destruct (Hupv vc) as (?&?&?), (Hups os) as (?&?&?).
    split; try done. }
  destruct (cloop _ _) as [[vc os]|[vc os] e]; simpl;
    eexists _, _; (split; [done|]); apply (Hcu (vc, os)).
Qed.

Lemma setup_cell info name kw st :
  wf_store st →
  match cell_setup info kw (config_view st name) (source_view st name) with
  | Done c =>
      ∃ st', setup info name kw st = Done st' ∧ cell_update st st' name c
  | Raised c e =>
      ∃ st', setup info name kw st = Raised st' e
             ∧ cell_update st st' name c
  end.
Proof.
  intros Hwf.
  destruct (with_store_cell st name (λ l ls, setup_options info l ls kw)
              (cell_setup info kw) Hwf)
    as (vcs & oss & l & ls & hv & hs & Ev & Es & H).
  { intros. by apply setup_options_cell. }
  unfold setup. rewrite Ev, Es.
  destruct (cell_setup _ _ _ _) as [c|c e];
    destruct H as (hv' & hs' & -> & Hcu); eauto.
Qed.

Lemma func_phase_cons name funcs rest st :
  wf_store st →
  match cell_funcs funcs (config_view st name) (source_view st name) with
  | Done c =>
      ∃ st', func_phase ((name, funcs) :: rest) st = func_phase rest st'
             ∧ cell_update st st' name c
  | Raised c e =>
      ∃ st', func_phase ((name, funcs) :: rest) st = Raised st' e
             ∧ cell_update st st' name c
  end.
Proof.
  intros Hwf.
  destruct (with_store_cell st name (λ l ls, func_funcs l ls funcs)
              (cell_funcs funcs) Hwf)
    as (vcs & oss & l & ls & hv & hs & Ev & Es & H).
  { intros. by apply func_funcs_cell. }
  simpl. rewrite Ev, Es.
  destruct (cell_funcs _ _ _) as [c|c e];
    destruct H as (hv' & hs' & -> & Hcu); eauto.
Qed.

(** ** [setup] on one dict pair *)

Lemma cell_setup_done info kw vc os vc' os' :
  cell_setup info kw vc os = Done (vc', os') →
  (∀ k v, vc !! k = Some v → ∃ v', vc' !! k = Some v' ∧ py_eqb v' v = true)
  ∧ (∀ k v, (k, v) ∈ kw → ∃ v', vc' !! k = Some v' ∧ py_eqb v' v = true)
  ∧ (dom vc ⊆ dom os → dom vc' ⊆ dom os').
Proof.
  revert vc os. induction kw as [|[opt val] kw IH]; intros vc os; simpl.
  - intros [= <- <-]. split_and!; [|by intros ?? ?%elem_of_nil|done].
    intros k v ?. exists v. by rewrite py_eqb_refl.
  - destruct (py_eqb (default val (vc !! opt)) val) eqn:E; [|done].
    intros (Hpres & Hsat & Hdom)%IH. split_and!.
    + intros k v Hk. destruct (decide (k = opt)) as [->|Hne].
      * rewrite Hk in E. simpl in E.
        destruct (Hpres opt val) as (v' & ? & ?); [apply lookup_insert_eq|].
        exists v'. split; [done|].
        eapply py_eqb_trans; [done|]. by rewrite py_eqb_sym.
      * apply Hpres. by rewrite lookup_insert_ne.
    + intros k v [[= -> ->]|Hin]%elem_of_cons; [|by apply Hsat].
      apply Hpres, lookup_insert_eq.
    + intros Hd. apply Hdom. rewrite !dom_insert. set_solver.
Qed.

Lemma cell_setup_conflict info kw vc os k v1 v2 :
  (k, v2) ∈ kw → vc !! k = Some v1 → py_eqb v1 v2 = false →
  ∃ c, cell_setup info kw vc os = Raised c (AssertionError "").
Proof.
  revert vc os v1. induction kw as [|[opt val] kw IH]; intros vc os v1.
  { by intros ?%elem_of_nil. }
  intros Hin Hk Hne. simpl.
  destruct (py_eqb (default val (vc !! opt)) val) eqn:E; [|by eexists].
  apply elem_of_cons in Hin as [[= <- <-]|Hin].
  { rewrite Hk in E. simpl in E. congruence. }
  destruct (decide (opt = k)) as [->|Hopt].
  - rewrite Hk in E. simpl in E.
    apply (IH _ _ val); [done|apply lookup_insert_eq|].
    by eapply py_eqb_neq_l.
  - apply (IH _ _ v1); [done| |done]. by rewrite lookup_insert_ne.
Qed.

Lemma cell_setup_agree info kw vc os :
  (∀ k v, (k, v) ∈ kw → ∃ v', vc !! k = Some v' ∧ py_eqb v' v = true) →
  ∃ c, cell_setup info kw vc os = Done c.
Proof.
  revert vc os. induction kw as [|[opt val] kw IH]; intros vc os Hall; simpl.
  { by eexists. }
  destruct (Hall opt val) as (v' & Hv' & Heq); [apply list_elem_of_here|].
  rewrite Hv'. simpl. rewrite Heq. apply IH. intros k v Hin.
  destruct (decide (k = opt)) as [->|Hne].
  - exists val. split; [apply lookup_insert_eq|].
    destruct (Hall opt v) as (v'' & Hv'' & Heq');
      [by apply list_elem_of_further|].
    rewrite Hv' in Hv''. injection Hv'' as <-.
    eapply py_eqb_trans; [|done]. by rewrite py_eqb_sym.
  - rewrite lookup_insert_ne by done.
    by apply Hall, list_elem_of_further.
Qed.

(** ** Functionality claims on one dict pair *)

Lemma cell_options_done func options vc os vc' os' :
  cell_options func options vc os = Done (vc', os') →
  vc ⊆ vc'
  ∧ (∀ k v, (k, v) ∈ options →
       ∃ v', vc' !! k = Some v' ∧ py_eqb v' v = true)
  ∧ (dom vc ⊆ dom os → dom vc' ⊆ dom os').
Proof.
  revert vc os.
  induction options as [|[opt val] options IH]; intros vc os; simpl.
  - intros [= <- <-]. split_and!; [done|by intros ?? ?%elem_of_nil|done].
  - destruct (vc !! opt) as [existing|] eqn:E.
    + destruct (py_eqb existing val) eqn:Heq; [|by destruct (os !! opt)].
      intros (Hsub & Hsat & Hdom)%IH. split_and!; [done| |done].
      intros k v [[= -> ->]|Hin]%elem_of_cons; [|by apply Hsat].
      exists existing. split; [|done]. by eapply lookup_weaken.
    + intros (Hsub & Hsat & Hdom)%IH. split_and!.
      * etrans; [|done]. by apply insert_subseteq.
      * intros k v [[= -> ->]|Hin]%elem_of_cons; [|by apply Hsat].
        exists val. split; [|apply py_eqb_refl].
        eapply lookup_weaken; [|done]. apply lookup_insert_eq.
      * intros Hd. apply Hdom. rewrite !dom_insert. set_solver.
Qed.

Lemma cell_funcs_done funcs vc os vc' os' :
  cell_funcs funcs vc os = Done (vc', os') →
  vc ⊆ vc'
  ∧ (∀ func options k v, (func, options) ∈ funcs → (k, v) ∈ options →
       ∃ v', vc' !! k = Some v' ∧ py_eqb v' v = true)
  ∧ (dom vc ⊆ dom os → dom vc' ⊆ dom os').
Proof.
  revert vc os.
  induction funcs as [|[func options] funcs IH]; intros vc os; simpl.
  - intros [= <- <-]. split_and!; [done|by intros ???? ?%elem_of_nil|done].
  - destruct (cell_options func options vc os) as [[vc1 os1]|] eqn:E; [|done].
    apply cell_options_done in E as (Hsub1 & Hsat1 & Hdom1).
    intros (Hsub & Hsat & Hdom)%IH. split_and!.
    + by etrans.
    + intros f o k v [[= -> ->]|Hin]%elem_of_cons Hk; [|by eapply Hsat].
      destruct (Hsat1 k v Hk) as (v' & Hv' & ?). exists v'.
      split; [|done]. by eapply lookup_weaken.
    + auto.
Qed.

Lemma cell_options_raise func options vc os c e :
  cell_options func options vc os = Raised c e →
  dom vc ⊆ dom os →
  ∃ k v existing_func existing,
    (k, v) ∈ options
    ∧ e = ConfigArbitrateError
            (conflict_message k v func existing_func existing)
    ∧ c.1 !! k = Some existing ∧ c.2 !! k = Some existing_func
    ∧ py_eqb existing v = false.
Proof.
  revert vc os.
  induction options as [|[opt val] options IH]; intros vc os; simpl; [done|].
  destruct (vc !! opt) as [existing|] eqn:E.
  - destruct (py_eqb existing val) eqn:Heq.
    + intros H Hd. destruct (IH _ _ H Hd) as (k & v & ef & ev & ? & ?).
      exists k, v, ef, ev. split; [by apply list_elem_of_further|done].
    + destruct (os !! opt) as [existing_func|] eqn:Es.
      * intros [= <- <-] _. exists opt, val, existing_func, existing.
        split_and!; try done. apply list_elem_of_here.
      * intros _ Hd. apply not_elem_of_dom in Es.
        destruct Es. apply Hd. apply elem_of_dom. by eexists.
  - intros H Hd. destruct (IH _ _ H) as (k & v & ef & ev & ? & ?).
    { rewrite !dom_insert. set_solver. }
    exists k, v, ef, ev. split; [by apply list_elem_of_further|done].
Qed.

Lemma cell_funcs_raise funcs vc os c e :
  cell_funcs funcs vc os = Raised c e →
  dom vc ⊆ dom os →
  ∃ func options k v existing_func existing,
    (func, options) ∈ funcs ∧ (k, v) ∈ options
    ∧ e = ConfigArbitrateError
            (conflict_message k v func existing_func existing)
    ∧ c.1 !! k = Some existing ∧ c.2 !! k = Some existing_func
    ∧ py_eqb existing v = false.
Proof.
  revert vc os.
  induction funcs as [|[func options] funcs IH]; intros vc os; simpl; [done|].
  destruct (cell_options func options vc os) as [[vc1 os1]|c1 e1] eqn:E.
  - intros H Hd. apply cell_options_done in E as (_ & _ & Hdom).
    destruct (IH _ _ H (Hdom Hd)) as (f & o & k & v & ef & ev & ? & ?).
    exists f, o, k, v, ef, ev. split; [by apply list_elem_of_further|done].
  - intros [= <- <-] Hd.
    destruct (cell_options_raise _ _ _ _ _ _ E Hd)
      as (k & v & ef & ev & ? & ?).
    exists func, options, k, v, ef, ev. split; [apply list_elem_of_here|done].
Qed.

Lemma cell_options_fresh func options vc os :
  NoDup (option_keys options) →
  (∀ k, k ∈ option_keys options → vc !! k = None) →
  ∃ vc' os',
    cell_options func options vc os = Done (vc', os')
    ∧ (∀ k, k ∉ option_keys options → vc' !! k = vc !! k)
    ∧ (∀ k v, (k, v) ∈ options → vc' !! k = Some v).
Proof.
  revert vc os.
  induction options as [|[opt val] options IH]; intros vc os; simpl.
  { intros _ _. eexists _, _. split_and!; [done..|].
    by intros ?? ?%elem_of_nil. }
  intros [Hopt Hnd]%NoDup_cons Hfresh.
  rewrite (Hfresh opt) by apply list_elem_of_here.
  destruct (IH (<[opt := val]> vc) (<[opt := func]> os) Hnd)
    as (vc' & os' & -> & Hframe & Hsat).
  { intros k Hk. rewrite lookup_insert_ne by (by intros ->).
    by apply Hfresh, list_elem_of_further. }
  exists vc', os'. split_and!; [done| |].
  - intros k [Hne Hk]%not_elem_of_cons.
    by rewrite Hframe, lookup_insert_ne.
  - intros k v [[= -> ->]|Hin]%elem_of_cons; [|by apply Hsat].
    by rewrite Hframe, lookup_insert_eq.
Qed.

Lemma cell_funcs_fresh funcs vc os :
  NoDup (funcs_keys funcs) →
  (∀ k, k ∈ funcs_keys funcs → vc !! k = None) →
  ∃ vc' os',
    cell_funcs funcs vc os = Done (vc', os')
    ∧ (∀ k, k ∉ funcs_keys funcs → vc' !! k = vc !! k)
    ∧ (∀ func options k v, (func, options) ∈ funcs → (k, v) ∈ options →
         vc' !! k = Some v).
Proof.
  revert vc os.
  induction funcs as [|[func options] funcs IH]; intros vc os.
  { intros _ _. eexists _, _. split_and!; [done..|].
    by intros ???? ?%elem_of_nil. }
  unfold funcs_keys. rewrite bind_cons. fold (funcs_keys funcs).
  intros (Hnd1 & Hdisj & Hnd2)%NoDup_app Hfresh. simpl.
  destruct (cell_options_fresh func options vc os Hnd1)
    as (vc1 & os1 & -> & Hframe1 & Hsat1).
  { intros k Hk. apply Hfresh, elem_of_app. by left. }
  destruct (IH vc1 os1 Hnd2) as (vc' & os' & -> & Hframe & Hsat).
  { intros k Hk. rewrite Hframe1 by (intros ?; by eapply Hdisj).
    apply Hfresh, elem_of_app. by right. }
  exists vc', os'. split_and!; [done| |].
  - intros k [??]%not_elem_of_app. by rewrite Hframe, Hframe1.
  - intros f o k v [[= -> ->]|Hin]%elem_of_cons Hk; [|by eapply Hsat].
    rewrite Hframe; [by apply Hsat1|].
    apply Hdisj. apply list_elem_of_fmap. by exists (k, v).
Qed.

(** ** The invariant is kept *)

Lemma resolved_view st name opt :
  resolved st name opt = config_view st name !! opt.
Proof.
  unfold resolved, config_view, view.
  by destruct (virtual_configs st !! name).
Qed.

Lemma provenance_view st name opt :
  provenance st name opt = source_view st name !! opt.
Proof.
  unfold provenance, source_view, view.
  by destruct (option_sources st !! name).
Qed.

Lemma wf_init : wf __init__.
Proof.
  split; [apply wf_outer_empty..|]. intros name.
  unfold config_view, view. simpl. rewrite lookup_empty. set_solver.
Qed.

Lemma cell_update_wf st st' name c :
  wf st → cell_update st st' name c → dom c.1 ⊆ dom c.2 → wf st'.
Proof.
  intros Hwf [[??] Hc Hs Hcne Hsne _ _ _] Hd. split; [done..|].
  intros n. destruct (decide (n = name)) as [->|Hne].
  - by rewrite Hc, Hs.
  - rewrite Hcne, Hsne by done. apply Hwf.
Qed.

Lemma setup_wf info name kw st st' :
  wf st → setup info name kw st = Done st' → wf st'.
Proof.
  intros Hwf Hsetup.
  pose proof (setup_cell info name kw st (wf_wf_store _ Hwf)) as H.
  destruct (cell_setup _ _ _ _) as [[vc os]|c e] eqn:E;
    destruct H as (st1 & Hst1 & Hcu); [|congruence].
  rewrite Hsetup in Hst1. injection Hst1 as <-.
  eapply cell_update_wf; [done..|].
  apply cell_setup_done in E as (_ & _ & Hdom). apply Hdom, Hwf.
Qed.

Lemma register_wf rs st st' :
  wf st → register rs st = Done st' → wf st'.
Proof.
  revert st. induction rs as [|[info name kw|func name options|
    perf name fallback options] rs IH]; intros st Hwf; simpl.
  - by intros [= <-].
  - destruct (setup info name kw st) as [st1|] eqn:E; [|done].
    apply IH. by eapply setup_wf.
  - apply IH. by destruct Hwf.
  - apply IH. by destruct Hwf.
Qed.

(** ** The functionality phase *)

Lemma func_phase_done claims st st' :
  wf st → func_phase claims st = Done st' →
  wf st'
  ∧ (∀ n, config_view st n ⊆ config_view st' n)
  ∧ (∀ n funcs func options k v,
       (n, funcs) ∈ claims → (func, options) ∈ funcs → (k, v) ∈ options →
       ∃ v', config_view st' n !! k = Some v' ∧ py_eqb v' v = true)
  ∧ func_claims st' = func_claims st
  ∧ perf_claims st' = perf_claims st
  ∧ effects st' = effects st.
Proof.
  revert st. induction claims as [|[name funcs] claims IH]; intros st Hwf.
  { intros [= <-]. split_and!; try done. by intros ?????? ?%elem_of_nil. }
  pose proof (func_phase_cons name funcs claims st (wf_wf_store _ Hwf)) as H.
  destruct (cell_funcs _ _ _) as [[vc os]|c e] eqn:E;
    destruct H as (st1 & -> & Hcu); [|done].
  apply cell_funcs_done in E as (Hsub & Hsat & Hdom).
  assert (wf st1) as Hwf1.
  { eapply cell_update_wf; [done..|]. apply Hdom, Hwf. }
  assert (∀ n, config_view st n ⊆ config_view st1 n) as Hmono1.
  { intros n. destruct (decide (n = name)) as [->|Hne].
    - by rewrite (cu_config _ _ _ _ Hcu).
    - by rewrite (cu_config_ne _ _ _ _ Hcu). }
  intros (Hwf' & Hmono & Hall & Hf & Hp & He)%IH; [|done].
  split_and!; [done| | | | |].
  - intros n. etrans; [apply Hmono1|apply Hmono].
  - intros n fs f o k v [[= -> ->]|Hin]%elem_of_cons Hf' Hk;
      [|by eapply Hall].
    destruct (Hsat f o k v Hf' Hk) as (v' & Hv' & ?). exists v'.
    split; [|done]. eapply lookup_weaken; [|apply Hmono].
    by rewrite (cu_config _ _ _ _ Hcu).
  - by rewrite Hf, (cu_func_claims _ _ _ _ Hcu).
  - by rewrite Hp, (cu_perf_claims _ _ _ _ Hcu).
  - by rewrite He, (cu_effects _ _ _ _ Hcu).
Qed.

Lemma func_phase_raised claims st st' e :
  wf st → func_phase claims st = Raised st' e →
  ∃ n funcs func options k v existing_func existing,
    (n, funcs) ∈ claims ∧ (func, options) ∈ funcs ∧ (k, v) ∈ options
    ∧ e = ConfigArbitrateError
            (conflict_message k v func existing_func existing)
    ∧ resolved st' n k = Some existing
    ∧ provenance st' n k = Some existing_func
    ∧ py_eqb existing v = false.
Proof.
  revert st. induction claims as [|[name funcs] claims IH]; intros st Hwf.
  { done. }
  pose proof (func_phase_cons name funcs claims st (wf_wf_store _ Hwf)) as H.
  destruct (cell_funcs _ _ _) as [[vc os]|c e1] eqn:E;
    destruct H as (st1 & -> & Hcu).
  - apply cell_funcs_done in E as (_ & _ & Hdom).
    intros H. destruct (IH st1) as (n & fs & f & o & k & v & ef & ev & ? & ?);
      [|done|].
    { eapply cell_update_wf; [done..|]. apply Hdom, Hwf. }
    exists n, fs, f, o, k, v, ef, ev.
    split; [by apply list_elem_of_further|done].
  - intros [= <- <-].
    destruct (cell_funcs_raise _ _ _ _ _ E)
      as (f & o & k & v & ef & ev & ? & ? & ? & ? & ? & ?); [apply Hwf|].
    exists name, funcs, f, o, k, v, ef, ev.
    rewrite resolved_view, provenance_view.
    rewrite (cu_config _ _ _ _ Hcu), (cu_source _ _ _ _ Hcu).
    split_and!; try done. apply list_elem_of_here.
Qed.

Lemma func_phase_fresh claims st :
  wf st →
  NoDup (targets claims) →
  (∀ n k, (n, k) ∈ targets claims → config_view st n !! k = None) →
  ∃ st',
    func_phase claims st = Done st'
    ∧ (∀ n funcs func options k v,
         (n, funcs) ∈ claims → (func, options) ∈ funcs → (k, v) ∈ options →
         config_view st' n !! k = Some v)
    ∧ (∀ n k, (n, k) ∉ targets claims →
         config_view st' n !! k = config_view st n !! k).
Proof.
  revert st. induction claims as [|[name funcs] claims IH]; intros st Hwf.
  { intros _ _. exists st. split_and!; try done.
    by intros ?????? ?%elem_of_nil. }
  unfold targets. rewrite bind_cons. fold (targets claims).
  intros (Hnd1 & Hdisj & Hnd2)%NoDup_app Hfresh.
  apply NoDup_fmap in Hnd1; [|by intros ?? [= ->]].
  pose proof (func_phase_cons name funcs claims st (wf_wf_store _ Hwf)) as H.
  destruct (cell_funcs_fresh funcs (config_view st name)
              (source_view st name) Hnd1)
    as (vc & os & E & Hframe1 & Hsat1).
  { intros k Hk. apply Hfresh, elem_of_app. left.
    apply list_elem_of_fmap. by exists k. }
  rewrite E in H. destruct H as (st1 & -> & Hcu).
  assert (∀ n k, (n, k) ∉ (name,.) <$> funcs_keys funcs →
            config_view st1 n !! k = config_view st n !! k) as Hst1.
  { intros n k Hnk. destruct (decide (n = name)) as [->|Hne].
    - rewrite (cu_config _ _ _ _ Hcu). simpl. apply Hframe1.
      intros Hk. apply Hnk. apply list_elem_of_fmap. by exists k.
    - by rewrite (cu_config_ne _ _ _ _ Hcu). }
  destruct (IH st1) as (st' & -> & Hsat & Hframe); [|done| |].
  { eapply cell_update_wf; [done..|].
    apply cell_funcs_done in E as (_ & _ & Hdom). apply Hdom, Hwf. }
  { intros n k Hnk. rewrite Hst1.
    - apply Hfresh, elem_of_app. by right.
    - intros ?. by eapply Hdisj. }
  exists st'. split_and!; [done| |].
  - intros n fs f o k v [[= -> ->]|Hin]%elem_of_cons Hf Hk;
      [|by eapply Hsat].
    rewrite Hframe.
    + rewrite (cu_config _ _ _ _ Hcu). by eapply Hsat1.
    + apply Hdisj. apply list_elem_of_fmap. exists k. split; [done|].
      unfold funcs_keys. apply list_elem_of_bind. exists (f, o).
      split; [|done]. apply list_elem_of_fmap. by exists (k, v).
  - intros n k [??]%not_elem_of_app. by rewrite Hframe, Hst1.
Qed.

(** ** Registration *)

Lemma setdefault_append_targets name func options claims :
  targets (setdefault_append name (func, options) claims)
  ≡ₚ targets claims ++ ((name,.) <$> option_keys options).
Proof.
  induction claims as [|[n funcs] claims IH]; cbn [setdefault_append].
  - simpl. by rewrite !(right_id_L [] (++)).
  - case_decide as Hn; subst; unfold targets; rewrite !bind_cons;
      fold (targets claims).
    + unfold funcs_keys. rewrite bind_app, bind_singleton, fmap_app.
      rewrite <-!(assoc_L (++)). f_equiv. apply Permutation_app_comm.
    + fold (targets (setdefault_append name (func, options) claims)).
      rewrite IH. by rewrite (assoc_L (++)).
Qed.

Lemma setdefault_append_new {A} name (x : A) claims :
  ∃ xs, (name, xs) ∈ setdefault_append name x claims ∧ x ∈ xs.
Proof.
  induction claims as [|[n xs] claims (xs' & ? & ?)]; simpl.
  - exists [x]. split; apply list_elem_of_here.
  - case_decide; subst.
    + exists (xs ++ [x]). split; [apply list_elem_of_here|].
      apply elem_of_app. right. apply list_elem_of_here.
    + exists xs'. split; [by apply list_elem_of_further|done].
Qed.

Lemma setdefault_append_old {A} name (x : A) claims n xs y :
  (n, xs) ∈ claims → y ∈ xs →
  ∃ xs', (n, xs') ∈ setdefault_append name x claims ∧ y ∈ xs'.
Proof.
  induction claims as [|[n' xs0] claims IH]; simpl.
  { by intros ?%elem_of_nil. }
  intros [[= -> ->]|Hin]%elem_of_cons Hy.
  - case_decide; subst.
    + exists (xs0 ++ [x]). split; [apply list_elem_of_here|].
      apply elem_of_app. by left.
    + exists xs0. split; [apply list_elem_of_here|done].
  - case_decide; subst.
    + exists xs. split; [by apply list_elem_of_further|done].
    + destruct (IH Hin Hy) as (xs' & ? & ?).
      exists xs'. split; [by apply list_elem_of_further|done].
Qed.

Lemma register_claim_funcs calls st :
  ∃ st',
    register (claim_funcs calls) st = Done st'
    ∧ virtual_configs st' = virtual_configs st
    ∧ option_sources st' = option_sources st
    ∧ cfg_heap st' = cfg_heap st
    ∧ src_heap st' = src_heap st
    ∧ perf_claims st' = perf_claims st
    ∧ targets (func_claims st') ≡ₚ targets (func_claims st)
                                    ++ call_targets calls
    ∧ (∀ func name options, registered st func name options →
         registered st' func name options)
    ∧ (∀ func name options, (func, name, options) ∈ calls →
         registered st' func name options).
Proof.
  revert st. induction calls as [|[[func name] options] calls IH]; intros st.
  { exists st. split_and!; try done.
    - unfold call_targets. simpl. by rewrite (right_id_L [] (++)).
    - by intros ??? ?%elem_of_nil. }
  change (claim_funcs ((func, name, options) :: calls))
    with (ClaimFunc func name options :: claim_funcs calls).
  cbn [register].
  destruct (IH (claim_func func name options st))
    as (st' & -> & ? & ? & ? & ? & ? & Ht & Hold & Hnew).
  exists st'. split_and!; try done.
  - rewrite Ht. cbn [claim_func func_claims].
    rewrite setdefault_append_targets.
    unfold call_targets. rewrite bind_cons. by rewrite (assoc_L (++)).
  - intros f n o (funcs & ? & ?). apply Hold.
    by eapply setdefault_append_old.
  - intros f n o [[= -> -> ->]|Hin]%elem_of_cons; [|by apply Hnew].
    apply Hold. apply setdefault_append_new.
Qed.

(** ** Writing the working configuration onto the live objects *)

Lemma apply_virtual_union virtual_config config :
  apply_virtual virtual_config config = virtual_config ∪ config.
Proof.
  unfold apply_virtual.
  apply (map_fold_weak_ind (λ r m, r = m ∪ config)).
  - by rewrite (left_id_L ∅ (∪)).
  - intros k v m r _ ->. by rewrite insert_union_l.
Qed.

Lemma apply_configs_assigned st configs :
  apply_configs st configs = assigned st configs.
Proof.
  unfold apply_configs, assigned. apply list_fmap_ext.
  intros _ [name config] _. unfold config_view, view.
  destruct (virtual_configs st !! name).
  - by rewrite apply_virtual_union.
  - by rewrite (left_id_L ∅ (∪)).
Qed.

(** ** Two claims on one option *)

Lemma cell_two_claims func1 func2 k v1 v2 :
  cell_funcs [(func1, [(k, v1)]); (func2, [(k, v2)])] ∅ ∅
  = if py_eqb v1 v2 then Done (<[k := v1]> ∅, <[k := func1]> ∅)
    else Raised (<[k := v1]> ∅, <[k := func1]> ∅)
           (ConfigArbitrateError (conflict_message k v2 func2 func1 v1)).
Proof.
  simpl. rewrite lookup_empty. simpl. rewrite !lookup_insert_eq.
  by destruct (py_eqb v1 v2).
Qed.

Lemma arbitrate_two_claims name func1 func2 k v1 v2 :
  let st := claim_func func2 name [(k, v2)]
              (claim_func func1 name [(k, v1)] __init__) in
  if py_eqb v1 v2 then
    ∃ st', _arbitrate st = Done st' ∧ resolved st' name k = Some v1
  else
    ∃ st', _arbitrate st
           = Raised st'
               (ConfigArbitrateError (conflict_message k v2 func2 func1 v1)).
Proof.
  intros st.
  assert (func_claims st = [(name, [(func1, [(k, v1)]); (func2, [(k, v2)])])])
    as Hclaims.
  { subst st. simpl. by rewrite decide_True. }
  assert (wf st) as Hwf by (by destruct wf_init).
  pose proof (func_phase_cons name [(func1, [(k, v1)]); (func2, [(k, v2)])]
                [] st (wf_wf_store _ Hwf)) as H.
  replace (config_view st name) with (∅ : gmap string value) in H by done.
  replace (source_view st name) with (∅ : gmap string string) in H by done.
  rewrite cell_two_claims in H. unfold _arbitrate. rewrite Hclaims.
  destruct (py_eqb v1 v2); destruct H as (st' & -> & Hcu); simpl.
  - rewrite (cu_perf_claims _ _ _ _ Hcu). simpl. exists st'.
    split; [done|]. rewrite resolved_view, (cu_config _ _ _ _ Hcu).
    apply lookup_insert_eq.
  - by exists st'.
Qed.

(** C1 (as amended).  Two functionality claims that give one option of one
    config different values make arbitration raise [ConfigArbitrateError],
    with the message naming the claiming functionality and the recorded
    source of the value already there: for two claims alone, in either
    order of registration, these are the later and the earlier claimant;
    among any registrations, they are a registered claimant and the source
    recorded for that option.  Two claims that agree are accepted and the
    value stays. *)
Theorem conflicting_func_claims name k func1 v1 func2 v2 configs :
  let two fa va fb vb :=
    claim_func fb name [(k, vb)] (claim_func fa name [(k, va)] __init__) in
  (py_eqb v1 v2 = false →
     (∃ st', __call__ (two func1 v1 func2 v2) configs
             = Raised (st', configs)
                 (ConfigArbitrateError
                    (conflict_message k v2 func2 func1 v1)))
     ∧ (∃ st', __call__ (two func2 v2 func1 v1) configs
               = Raised (st', configs)
                   (ConfigArbitrateError
                      (conflict_message k v1 func1 func2 v2)))
     ∧ ∀ rs st options1 options2,
         register rs __init__ = Done st →
         registered st func1 name options1 →
         registered st func2 name options2 →
         (k, v1) ∈ options1 → (k, v2) ∈ options2 →
         ∃ st' n func options opt val existing_func existing,
           __call__ st configs
           = Raised (st', configs)
               (ConfigArbitrateError
                  (conflict_message opt val func existing_func existing))
           ∧ registered st func n options ∧ (opt, val) ∈ options
           ∧ provenance st' n opt = Some existing_func
           ∧ resolved st' n opt = Some existing
           ∧ py_eqb existing val = false)
  ∧ (py_eqb v1 v2 = true →
     ∃ st', __call__ (two func1 v1 func2 v2) configs
            = Done (st', assigned st' configs)
            ∧ resolved st' name k = Some v1).
Proof.
  intros two. split.
  - intros Hne. split_and!.
    + pose proof (arbitrate_two_claims name func1 func2 k v1 v2) as H.
      simpl in H. rewrite Hne in H. destruct H as (st' & H).
      exists st'. unfold __call__, two. by rewrite H.
    + pose proof (arbitrate_two_claims name func2 func1 k v2 v1) as H.
      simpl in H. rewrite py_eqb_sym, Hne in H. destruct H as (st' & H).
      exists st'. unfold __call__, two. by rewrite H.
    + intros rs st options1 options2 Hreg (fs1 & Hfs1 & Hf1)
        (fs2 & Hfs2 & Hf2) Hk1 Hk2.
      assert (wf st) as Hwf by (eapply register_wf; [apply wf_init|done]).
      unfold __call__, _arbitrate.
      destruct (func_phase (func_claims st) st) as [st'|st' e] eqn:E.
      * apply func_phase_done in E as (_ & _ & Hsat & _); [|done].
        destruct (Hsat _ _ _ _ _ _ Hfs1 Hf1 Hk1) as (w1 & Hw1 & Heq1).
        destruct (Hsat _ _ _ _ _ _ Hfs2 Hf2 Hk2) as (w2 & Hw2 & Heq2).
        rewrite Hw1 in Hw2. injection Hw2 as <-.
        rewrite py_eqb_sym in Heq1.
        by rewrite (py_eqb_trans _ _ _ Heq1 Heq2) in Hne.
      * apply func_phase_raised in E
          as (n & fs & f & o & opt & val & ef & ev & ? & ? & ? & -> & ?);
          [|done].
        exists st', n, f, o, opt, val, ef, ev. split_and!; try tauto.
        by exists fs.
  - intros Heq.
    pose proof (arbitrate_two_claims name func1 func2 k v1 v2) as H.
    simpl in H. rewrite Heq in H. destruct H as (st' & H & Hres).
    exists st'. unfold __call__, two. rewrite H.
    by rewrite apply_configs_assigned.
Qed.

(** C1, at two claims from the module: [enable_block_reuse] wants
    [use_paged_context_fmha] on, [fp8_quant] wants it off. *)
Lemma conflicting_func_claims_witness :
  py_eqb (VBool true) (VBool false) = false
  ∧ ∃ st',
      __call__ (claim_func "fp8_quant" "plugin_config"
              [("use_paged_context_fmha", VBool false)]
              (claim_func "enable_block_reuse" "plugin_config"
                 [("use_paged_context_fmha", VBool true)] __init__))
        [("plugin_config", ∅)]
      = Raised (st', [("plugin_config", ∅)])
          (ConfigArbitrateError
             "Cannot set 'use_paged_context_fmha' to be 'False' when enabling 'fp8_quant', since 'enable_block_reuse' has set it to be 'True'.").
Proof.
  split; [reflexivity|].
  exact (proj1 (proj1 (conflicting_func_claims "plugin_config"
    "use_paged_context_fmha" "enable_block_reuse" (VBool true)
    "fp8_quant" (VBool false) [("plugin_config", ∅)]) eq_refl)).
Defined.

(** C1 as stated fails on the name of the exception: the class raised is
    [ConfigArbitrateError]. *)
Lemma conflict_error_class_counterexample :
  ∃ e,
    raised (__call__ (claim_func "fp8_quant" "plugin_config"
                    [("use_paged_context_fmha", VBool false)]
                    (claim_func "enable_block_reuse" "plugin_config"
                       [("use_paged_context_fmha", VBool true)] __init__))
              [("plugin_config", ∅)])
    = Some e
    ∧ class_name e = "ConfigArbitrateError"
    ∧ class_name e ≠ "ConfigConflictError".
Proof. eexists. split; [reflexivity|]. by split. Qed.

(** ** Claims that do not overlap *)

(** C8.  Functionality claims registered on a new arbitrator, no two of
    them on the same option of the same config, are all accepted: the
    call returns normally, every claimed option has exactly the claimed
    value in the working configuration, and each live object passed under
    a config name has that value assigned to the attribute of that name,
    its attributes that are no option of the working configuration being
    left as they were. *)
Theorem disjoint_func_claims_resolved calls configs :
  NoDup (call_targets calls) →
  ∃ st st',
    register (claim_funcs calls) __init__ = Done st
    ∧ __call__ st configs = Done (st', assigned st' configs)
    ∧ (∀ func name options k v,
         (func, name, options) ∈ calls → (k, v) ∈ options →
         resolved st' name k = Some v
         ∧ ∀ i config, configs !! i = Some (name, config) →
             ∃ config', assigned st' configs !! i = Some (name, config')
                        ∧ config' !! k = Some v)
    ∧ (∀ i name config k,
         configs !! i = Some (name, config) → resolved st' name k = None →
         ∃ config', assigned st' configs !! i = Some (name, config')
                    ∧ config' !! k = config !! k).
Proof.
  intros Hnd.
  destruct (register_claim_funcs calls __init__)
    as (st & Hreg & Hv & _ & Hh & _ & Hp & Ht & _ & Hnew).
  assert (wf st) as Hwf by (eapply register_wf; [apply wf_init|done]).
  simpl in Ht.
  destruct (func_phase_fresh (func_claims st) st Hwf)
    as (st' & Hphase & Hsat & _).
  { by rewrite Ht. }
  { intros n k _. unfold config_view, view. rewrite Hv. simpl.
    by rewrite lookup_empty. }
  assert (perf_claims st' = []) as Hperf.
  { apply func_phase_done in Hphase as (_ & _ & _ & _ & -> & _); done. }
  assert (∀ i name config, configs !! i = Some (name, config) →
            assigned st' configs !! i
            = Some (name, config_view st' name ∪ config)) as Hassigned.
  { intros i name config Hi. unfold assigned.
    by rewrite list_lookup_fmap, Hi. }
  exists st, st'. split_and!; [done| | |].
  - unfold __call__, _arbitrate. rewrite Hphase, Hperf. simpl.
    by rewrite apply_configs_assigned.
  - intros func name options k v Hcall Hk.
    destruct (Hnew _ _ _ Hcall) as (funcs & Hfuncs & Hfunc).
    pose proof (Hsat _ _ _ _ _ _ Hfuncs Hfunc Hk) as Hres.
    split; [by rewrite resolved_view|].
    intros i config Hi. eexists. split; [by apply Hassigned|].
    by apply lookup_union_Some_l.
  - intros i name config k Hi Hnone. eexists.
    split; [by apply Hassigned|].
    rewrite resolved_view in Hnone. by rewrite lookup_union_r.
Qed.

(** C8, at the two claims streaming LLM makes. *)
Lemma disjoint_func_claims_resolved_witness :
  let calls :=
    [("streamingllm", "plugin_config",
      [("streamingllm", VBool true);
       ("use_paged_context_fmha", VBool false)]);
     ("streamingllm", "kv_cache_config",
      [("enable_block_reuse", VBool false)])] in
  let configs :=
    [("plugin_config", {["use_paged_context_fmha" := VBool true]});
     ("kv_cache_config", ∅)] in
  NoDup (call_targets calls)
  ∧ ∃ st st',
      register (claim_funcs calls) __init__ = Done st
      ∧ __call__ st configs = Done (st', assigned st' configs)
      ∧ (∀ func name options k v,
           (func, name, options) ∈ calls → (k, v) ∈ options →
           resolved st' name k = Some v
           ∧ ∀ i config, configs !! i = Some (name, config) →
               ∃ config', assigned st' configs !! i = Some (name, config')
                          ∧ config' !! k = Some v)
      ∧ (∀ i name config k,
           configs !! i = Some (name, config) →
           resolved st' name k = None →
           ∃ config', assigned st' configs !! i = Some (name, config')
                      ∧ config' !! k = config !! k).
Proof.
  intros calls configs.
  assert (NoDup (call_targets calls)) as Hnd.
  { refine (bool_decide_unpack _ _). vm_compute. exact I. }
  split; [exact Hnd|].
  exact (disjoint_func_claims_resolved calls configs Hnd).
Defined.

(** ** Baselines *)

(** C7 (as amended).  On an arbitrator reached by registrations, after a
    [setup] that went through, a further [setup] on the same config that
    gives one of its options another value fails the assertion of
    [setup], that is, raises [AssertionError]; a further [setup] that
    repeats options of the first with their values returns normally and
    the options keep these values. *)
Theorem setup_twice rs st info1 info2 name kw1 st1 :
  register rs __init__ = Done st →
  setup info1 name kw1 st = Done st1 →
  (∀ kw2 k v1 v2,
     (k, v1) ∈ kw1 → (k, v2) ∈ kw2 → py_eqb v1 v2 = false →
     ∃ st2 e, setup info2 name kw2 st1 = Raised st2 e
              ∧ e = AssertionError "" ∧ class_name e = "AssertionError")
  ∧ (∀ kw2,
       kw2 ⊆ kw1 →
       ∃ st2, setup info2 name kw2 st1 = Done st2
              ∧ ∀ k v, (k, v) ∈ kw2 →
                  ∃ v', resolved st2 name k = Some v'
                        ∧ py_eqb v' v = true).
Proof.
  intros Hreg Hsetup.
  assert (wf st) as Hwf by (eapply register_wf; [apply wf_init|done]).
  assert (wf st1) as Hwf1 by (by eapply setup_wf).
  pose proof (setup_cell info1 name kw1 st (wf_wf_store _ Hwf)) as H1.
  destruct (cell_setup _ _ _ _) as [[vc os]|c e] eqn:E1;
    destruct H1 as (st1' & Hst1 & Hcu1); [|congruence].
  rewrite Hsetup in Hst1. injection Hst1 as <-.
  apply cell_setup_done in E1 as (_ & Hsat1 & _).
  split.
  - intros kw2 k v1 v2 Hk1 Hk2 Hne.
    destruct (Hsat1 k v1 Hk1) as (w & Hw & Hweq).
    pose proof (setup_cell info2 name kw2 st1 (wf_wf_store _ Hwf1)) as H2.
    assert (∃ c, cell_setup info2 kw2 (config_view st1 name)
                   (source_view st1 name) = Raised c (AssertionError ""))
      as (c & Hc).
    { apply (cell_setup_conflict _ _ _ _ k w v2); [done| |].
      - by rewrite (cu_config _ _ _ _ Hcu1).
      - rewrite py_eqb_sym in Hweq. by eapply py_eqb_neq_l. }
    rewrite Hc in H2. destruct H2 as (st2 & -> & _).
    by exists st2, (AssertionError "").
  - intros kw2 Hsub.
    pose proof (setup_cell info2 name kw2 st1 (wf_wf_store _ Hwf1)) as H2.
    assert (∃ c, cell_setup info2 kw2 (config_view st1 name)
                   (source_view st1 name) = Done c) as ([vc2 os2] & Hc).
    { apply cell_setup_agree. intros k v Hk.
      rewrite (cu_config _ _ _ _ Hcu1). by apply Hsat1, Hsub. }
    rewrite Hc in H2. destruct H2 as (st2 & -> & Hcu2). exists st2.
    split; [done|]. intros k v Hk.
    apply cell_setup_done in Hc as (_ & Hsat2 & _).
    rewrite resolved_view, (cu_config _ _ _ _ Hcu2). by apply Hsat2.
Qed.

(** C7, at the baseline of a GPU older than Ampere. *)
Lemma setup_twice_witness :
  let kw := [("use_paged_context_fmha", VBool false)] in
  let st1 := final_state (setup "pre-ampere not supported" "plugin_config"
                            kw __init__) in
  register [] __init__ = Done __init__
  ∧ setup "pre-ampere not supported" "plugin_config" kw __init__ = Done st1
  ∧ (∃ st2 e, setup "PluginConfig is readonly" "plugin_config"
                [("use_paged_context_fmha", VBool true)] st1
              = Raised st2 e
              ∧ e = AssertionError "" ∧ class_name e = "AssertionError")
  ∧ (∃ st2, setup "PluginConfig is readonly" "plugin_config" kw st1
            = Done st2
            ∧ ∀ k v, (k, v) ∈ kw →
                ∃ v', resolved st2 "plugin_config" k = Some v'
                      ∧ py_eqb v' v = true).
Proof.
  intros kw st1.
  assert (register [] __init__ = Done __init__) as Hreg by reflexivity.
  assert (setup "pre-ampere not supported" "plugin_config" kw __init__
          = Done st1) as Hsetup by reflexivity.
  pose proof (setup_twice [] __init__ "pre-ampere not supported"
                "PluginConfig is readonly" "plugin_config" kw st1
                Hreg Hsetup) as [Hdiff Hsame].
  split_and!; [exact Hreg|exact Hsetup| |].
  - apply (Hdiff _ "use_paged_context_fmha" (VBool false) (VBool true)).
    + apply list_elem_of_here.
    + apply list_elem_of_here.
    + reflexivity.
  - apply Hsame. intros x Hx. exact Hx.
Defined.

(** C7 as stated fails on the exception: a baseline that disagrees with an
    earlier one trips the [assert] of [setup]; the error is an
    [AssertionError], not an [InconsistentBaselineError]. *)
Lemma inconsistent_baseline_counterexample :
  ∃ st1 e,
    setup "pre-ampere not supported" "plugin_config"
      [("use_paged_context_fmha", VBool false)] __init__ = Done st1
    ∧ raised (setup "PluginConfig is readonly" "plugin_config"
                [("use_paged_context_fmha", VBool true)] st1) = Some e
    ∧ class_name e = "AssertionError"
    ∧ class_name e ≠ "InconsistentBaselineError".
Proof. eexists _, _. split_and!; [reflexivity|reflexivity|done|done]. Qed.

(** ** A dropped performance claim *)

(** C2 fails on the code.  The performance claim conflicts on its second
    option and is dropped: the conflict is logged, the fallback is called
    once and the outer dicts are not replaced.  Its first option has been
    written all the same, through the inner dict the copy shares with
    [virtual_configs]: the working configuration after the claim is not the
    one before it, and the option reaches the live object. *)
Theorem dropped_perf_claim_leaves_option :
  ∃ before after,
    func_phase (func_claims partial_claim) partial_claim = Done before
    ∧ __call__ partial_claim [("plugin_config", ∅)]
      = Done (after, [("plugin_config",
                       {["context_fmha" := VBool true;
                         "use_paged_context_fmha" := VBool false]})])
    ∧ resolved before "plugin_config" "context_fmha" = None
    ∧ resolved after "plugin_config" "context_fmha" = Some (VBool true)
    ∧ provenance after "plugin_config" "context_fmha"
      = Some "chunked_context"
    ∧ resolved after "plugin_config" "use_paged_context_fmha"
      = Some (VBool false)
    ∧ virtual_configs after = virtual_configs before
    ∧ effects after
      = [LogWarning (ignore_message "chunked_context"
                       "use_paged_context_fmha");
         CallFallback "fallback"].
Proof. eexists _, _. split_and!; reflexivity. Qed.

End ArbitratorFacts.

(** * Facts about the inference of the model format *)

Module ModelFormatFacts.
Import ModelFormat.

Lemma both_in_dict k1 k2 items :
  both_in k1 k2 (JDict items)
  = Some (bool_decide (k1 ∈ items.*1 ∧ k2 ∈ items.*1)).
Proof.
  unfold both_in. simpl. repeat case_bool_decide; simpl; try done; tauto.
Qed.

(** C5.  Without [config.json] the call raises [ValueError].  With a
    [config.json] that holds an object, the format is the one the keys of
    the object stand for ([classify]: engine when [pretrained_config] and
    [build_config] are both there, else checkpoint when [architecture] and
    [dtype] both are, else HF), provided the loader of that very format
    accepts the directory: [EngineConfig.from_json_file] for an engine,
    [PretrainedConfig.from_checkpoint] for a checkpoint,
    [AutoConfig.from_hugging_face] for HF.  When that loader raises, the
    call raises [ValueError], whatever the other two loaders would do.  A
    [config.json] that cannot be read or decoded makes the call raise what
    reading it raised. *)
Theorem get_model_format_classifies model_dir ld items :
  get_model_format model_dir Missing ld
  = Raise (ValueError (missing_message model_dir))
  ∧ get_model_format model_dir (Loaded (JDict items)) ld
    = match classify items.*1 with
      | TLLM_ENGINE =>
          match engine_config_from_json_file ld with
          | None => Return TLLM_ENGINE
          | Some e =>
              Raise (ValueError (load_failure_message TLLM_ENGINE e))
          end
      | TLLM_CKPT =>
          match pretrained_config_from_checkpoint ld with
          | None => Return TLLM_CKPT
          | Some e => Raise (ValueError (load_failure_message TLLM_CKPT e))
          end
      | HF =>
          match auto_config_from_hugging_face ld with
          | None => Return HF
          | Some e => Raise (ValueError (load_failure_message HF e))
          end
      end
  ∧ ∀ e, get_model_format model_dir (Undecodable e) ld = Raise e.
Proof.
  split_and!; [done| |done].
  unfold get_model_format, classify. rewrite !both_in_dict.
  by repeat case_bool_decide.
Qed.

End ModelFormatFacts.

(** * Facts about the build pipeline *)

Module PipelineFacts.
Import Pipeline.

Section pipeline.
Context {W : Type}.
Variable clock : W → Z.
Variable release_gc : W → W.

Lemma steps_done_0 i : steps_done i 0 = [].
Proof. done. Qed.

Lemma steps_done_S i k :
  steps_done i (S k) = [StepRun i; GcReleased] ++ steps_done (S i) k.
Proof. done. Qed.

Lemma step_forward_times_spec n (p : pipeline W) :
  length (labels p) = length (step_handlers p) →
  counter p + n ≤ length (labels p) →
  match step_forward_times clock release_gc n p with
  | Done p' =>
      trace p' = trace p ++ steps_done (counter p) n
      ∧ (∃ latencies,
           length latencies = n
           ∧ build_steps_info p'
             = build_steps_info p
               ++ zip (take n (drop (counter p) (labels p))) latencies)
      ∧ counter p' = counter p + n
  | Raised p' e =>
      ∃ k run w,
        k < n
        ∧ step_handlers p !! (counter p + k) = Some run
        ∧ run w = Raised (world p') e
        ∧ trace p'
          = trace p ++ steps_done (counter p) k ++ [StepRun (counter p + k)]
        ∧ (∃ latencies,
             length latencies = k
             ∧ build_steps_info p'
               = build_steps_info p
                 ++ zip (take k (drop (counter p) (labels p))) latencies)
        ∧ counter p' = counter p + k
  end.
Proof.
  revert p. induction n as [|n IH]; intros p Hlen Hn; simpl.
  { split_and!; [by rewrite steps_done_0, (right_id_L [] (++))| |lia].
    exists []. by rewrite (right_id_L [] (++)). }
  unfold step_forward.
  destruct (lookup_lt_is_Some_2 (labels p) (counter p)) as [label Hlabel];
    [lia|].
  destruct (lookup_lt_is_Some_2 (step_handlers p) (counter p))
    as [run Hrun]; [lia|].
  rewrite Hlabel. cbv beta iota zeta. rewrite Hrun.
  assert (drop (counter p) (labels p)
          = label :: drop (S (counter p)) (labels p)) as Hdrop.
  { by apply drop_S. }
  destruct (run (world p)) as [w|w e] eqn:Erun.
  - set (p1 := Pipeline_ _ _ _ _ _ _).
    specialize (IH p1 Hlen). simpl in IH.
    destruct (step_forward_times clock release_gc n p1) as [p'|p' e].
    + destruct IH as (Ht & (lat & Hl & Hs) & Hc); [lia|]. split_and!.
      * rewrite Ht, steps_done_S. by rewrite <-!(assoc_L (++)).
      * exists ((clock (release_gc w) - clock (world p))%Z :: lat).
        split; [simpl; lia|]. rewrite Hs, Hdrop. simpl.
        by rewrite <-(assoc_L (++)).
      * lia.
    + destruct IH as (k & run' & w' & Hk & Hrun' & Hr & Ht & (lat & Hl & Hs)
                      & Hc); [lia|].
      exists (S k), run', w'. split_and!; [lia| |done| | |lia].
      * by replace (counter p + S k) with (S (counter p) + k) by lia.
      * rewrite Ht, steps_done_S.
        replace (counter p + S k) with (S (counter p) + k) by lia.
        by rewrite <-!(assoc_L (++)).
      * exists ((clock (release_gc w) - clock (world p))%Z :: lat).
        split; [simpl; lia|]. rewrite Hs, Hdrop. simpl.
        by rewrite <-(assoc_L (++)).
  - exists 0, run, (world p). rewrite Nat.add_0_r.
    split_and!; [lia|done|done|done| |done].
    exists []. simpl. by rewrite (right_id_L [] (++)).
Qed.
End pipeline.

End PipelineFacts.

(** * Facts about the key of the engine cache *)

Module CacheKeyFacts.
Import CacheKey.

(** ** The order on keys *)

Lemma ascii_compare_refl c : Ascii.compare c c = Eq.
Proof. unfold Ascii.compare. apply N.compare_refl. Qed.

Lemma ascii_compare_lt_trans x y z :
  Ascii.compare x y = Lt → Ascii.compare y z = Lt → Ascii.compare x z = Lt.
Proof.
  unfold Ascii.compare. rewrite !N.compare_lt_iff. apply N.lt_trans.
Qed.

Lemma string_compare_trans a b c :
  String.compare a b ≠ Gt → String.compare b c ≠ Gt →
  String.compare a c ≠ Gt.
Proof.
  revert b c. induction a as [|x a IH]; intros [|y b] [|z c]; simpl;
    try done.
  destruct (Ascii.compare x y) eqn:Exy; [| |done];
    destruct (Ascii.compare y z) eqn:Eyz; try done.
  - apply Ascii.compare_eq_iff in Exy as ->.
    apply Ascii.compare_eq_iff in Eyz as ->.
    rewrite ascii_compare_refl. apply IH.
  - apply Ascii.compare_eq_iff in Exy as ->. by rewrite Eyz.
  - apply Ascii.compare_eq_iff in Eyz as <-. by rewrite Exy.
  - by rewrite (ascii_compare_lt_trans x y z).
Qed.

Lemma string_leb_trans a b c :
  String.leb a b = true → String.leb b c = true → String.leb a c = true.
Proof.
  unfold String.leb. intros Hab Hbc.
  pose proof (string_compare_trans a b c) as H.
  destruct (String.compare a b), (String.compare b c),
    (String.compare a c); try done; by destruct H.
Qed.

Lemma key_le_trans : Transitive key_le.
Proof. intros p q r. apply string_leb_trans. Qed.

Lemma key_le_total : Total key_le.
Proof. intros p q. apply String.leb_total. Qed.

(** ** Sorting does not depend on the order of the items *)

Lemma sorted_unique_keys (l1 l2 : list (string * string)) :
  StronglySorted key_le l1 → StronglySorted key_le l2 →
  l1 ≡ₚ l2 → NoDup l1.*1 → l1 = l2.
Proof.
  revert l2. induction l1 as [|a l1 IH]; intros l2 Hs1 Hs2 Hp Hnd.
  { by apply Permutation_nil_l in Hp. }
  destruct l2 as [|b l2]; [by apply Permutation_nil_r in Hp|].
  apply StronglySorted_inv in Hs1 as [Hs1 Ha].
  apply StronglySorted_inv in Hs2 as [Hs2 Hb].
  apply NoDup_cons in Hnd as [Hnotin Hnd].
  assert (a = b) as ->.
  { destruct (decide (a = b)) as [|Hne]; [done|].
    assert (a ∈ l2) as Hin2.
    { assert (a ∈ b :: l2) as [?|?]%elem_of_cons; [|done..].
      rewrite <-Hp. apply list_elem_of_here. }
    assert (b ∈ l1) as Hin1.
    { assert (b ∈ a :: l1) as [?|?]%elem_of_cons; [|done..].
      rewrite Hp. apply list_elem_of_here. }
    rewrite Forall_forall in Ha, Hb.
    pose proof (String.leb_antisym _ _ (Ha _ Hin1) (Hb _ Hin2)) as Hkey.
    destruct Hnotin. rewrite Hkey. by apply list_elem_of_fmap_2. }
  f_equal. apply IH; [done..| |done]. by eapply Permutation_cons_inv.
Qed.

Lemma sort_items_perm l1 l2 :
  l1 ≡ₚ l2 → NoDup l1.*1 → sort_items l1 = sort_items l2.
Proof.
  intros Hp Hnd. unfold sort_items. apply sorted_unique_keys.
  - apply StronglySorted_merge_sort; [apply key_le_trans|apply key_le_total].
  - apply StronglySorted_merge_sort; [apply key_le_trans|apply key_le_total].
  - by rewrite !merge_sort_Permutation.
  - by rewrite merge_sort_Permutation.
Qed.

(** ** Serialization *)

Lemma json_nested_ind (P : json → Prop) :
  P JNull → (∀ b, P (JBool b)) → (∀ z, P (JInt z)) →
  (∀ r, P (JFloat r)) → (∀ s, P (JStr s)) →
  (∀ items, Forall P items → P (JList items)) →
  (∀ items, Forall (λ p, P p.2) items → P (JDict items)) →
  ∀ j, P j.
Proof.
  intros Hnull Hbool Hint Hfloat Hstr Hlist Hdict.
  fix IH 1.
  intros [|b|z|r|s|items|items];
    [apply Hnull|apply Hbool|apply Hint|apply Hfloat|apply Hstr| |].
  - apply Hlist. induction items as [|j items IHitems]; constructor.
    + apply IH.
    + apply IHitems.
  - apply Hdict. induction items as [|[k j] items IHitems]; constructor.
    + apply IH.
    + apply IHitems.
Qed.

Lemma fmap_related {A B} (P : A → Prop) (R : A → A → Prop) (f : A → B)
    l1 l2 :
  (∀ x y, P x → R x y → f x = f y) →
  Forall P l1 → Forall2 R l1 l2 → f <$> l1 = f <$> l2.
Proof.
  intros Hf HP HR. induction HR as [|x y l1 l2 Hxy HR IH]; [done|].
  apply Forall_cons in HP as [Hx HP]. simpl. f_equal; auto.
Qed.

Section serialize.
Variable encode_basestring : string → string.

Lemma dumps_same_content a b :
  same_content a b →
  dumps encode_basestring a = dumps encode_basestring b.
Proof.
  revert b. induction a as [|b0|z|r|s|items IH|items IH]
    using json_nested_ind; intros b Hab;
    inversion Hab as [| | | | |l1 l2 Hl|d1 d d2 Hnd Hd Hp]; subst; try done.
  - simpl. do 3 f_equal.
    eapply fmap_related; [|exact IH|exact Hl]. simpl. auto.
  - simpl. do 4 f_equal.
    assert (prod_map id (dumps encode_basestring) <$> items
            = prod_map id (dumps encode_basestring) <$> d) as Heq.
    { eapply fmap_related; [|exact IH|exact Hd].
      intros [k v] [k' v'] Hv [Hk Hvv]. simpl in *. subst.
      unfold prod_map. simpl. f_equal. auto. }
    rewrite Heq. apply sort_items_perm; [by rewrite Hp|].
    rewrite <-Heq, <-list_fmap_compose. done.
Qed.
End serialize.

(** C4.  The stage of the engine cache, and with it the fingerprint, is
    the same for two readings of the same inputs: the same model
    directory, flags and configurations, the items of every dict of a
    configuration coming in any order.  The key is computed from the
    contents of its inputs alone, whatever the encoder of strings and the
    hash are. *)
Theorem cache_key_deterministic encode_basestring hash a b :
  same_inputs a b →
  _get_engine_cache_stage encode_basestring hash a
  = _get_engine_cache_stage encode_basestring hash b.
Proof.
  destruct a, b. unfold same_inputs, _get_engine_cache_stage. simpl.
  intros (Hb & Hp & -> & Hpar & -> & -> & Hpre & Hq).
  unfold get_engine_building_cache_stage, serialize.
  by rewrite (dumps_same_content _ _ _ Hb), (dumps_same_content _ _ _ Hp),
    (dumps_same_content _ _ _ Hpar), (dumps_same_content _ _ _ Hpre),
    (dumps_same_content _ _ _ Hq).
Qed.

Lemma same_dict_swap k1 v1 k2 v2 v1' v2' items :
  NoDup (k1 :: k2 :: items.*1) →
  same_content v1 v1' → same_content v2 v2' →
  Forall2 (λ p q, p.1 = q.1 ∧ same_content p.2 q.2) items items →
  same_content (JDict ((k1, v1) :: (k2, v2) :: items))
               (JDict ((k2, v2') :: (k1, v1') :: items)).
Proof.
  intros Hnd H1 H2 Hitems.
  apply (same_dict _ ((k1, v1') :: (k2, v2') :: items)); [done| |].
  - by repeat constructor.
  - apply perm_swap.
Qed.

Lemma readings_same_inputs : same_inputs first_reading second_reading.
Proof.
  unfold same_inputs. simpl.
  assert (∀ l : list string, bool_decide (NoDup l) = true → NoDup l)
    as Hnd by (intros l; apply bool_decide_eq_true_1).
  split_and!; try done;
    apply same_dict_swap;
    try (apply Hnd; vm_compute; reflexivity);
    try (by repeat constructor).
  apply same_dict_swap;
    [apply Hnd; vm_compute; reflexivity|by repeat constructor..].
Qed.

(** C4, at the two readings. *)
Lemma cache_key_deterministic_witness :
  same_inputs first_reading second_reading
  ∧ _get_engine_cache_stage quoted joined first_reading
    = _get_engine_cache_stage quoted joined second_reading.
Proof.
  split; [exact readings_same_inputs|].
  exact (cache_key_deterministic quoted joined first_reading second_reading
           readings_same_inputs).
Defined.

End CacheKeyFacts.

(** * Facts about the cached model loader *)

Module CachedLoaderFacts.
Import ModelFormat CachedLoader.

(** C10.  The build cache is enabled exactly when the arguments or the
    environment enable it, the model is in the HF format and auto-parallel
    mode is off.  For a checkpoint, for an engine and in auto-parallel
    mode, a call of a new loader does nothing that consults or writes the
    cache: no stage is looked up, [is_cached] and the free storage are not
    asked for, the write guard is not entered. *)
Theorem cache_untouched_unless_enabled env args stats :
  (build_cache_enabled env (__init__ args stats) = true
   ↔ (enable_build_cache args = true ∨ env_enable_build_cache env = true)
     ∧ model_format args = HF ∧ auto_parallel args = false)
  ∧ (model_format args ≠ HF ∨ auto_parallel args = true →
     build_cache_enabled env (__init__ args stats) = false
     ∧ Forall (λ ev, is_cache_event ev = false)
         (trace (__call__ env (__init__ args stats)).1)).
Proof.
  destruct args as [m loc fmt ebc ap].
  destruct env as [eebc c size dl rml ws]. split.
  - unfold build_cache_enabled. simpl.
    destruct fmt, ebc, eebc, ap; simpl; naive_solver.
  - simpl. intros Hoff.
    assert (build_cache_enabled (Env eebc c size dl rml ws)
              (__init__ (Args m loc fmt ebc ap) stats) = false) as Hdis.
    { unfold build_cache_enabled. simpl.
      destruct fmt, ebc, eebc, ap; simpl; naive_solver. }
    split; [done|]. clear Hdis.
    destruct fmt, ap, ebc, eebc, loc; try naive_solver; run_loader;
      try destruct (rml (ws +:+ "/tmp.engine")); simpl;
      by repeat constructor.
Qed.

(** C10, at a checkpoint with the build cache asked for. *)
Lemma cache_untouched_unless_enabled_witness :
  (model_format checkpoint_args ≠ HF ∨ auto_parallel checkpoint_args = true)
  ∧ build_cache_enabled roomy_cache
      (__init__ checkpoint_args (Stats false None None)) = false
  ∧ Forall (λ ev, is_cache_event ev = false)
      (trace (__call__ roomy_cache
                (__init__ checkpoint_args (Stats false None None))).1).
Proof.
  assert (model_format checkpoint_args ≠ HF
          ∨ auto_parallel checkpoint_args = true) as H by (by left).
  split; [exact H|].
  exact (proj2 (cache_untouched_unless_enabled roomy_cache checkpoint_args
                  (Stats false None None)) H).
Defined.

(** C9.  In any state of the loader in which the build cache is enabled,
    the cache stage and the model directory of the key are set, the storage
    of a local model suffices and the build itself goes through,
    [_build_model] runs the build once, inside the write guard and into the
    directory the guard hands out, sets [cache_hitted], and returns the
    engine path of the cache stage.  Nothing here asks whether the stage
    held an engine before: the flag is set after a fresh build. *)
Theorem cache_hitted_after_cached_build env s c dir :
  build_cache_enabled env s = true →
  engine_cache_stage s = Some c →
  _hf_model_dir s = Some dir →
  (is_local_model (llm_args s) = true →
   ∃ free size,
     free_storage_in_gb c = Return free
     ∧ get_directory_size_in_gb env = Return size
     ∧ Qle_bool size free = true) →
  run_model_loader env (write_guard_dir c) = None →
  ∃ s' probe,
    _build_model env s = (s', Return (get_engine_path (cache_stage env)))
    ∧ cache_hitted (llm_build_stats s') = true
    ∧ trace s'
      = trace s ++ probe
        ++ [WriteGuardEnter; BuildTask (write_guard_dir c); ReleaseGc;
            WriteGuardExit; BuildCacheNew; CacheStageLookup]
    ∧ Forall (λ ev, is_build_task ev = false) probe.
Proof.
  destruct s as [[m loc fmt ebc ap] hf cs stats tr].
  destruct env as [eebc stage size dl rml ws].
  unfold build_cache_enabled. simpl.
  intros Hen -> -> Hlocal Hbuild.
  assert (fmt = HF ∧ ap = false ∧ (ebc || eebc) = true) as (-> & -> & Hon).
  { destruct fmt, ap, ebc, eebc; simpl in Hen; try done. }
  destruct loc.
  - destruct Hlocal as (f & sz & Hfree & -> & Hq); [done|].
    run_loader.
    repeat (first [rewrite Hon|rewrite Hfree|rewrite Hq|rewrite Hbuild];
            simpl).
    eexists _, [CacheFreeStorage; DirectorySize].
    split_and!; [reflexivity|done| |by repeat constructor].
    simpl. by rewrite <-!(assoc_L (++)).
  - run_loader. repeat (first [rewrite Hon|rewrite Hbuild]; simpl).
    eexists _, []. split_and!; [reflexivity|done| |by repeat constructor].
    simpl. by rewrite <-!(assoc_L (++)).
Qed.

(** C9, at a local model for which [__call__] has looked up the stage and
    found no engine in it. *)
Lemma cache_hitted_after_cached_build_witness :
  let stage := cache_stage roomy_cache in
  let s :=
    Loader (Args "/models/llama" true HF true false) (Some "/models/llama")
      (Some stage) (Stats false None None)
      [BuildCacheNew; CacheStageLookup; CacheIsCached] in
  build_cache_enabled roomy_cache s = true
  ∧ is_cached stage = false
  ∧ ∃ s' probe,
      _build_model roomy_cache s
      = (s', Return (get_engine_path (cache_stage roomy_cache)))
      ∧ cache_hitted (llm_build_stats s') = true
      ∧ trace s'
        = trace s ++ probe
          ++ [WriteGuardEnter; BuildTask (write_guard_dir stage); ReleaseGc;
              WriteGuardExit; BuildCacheNew; CacheStageLookup]
      ∧ Forall (λ ev, is_build_task ev = false) probe.
Proof.
  intros stage s. split_and!; [reflexivity..|].
  apply (cache_hitted_after_cached_build roomy_cache s stage
           "/models/llama").
  - reflexivity.
  - reflexivity.
  - reflexivity.
  - intros _. exists (100 # 1)%Q, (13 # 1)%Q.
    split; [reflexivity|]. split; reflexivity.
  - reflexivity.
Defined.

(** The same through [__call__].  With the build cache enabled, the
    configuration of a hub model downloaded, the storage of a local model
    sufficient and the build itself going through, a call of a new loader
    returns the engine path of the cache stage with [cache_hitted] set,
    whether the stage held an engine or not.  When it held one, nothing is
    built.  When it held none, the build runs once, inside the write guard,
    into the directory the guard hands out. *)
Lemma call_sets_cache_hitted env args stats :
  build_cache_enabled env (__init__ args stats) = true →
  (is_local_model args = false →
   ∃ dir, download_hf_pretrained_config env = Return dir) →
  (is_local_model args = true →
   ∃ free size,
     free_storage_in_gb (cache_stage env) = Return free
     ∧ get_directory_size_in_gb env = Return size
     ∧ Qle_bool size free = true) →
  run_model_loader env (write_guard_dir (cache_stage env)) = None →
  ∃ s',
    __call__ env (__init__ args stats)
    = (s', Return (get_engine_path (cache_stage env)))
    ∧ cache_hitted (llm_build_stats s') = true
    ∧ if is_cached (cache_stage env) then
        Forall (λ ev, is_build_task ev = false) (trace s')
      else
        ∃ before,
          trace s'
          = before
            ++ [WriteGuardEnter;
                BuildTask (write_guard_dir (cache_stage env));
                ReleaseGc; WriteGuardExit; BuildCacheNew; CacheStageLookup]
          ∧ Forall (λ ev, is_build_task ev = false) before.
Proof.
  destruct args as [m loc fmt ebc ap].
  destruct env as [eebc [cached path guard free] size dl rml ws].
  unfold build_cache_enabled. simpl. intros Hen Hhub Hlocal Hbuild.
  assert (fmt = HF ∧ ap = false ∧ (ebc || eebc) = true) as (-> & -> & Hon).
  { destruct fmt, ap, ebc, eebc; simpl in Hen; try done. }
  destruct loc.
  - destruct Hlocal as (f & sz & -> & -> & Hq); [done|].
    run_loader. destruct cached;
      repeat (first [rewrite Hon|rewrite Hq|rewrite Hbuild]; simpl).
    + eexists. split_and!; [reflexivity|done|by repeat constructor].
    + eexists. split_and!; [reflexivity|done|].
      exists [BuildCacheNew; CacheStageLookup; CacheIsCached;
              CacheFreeStorage; DirectorySize].
      split; [done|by repeat constructor].
  - destruct Hhub as (dir & ->); [done|].
    run_loader. destruct cached;
      repeat (first [rewrite Hon|rewrite Hbuild]; simpl).
    + eexists. split_and!; [reflexivity|done|by repeat constructor].
    + eexists. split_and!; [reflexivity|done|].
      exists [DownloadPretrainedConfig; BuildCacheNew; CacheStageLookup;
              CacheIsCached].
      split; [done|by repeat constructor].
Qed.

(** At a local model whose stage holds no engine yet. *)
Lemma call_sets_cache_hitted_witness :
  build_cache_enabled roomy_cache local_hf_model = true
  ∧ run_model_loader roomy_cache (write_guard_dir (cache_stage roomy_cache))
    = None
  ∧ is_cached (cache_stage roomy_cache) = false
  ∧ ∃ s',
      __call__ roomy_cache local_hf_model
      = (s', Return (get_engine_path (cache_stage roomy_cache)))
      ∧ cache_hitted (llm_build_stats s') = true
      ∧ if is_cached (cache_stage roomy_cache) then
          Forall (λ ev, is_build_task ev = false) (trace s')
        else
          ∃ before,
            trace s'
            = before
              ++ [WriteGuardEnter;
                  BuildTask (write_guard_dir (cache_stage roomy_cache));
                  ReleaseGc; WriteGuardExit; BuildCacheNew; CacheStageLookup]
            ∧ Forall (λ ev, is_build_task ev = false) before.
Proof.
  split_and!; [reflexivity..|].
  apply (call_sets_cache_hitted roomy_cache
           (Args "/models/llama" true HF true false) (Stats false None None)).
  - reflexivity.
  - simpl. intros H. discriminate H.
  - intros _. exists (100 # 1)%Q, (13 # 1)%Q.
    split; [reflexivity|]. split; reflexivity.
  - reflexivity.
Defined.

(** C3 fails on the code.  A local HF model, the build cache enabled, one
    gigabyte free under the cache root and a model of thirteen: the call
    returns normally, [cache_hitted] is false and the diagnostic is
    recorded, and the write guard is not entered.  But the directory built
    into, and returned, is the engine path of the cache stage, which
    [get_engine_dir] still answers because [build_cache_enabled] does not
    look at the storage: it is not the directory [tmp.engine] of the
    workspace. *)
Theorem build_into_cache_when_storage_short :
  ∃ s',
    __call__ small_cache local_hf_model
    = (s', Return (get_engine_path (cache_stage small_cache)))
    ∧ cache_hitted (llm_build_stats s') = false
    ∧ cache_info (llm_build_stats s') = Some too_small
    ∧ trace s'
      = [BuildCacheNew; CacheStageLookup; CacheIsCached; CacheFreeStorage;
         DirectorySize;
         Print "The cache directory is too small, build-cache is disabled.";
         BuildCacheNew; CacheStageLookup;
         BuildTask (get_engine_path (cache_stage small_cache));
         ReleaseGc; BuildCacheNew; CacheStageLookup]
    ∧ get_engine_path (cache_stage small_cache)
      ≠ workspace small_cache +:+ "/tmp.engine".
Proof.
  exists (__call__ small_cache local_hf_model).1.
  split_and!; [reflexivity..|done].
Qed.

End CachedLoaderFacts.

(** * More about the build pipeline *)

Module PipelineMore.
Import Pipeline PipelineFacts.

Section pipeline.
Context {W : Type}.
Variable clock : W → Z.
Variable release_gc : W → W.

Lemma step_forward_times_steps n (p p' : pipeline W) :
  step_forward_times clock release_gc n p = Done p' →
  labels p' = labels p ∧ step_handlers p' = step_handlers p.
Proof.
  revert p. induction n as [|n IH]; intros p; simpl.
  { by intros [= <-]. }
  unfold step_forward.
  destruct (labels p !! counter p); [|done].
  destruct (step_handlers p !! counter p) as [run|]; [|done].
  destruct (run (world p)); [|done].
  intros [H1 H2]%IH. by simpl in *.
Qed.

(** X1.  A pipeline runs once.  After a call that returned, the counter
    stands past the last step and is not reset: a further [step_forward]
    raises [IndexError] without running a handler or forcing a reclaim, and
    so does a second call of a pipeline that has steps. *)
Theorem pipeline_runs_once labels handlers stats w (p p' : pipeline W) :
  __init__ labels handlers stats w = Return p →
  __call__ clock release_gc p = Done p' →
  counter p' = length labels
  ∧ step_forward clock release_gc p' = Raised p' index_error
  ∧ (labels ≠ [] → __call__ clock release_gc p' = Raised p' index_error).
Proof.
  unfold __init__. case_decide as Hlen; [|done]. intros [= <-].
  unfold __call__. simpl. intros Hrun.
  pose proof (step_forward_times_spec clock release_gc (length labels)
                (Pipeline_ labels handlers 0 stats w []) Hlen) as H.
  pose proof (step_forward_times_steps _ _ _ Hrun) as [Hl Hh].
  rewrite Hrun in H. simpl in *. destruct H as (_ & _ & Hc); [lia|].
  assert (step_forward clock release_gc p' = Raised p' index_error) as Hstep.
  { unfold step_forward. rewrite Hl, Hc.
    by rewrite (lookup_ge_None_2 labels (length labels)) by lia. }
  split_and!; [done|done|]. intros Hne. rewrite Hl.
  destruct labels as [|label labels']; [done|]. simpl. by rewrite Hstep.
Qed.
End pipeline.

Lemma pipeline_runs_once_witness :
  let labels := ["Loading HF model to memory"; "Building TRT-LLM engine"] in
  let handlers := [takes 30; takes 100] in
  let p := Pipeline_ labels handlers 0 [] 0%Z [] in
  let p' :=
    Pipeline_ labels handlers 2
      [("Loading HF model to memory", 31%Z);
       ("Building TRT-LLM engine", 101%Z)]
      132%Z [StepRun 0; GcReleased; StepRun 1; GcReleased] in
  __call__ id (Z.add 1) p = Done p'
  ∧ counter p' = length labels
  ∧ step_forward id (Z.add 1) p' = Raised p' index_error
  ∧ (labels ≠ [] → __call__ id (Z.add 1) p' = Raised p' index_error).
Proof.
  intros labels handlers p p'.
  assert (__call__ id (Z.add 1) p = Done p') as Hrun by reflexivity.
  split; [exact Hrun|].
  exact (pipeline_runs_once id (Z.add 1) labels handlers [] 0%Z p p'
           eq_refl Hrun).
Defined.

End PipelineMore.

(** * More about the inference of the model format *)

Module ModelFormatMore.
Import ModelFormat.

Lemma validated_inv ld k k' :
  validated ld k = Return k' → k' = k ∧ loader_of ld k = None.
Proof. unfold validated. destruct (loader_of ld k); naive_solver. Qed.

(** X2.  A format is returned only after the loader of that very format
    has accepted the directory ([EngineConfig.from_json_file] for an
    engine, [PretrainedConfig.from_checkpoint] for a checkpoint,
    [AutoConfig.from_hugging_face] for HF), and only for a [config.json]
    that could be read and decoded; it is the engine format exactly when
    [pretrained_config] and [build_config] are both in what was
    decoded. *)
Theorem returned_format_was_validated model_dir file ld k :
  get_model_format model_dir file ld = Return k →
  match k with
  | TLLM_ENGINE => engine_config_from_json_file ld = None
  | TLLM_CKPT => pretrained_config_from_checkpoint ld = None
  | HF => auto_config_from_hugging_face ld = None
  end
  ∧ ∃ config,
      file = Loaded config
      ∧ (k = TLLM_ENGINE
         ↔ both_in "pretrained_config" "build_config" config = Some true).
Proof.
  unfold get_model_format. destruct file as [|e|config]; [done..|].
  destruct (both_in "pretrained_config" "build_config" config)
    as [[]|] eqn:E1; [| |done].
  - intros [-> ?]%validated_inv. split; [done|]. by exists config.
  - destruct (both_in "architecture" "dtype" config) as [[]|]; [| |done];
      intros [-> ?]%validated_inv; (split; [done|]); exists config;
      (split; [done|]); rewrite E1; naive_solver.
Qed.

Lemma returned_format_was_validated_witness :
  let config :=
    JDict [("architecture", JStr "LlamaForCausalLM");
           ("dtype", JStr "float16")] in
  let ld := Loaders (Some (OtherError "KeyError" "version")) None None in
  get_model_format "/models/llama-ckpt" (Loaded config) ld = Return TLLM_CKPT
  ∧ pretrained_config_from_checkpoint ld = None
  ∧ ∃ config',
      Loaded config = Loaded config'
      ∧ (TLLM_CKPT = TLLM_ENGINE
         ↔ both_in "pretrained_config" "build_config" config' = Some true).
Proof.
  intros config ld.
  assert (get_model_format "/models/llama-ckpt" (Loaded config) ld
          = Return TLLM_CKPT) as H by reflexivity.
  split; [exact H|].
  exact (returned_format_was_validated "/models/llama-ckpt" (Loaded config)
           ld TLLM_CKPT H).
Defined.

(** X3.  What [get_model_format] raises: what reading [config.json] raised,
    or a [ValueError], or, for a [config.json] whose value is no dict, list
    or string (a number, [true], [false], [null]), an [UnboundLocalError],
    whatever the loaders do: the [TypeError] of [in] is caught by the
    handler, which then formats [model_format] before it is bound. *)
Theorem get_model_format_raises model_dir file ld e :
  get_model_format model_dir file ld = Raise e →
  file = Undecodable e
  ∨ class_name e = "ValueError"
  ∨ (e = unbound_model_format
     ∧ ∃ config,
         file = Loaded config
         ∧ match config with
           | JDict _ | JList _ | JStr _ => False
           | _ => True
           end).
Proof.
  unfold get_model_format. destruct file as [|e'|config].
  - intros [= <-]. by right; left.
  - intros [= <-]. by left.
  - assert (∀ k, validated ld k = Raise e → class_name e = "ValueError")
      as Hval.
    { intros k. unfold validated. destruct (loader_of ld k); [|done].
      by intros [= <-]. }
    destruct config; simpl;
      try (intros [= <-]; right; right; split; [done|]; by eexists).
    all: repeat case_match;
      try (intros Hr; right; left; by eapply Hval);
      match goal with
      | H : both_in _ _ _ = None |- _ =>
          unfold both_in in H; simpl in H; by repeat case_match
      end.
Qed.

Lemma get_model_format_raises_witness :
  let ld := Loaders None None None in
  get_model_format "/models/llama" (Loaded (JInt 7)) ld
  = Raise unbound_model_format
  ∧ (Loaded (JInt 7) = Undecodable unbound_model_format
     ∨ class_name unbound_model_format = "ValueError"
     ∨ (unbound_model_format = unbound_model_format
        ∧ ∃ config,
            Loaded (JInt 7) = Loaded config
            ∧ match config with
              | JDict _ | JList _ | JStr _ => False
              | _ => True
              end)).
Proof.
  intros ld.
  assert (get_model_format "/models/llama" (Loaded (JInt 7)) ld
          = Raise unbound_model_format) as H by reflexivity.
  split; [exact H|].
  exact (get_model_format_raises "/models/llama" (Loaded (JInt 7)) ld
           unbound_model_format H).
Defined.

End ModelFormatMore.

(** * More about the arbitrator *)

Module ArbitratorMore.
Import Arbitrator ArbitratorFacts Registrations.



End ArbitratorMore.

(** * Facts about what the arbitrator keeps *)

Module ArbitratorKeepsFacts.
Import Arbitrator ArbitratorFacts ArbitratorKeeps.

Lemma heap_keeps_refl h : heap_keeps h h.
Proof. intros l opt v Hv. exists v. split; [done|apply py_eqb_refl]. Qed.

Lemma heap_keeps_trans h1 h2 h3 :
  heap_keeps h1 h2 → heap_keeps h2 h3 → heap_keeps h1 h3.
Proof.
  intros H12 H23 l opt v Hv.
  destruct (H12 _ _ _ Hv) as (v2 & Hv2 & E12).
  destruct (H23 _ _ _ Hv2) as (v3 & Hv3 & E23).
  exists v3. split; [done|]. by eapply py_eqb_trans.
Qed.

Lemma keeps_refl st : keeps st st.
Proof. split; [done|apply heap_keeps_refl]. Qed.

Lemma keeps_trans st1 st2 st3 : keeps st1 st2 → keeps st2 st3 → keeps st1 st3.
Proof.
  intros [H1 H2] [H3 H4]. split; [by etrans|by eapply heap_keeps_trans].
Qed.

(** An assignment to an option that has no value, or has an equal one. *)
Lemma hset_keeps l k v h :
  (∀ v0, hget l h !! k = Some v0 → py_eqb v0 v = true) →
  heap_keeps h (hset l k v h).
Proof.
  intros Hk l' opt w Hw. unfold hset.
  destruct (decide (l = l')) as [<-|Hne].
  - destruct (decide (l < length h)) as [Hl|Hl].
    + rewrite hget_insert_eq by done.
      destruct (decide (k = opt)) as [<-|Hopt].
      * exists v. rewrite lookup_insert_eq. split; [done|by apply Hk].
      * exists w. rewrite lookup_insert_ne by done.
        split; [done|apply py_eqb_refl].
    + rewrite list_insert_ge by lia. exists w.
      split; [done|apply py_eqb_refl].
  - rewrite hget_insert_ne by done. exists w.
    split; [done|apply py_eqb_refl].
Qed.

Lemma hget_app_empty {V} l (h : heap V) : hget l (h ++ [∅]) = hget l h.
Proof.
  unfold hget. destruct (decide (l < length h)) as [Hl|Hl].
  - by rewrite lookup_app_l.
  - rewrite lookup_app_r, (lookup_ge_None_2 h l) by lia.
    by destruct (l - length h) as [|[|?]].
Qed.

Lemma setdefault_dict_keeps {V} name d (h : heap V) d' h' l :
  setdefault_dict name d h = (d', h', l) →
  d ⊆ d' ∧ ∀ l0, hget l0 h' = hget l0 h.
Proof.
  unfold setdefault_dict. destruct (d !! name) eqn:Hname; intros [= <- <- <-].
  - done.
  - split; [by apply insert_subseteq|]. intros l0. apply hget_app_empty.
Qed.

Lemma heap_keeps_ext h h' :
  (∀ l, hget l h' = hget l h) → heap_keeps h h'.
Proof.
  intros Heq l opt v Hv. exists v. rewrite Heq.
  split; [done|apply py_eqb_refl].
Qed.

Lemma setup_options_keeps info l ls kw hv hs :
  heap_keeps hv (final_state (setup_options info l ls kw hv hs)).1.
Proof.
  revert hv hs. induction kw as [|[opt val] kw IH]; intros hv hs; simpl.
  { apply heap_keeps_refl. }
  destruct (py_eqb (default val (hget l hv !! opt)) val) eqn:E; simpl.
  - eapply heap_keeps_trans; [|apply IH]. apply hset_keeps.
    intros v0 Hv0. by rewrite Hv0 in E.
  - apply heap_keeps_refl.
Qed.

Lemma setup_keeps info name kw st :
  keeps st (final_state (setup info name kw st)).
Proof.
  unfold setup.
  destruct (setdefault_dict name (virtual_configs st) (cfg_heap st))
    as [[vcs hv] l] eqn:E1.
  destruct (setdefault_dict name (option_sources st) (src_heap st))
    as [[oss hs] ls] eqn:E2.
  apply setdefault_dict_keeps in E1 as [Hsub Hh].
  pose proof (setup_options_keeps info l ls kw hv hs) as Hk.
  assert (heap_keeps (cfg_heap st) hv) as Hk0 by by apply heap_keeps_ext.
  destruct (setup_options info l ls kw hv hs) as [[hv' hs']|[hv' hs'] e];
    simpl in *; (split; [done|by eapply heap_keeps_trans]).
Qed.

Lemma func_options_keeps func l ls options hv hs :
  heap_keeps hv (final_state (func_options func l ls options hv hs)).1.
Proof.
  revert hv hs. induction options as [|[opt val] options IH];
    intros hv hs; simpl.
  { apply heap_keeps_refl. }
  destruct (hget l hv !! opt) as [existing|] eqn:E.
  - destruct (py_eqb existing val); [apply IH|].
    destruct (hget ls hs !! opt); apply heap_keeps_refl.
  - eapply heap_keeps_trans; [|apply IH]. apply hset_keeps.
    intros v0 Hv0. by rewrite Hv0 in E.
Qed.

Lemma func_funcs_keeps l ls funcs hv hs :
  heap_keeps hv (final_state (func_funcs l ls funcs hv hs)).1.
Proof.
  revert hv hs. induction funcs as [|[func options] funcs IH];
    intros hv hs; simpl.
  { apply heap_keeps_refl. }
  pose proof (func_options_keeps func l ls options hv hs) as Hk.
  destruct (func_options func l ls options hv hs) as [[hv' hs']|[hv' hs'] e];
    simpl in *; [|done].
  eapply heap_keeps_trans; [done|apply IH].
Qed.

Lemma func_phase_keeps claims st :
  keeps st (final_state (func_phase claims st)).
Proof.
  revert st. induction claims as [|[name funcs] claims IH]; intros st; simpl.
  { apply keeps_refl. }
  destruct (setdefault_dict name (virtual_configs st) (cfg_heap st))
    as [[vcs hv] l] eqn:E1.
  destruct (setdefault_dict name (option_sources st) (src_heap st))
    as [[oss hs] ls] eqn:E2.
  apply setdefault_dict_keeps in E1 as [Hsub Hh].
  pose proof (func_funcs_keeps l ls funcs hv hs) as Hk.
  assert (heap_keeps (cfg_heap st) hv) as Hk0 by by apply heap_keeps_ext.
  destruct (func_funcs l ls funcs hv hs) as [[hv' hs']|[hv' hs'] e];
    simpl in *.
  - eapply keeps_trans; [|apply IH].
    split; [done|by eapply heap_keeps_trans].
  - split; [done|by eapply heap_keeps_trans].
Qed.

Lemma perf_options_keeps perf l ls options hv hs eff :
  heap_keeps hv (perf_options perf l ls options hv hs eff).1.1.1.
Proof.
  revert hv hs. induction options as [|[opt val] options IH];
    intros hv hs; simpl.
  { apply heap_keeps_refl. }
  destruct (hget l hv !! opt) as [existing|] eqn:E.
  - destruct (py_eqb existing val) eqn:Heq; [|apply heap_keeps_refl].
    eapply heap_keeps_trans; [|apply IH]. apply hset_keeps.
    intros v0 Hv0. rewrite Hv0 in E. by simplify_eq.
  - eapply heap_keeps_trans; [|apply IH]. apply hset_keeps.
    intros v0 Hv0. by rewrite Hv0 in E.
Qed.

Lemma perf_entries_keeps perf entries vcs oss hv hs eff :
  let r := perf_entries perf entries vcs oss hv hs eff in
  vcs ⊆ r.1.1.1.1.1 ∧ heap_keeps hv r.1.1.1.2.
Proof.
  revert vcs oss hv hs eff.
  induction entries as [|[[name options] fallback] entries IH];
    intros vcs oss hv hs eff; simpl.
  { split; [done|apply heap_keeps_refl]. }
  destruct (setdefault_dict name vcs hv) as [[vcs' hv1] l] eqn:E1.
  destruct (setdefault_dict name oss hs) as [[oss' hs1] ls] eqn:E2.
  apply setdefault_dict_keeps in E1 as [Hsub Hh].
  assert (heap_keeps hv hv1) as Hk0 by by apply heap_keeps_ext.
  pose proof (perf_options_keeps perf l ls options hv1 hs1 eff) as Hk.
  destruct (perf_options perf l ls options hv1 hs1 eff)
    as [[[hv2 hs2] eff2] restore]. simpl in Hk.
  destruct restore; simpl.
  - split; [done|by eapply heap_keeps_trans].
  - destruct (IH vcs' oss' hv2 hs2 eff2) as [H1 H2].
    split; [by etrans|].
    eapply heap_keeps_trans; [done|]. by eapply heap_keeps_trans.
Qed.

Lemma perf_phase_keeps claims st : keeps st (perf_phase claims st).
Proof.
  revert st. induction claims as [|[perf entries] claims IH]; intros st;
    simpl.
  { apply keeps_refl. }
  pose proof (perf_entries_keeps perf entries (virtual_configs st)
                (option_sources st) (cfg_heap st) (src_heap st)
                (effects st)) as [H1 H2].
  destruct (perf_entries perf entries (virtual_configs st)
              (option_sources st) (cfg_heap st) (src_heap st) (effects st))
    as [[[[[vcs oss] hv] hs] eff] restore]. simpl in H1, H2.
  eapply keeps_trans; [|apply IH]. by destruct restore.
Qed.

Lemma arbitrate_keeps st : keeps st (final_state (_arbitrate st)).
Proof.
  unfold _arbitrate. pose proof (func_phase_keeps (func_claims st) st) as Hk.
  destruct (func_phase (func_claims st) st) as [st'|st' e]; simpl in *;
    [|done].
  eapply keeps_trans; [done|apply perf_phase_keeps].
Qed.

Lemma register_keeps rs st : keeps st (final_state (register rs st)).
Proof.
  revert st. induction rs as [|[info name kw|func name options
                               |perf name fallback options] rs IH];
    intros st; simpl.
  - apply keeps_refl.
  - pose proof (setup_keeps info name kw st) as Hk.
    destruct (setup info name kw st) as [st'|st' e]; simpl in *; [|done].
    eapply keeps_trans; [done|apply IH].
  - eapply keeps_trans; [|apply IH]. split; [done|apply heap_keeps_refl].
  - eapply keeps_trans; [|apply IH]. split; [done|apply heap_keeps_refl].
Qed.

Lemma keeps_resolved st st' name opt v :
  keeps st st' →
  resolved st name opt = Some v →
  ∃ v', resolved st' name opt = Some v' ∧ py_eqb v v' = true.
Proof.
  intros [Hsub Hk]. unfold resolved.
  destruct (virtual_configs st !! name) as [l|] eqn:Hl; [|done]. simpl.
  intros Hv. rewrite (lookup_weaken _ _ _ _ Hl Hsub). simpl. by apply Hk.
Qed.

(** X5.  A value once given to an option is final.  Whatever [setup],
    [claim_func] and [claim_perf] calls follow, and whether the call of
    the arbitrator returns or raises, the option still has a value in the
    working configuration, equal ([==]) to the one it had: no baseline, no
    functionality claim and no performance claim replaces it by another.
    When the call returns, every live object passed under the name of the
    config has that value as its attribute. *)
Theorem resolved_option_is_final rs st st1 configs name opt v :
  resolved st name opt = Some v →
  register rs st = Done st1 →
  ∃ v',
    py_eqb v v' = true
    ∧ resolved (final_state (__call__ st1 configs)).1 name opt = Some v'
    ∧ ∀ st2 configs',
        __call__ st1 configs = Done (st2, configs') →
        ∀ i config,
          configs !! i = Some (name, config) →
          ∃ config',
            configs' !! i = Some (name, config')
            ∧ config' !! opt = Some v'.
Proof.
  intros Hv Hreg.
  pose proof (register_keeps rs st) as H1. rewrite Hreg in H1. simpl in H1.
  pose proof (arbitrate_keeps st1) as H2.
  pose proof (keeps_trans _ _ _ H1 H2) as Hk.
  destruct (keeps_resolved _ _ _ _ _ Hk Hv) as (v' & Hv' & E).
  exists v'. unfold __call__.
  destruct (_arbitrate st1) as [st2|st2 e]; simpl in *;
    (split_and!; [done..|]); [|done].
  intros ? ? [= <- <-] i config Hi.
  rewrite apply_configs_assigned. unfold assigned.
  rewrite list_lookup_fmap, Hi. simpl. eexists. split; [done|].
  apply lookup_union_Some_l. revert Hv'. unfold resolved, config_view, view.
  by destruct (virtual_configs st2 !! name).
Qed.

Lemma resolved_option_is_final_witness :
  let st :=
    final_state (setup "pre-ampere not supported" "plugin_config"
                   [("use_paged_context_fmha", VBool false)] __init__) in
  let rs := pre_ampere_registrations in
  let st1 := final_state (register rs st) in
  let configs :=
    [("plugin_config", {["use_paged_context_fmha" := VBool true]})] in
  resolved st "plugin_config" "use_paged_context_fmha" = Some (VBool false)
  ∧ register rs st = Done st1
  ∧ ∃ v',
      py_eqb (VBool false) v' = true
      ∧ resolved (final_state (__call__ st1 configs)).1 "plugin_config"
          "use_paged_context_fmha" = Some v'
      ∧ ∀ st2 configs',
          __call__ st1 configs = Done (st2, configs') →
          ∀ i config,
            configs !! i = Some ("plugin_config", config) →
            ∃ config',
              configs' !! i = Some ("plugin_config", config')
              ∧ config' !! "use_paged_context_fmha" = Some v'.
Proof.
  intros st rs st1 configs.
  assert (resolved st "plugin_config" "use_paged_context_fmha"
          = Some (VBool false)) as Hv by (vm_compute; reflexivity).
  assert (register rs st = Done st1) as Hreg by reflexivity.
  split; [exact Hv|]. split; [exact Hreg|].
  exact (resolved_option_is_final rs st st1 configs "plugin_config"
           "use_paged_context_fmha" (VBool false) Hv Hreg).
Defined.

End ArbitratorKeepsFacts.

(** * More about the cached loader *)

Module CachedLoaderMore.
Import ModelFormat CachedLoader LoaderExamples.

(** X6.  The storage probe never stands in the way of the build, and never
    moves it out of the cache.  For a local model with the build cache
    enabled and no engine cached, when the free storage is less than the
    size of the model directory, or one of the two probes raises, and the
    build goes through: the call returns the engine path of the cache
    stage, [cache_hitted] is false and the diagnostic is recorded, the
    write guard is not entered, and the one build that runs goes to that
    engine path. *)
Theorem storage_short_still_builds_into_cache env args stats :
  build_cache_enabled env (__init__ args stats) = true →
  is_local_model args = true →
  is_cached (cache_stage env) = false →
  (∀ free size,
     free_storage_in_gb (cache_stage env) = Return free →
     get_directory_size_in_gb env = Return size →
     Qle_bool size free = false) →
  run_model_loader env (get_engine_path (cache_stage env)) = None →
  ∃ s',
    __call__ env (__init__ args stats)
    = (s', Return (get_engine_path (cache_stage env)))
    ∧ cache_hitted (llm_build_stats s') = false
    ∧ cache_info (llm_build_stats s') = Some too_small
    ∧ (WriteGuardEnter ∉ trace s')
    ∧ filter (λ ev, is_build_task ev = true) (trace s')
      = [BuildTask (get_engine_path (cache_stage env))].
Proof.
  destruct args as [m loc fmt ebc ap].
  destruct env as [eebc [cached path guard free] size dl rml ws].
  unfold build_cache_enabled. simpl. intros Hen -> -> Hshort Hbuild.
  assert (fmt = HF ∧ ap = false ∧ (ebc || eebc) = true) as (-> & -> & Hon).
  { destruct fmt, ap, ebc, eebc; simpl in Hen; try done. }
  destruct free as [f|[]], size as [sz|[]];
    try rewrite (Hshort _ _ eq_refl eq_refl);
    run_loader;
    repeat (first [rewrite Hon|rewrite Hbuild
                  |rewrite (Hshort _ _ eq_refl eq_refl)]; simpl);
    (eexists; split_and!; [reflexivity|done|done|set_solver|done]).
Qed.

Lemma storage_short_still_builds_into_cache_witness :
  build_cache_enabled small_cache local_hf_model = true
  ∧ ∃ s',
      __call__ small_cache local_hf_model
      = (s', Return (get_engine_path (cache_stage small_cache)))
      ∧ cache_hitted (llm_build_stats s') = false
      ∧ cache_info (llm_build_stats s') = Some too_small
      ∧ (WriteGuardEnter ∉ trace s')
      ∧ filter (λ ev, is_build_task ev = true) (trace s')
        = [BuildTask (get_engine_path (cache_stage small_cache))].
Proof.
  split; [reflexivity|].
  apply (storage_short_still_builds_into_cache small_cache
           (Args "/models/llama" true HF true false) (Stats false None None)).
  - reflexivity.
  - reflexivity.
  - reflexivity.
  - intros free size [= <-] [= <-]. reflexivity.
  - reflexivity.
Defined.

(** X7.  A build that fails inside the write guard.  With the build cache
    enabled, no engine cached and storage enough, the error of the build
    leaves the guard (which is left through its exit with the exception)
    and the call.  [cache_hitted] is not set: it is as it was, and so are
    [cache_info] and [engine_dir] of the statistics.  No second build
    outside the cache is tried. *)
Theorem failed_build_aborts_write_guard env args stats e :
  build_cache_enabled env (__init__ args stats) = true →
  is_cached (cache_stage env) = false →
  (is_local_model args = false →
   ∃ dir, download_hf_pretrained_config env = Return dir) →
  (is_local_model args = true →
   ∃ free size,
     free_storage_in_gb (cache_stage env) = Return free
     ∧ get_directory_size_in_gb env = Return size
     ∧ Qle_bool size free = true) →
  run_model_loader env (write_guard_dir (cache_stage env)) = Some e →
  ∃ s' before,
    __call__ env (__init__ args stats) = (s', Raise e)
    ∧ cache_hitted (llm_build_stats s') = cache_hitted stats
    ∧ cache_info (llm_build_stats s') = cache_info stats
    ∧ engine_dir (llm_build_stats s') = engine_dir stats
    ∧ trace s'
      = before ++ [WriteGuardEnter;
                   BuildTask (write_guard_dir (cache_stage env));
                   WriteGuardAbort]
    ∧ Forall (λ ev, is_build_task ev = false) before.
Proof.
  destruct args as [m loc fmt ebc ap].
  destruct env as [eebc [cached path guard free] size dl rml ws].
  unfold build_cache_enabled. simpl. intros Hen -> Hhub Hlocal Hbuild.
  assert (fmt = HF ∧ ap = false ∧ (ebc || eebc) = true) as (-> & -> & Hon).
  { destruct fmt, ap, ebc, eebc; simpl in Hen; try done. }
  destruct loc.
  - destruct Hlocal as (f & sz & -> & -> & Hq); [done|].
    run_loader.
    repeat (first [rewrite Hon|rewrite Hq|rewrite Hbuild]; simpl).
    eexists _, [BuildCacheNew; CacheStageLookup; CacheIsCached;
                CacheFreeStorage; DirectorySize].
    split_and!; [reflexivity|done|done|done|done|by repeat constructor].
  - destruct Hhub as (dir & ->); [done|].
    run_loader. repeat (first [rewrite Hon|rewrite Hbuild]; simpl).
    eexists _, [DownloadPretrainedConfig; BuildCacheNew; CacheStageLookup;
                CacheIsCached].
    split_and!; [reflexivity|done|done|done|done|by repeat constructor].
Qed.

Lemma failed_build_aborts_write_guard_witness :
  build_cache_enabled failing_builds local_hf_model = true
  ∧ ∃ s' before,
      __call__ failing_builds local_hf_model
      = (s', Raise (OtherError "RuntimeError" "CUDA out of memory"))
      ∧ cache_hitted (llm_build_stats s') = false
      ∧ cache_info (llm_build_stats s') = None
      ∧ engine_dir (llm_build_stats s') = None
      ∧ trace s'
        = before ++ [WriteGuardEnter;
                     BuildTask (write_guard_dir (cache_stage failing_builds));
                     WriteGuardAbort]
      ∧ Forall (λ ev, is_build_task ev = false) before.
Proof.
  split; [reflexivity|].
  apply (failed_build_aborts_write_guard failing_builds
           (Args "/models/llama" true HF true false) (Stats false None None)).
  - reflexivity.
  - reflexivity.
  - simpl. intros H. discriminate H.
  - intros _. exists (100 # 1)%Q, (13 # 1)%Q.
    split; [reflexivity|]. split; reflexivity.
  - reflexivity.
Defined.



(** X9.  A cache hit.  With the build cache enabled and an engine in the
    stage, the call returns the engine path of the stage without probing
    the storage, entering the write guard or building: [cache_hitted] is
    set, and [engine_dir] of the statistics and [model] of the arguments
    are that path. *)
Theorem cache_hit_reuses_engine env args stats :
  build_cache_enabled env (__init__ args stats) = true →
  is_cached (cache_stage env) = true →
  (is_local_model args = false →
   ∃ dir, download_hf_pretrained_config env = Return dir) →
  let path := get_engine_path (cache_stage env) in
  ∃ s',
    __call__ env (__init__ args stats) = (s', Return path)
    ∧ model (llm_args s') = path
    ∧ llm_build_stats s' = Stats true (cache_info stats) (Some path)
    ∧ Forall (λ ev, ev ∈ [DownloadPretrainedConfig; BuildCacheNew;
                          CacheStageLookup; CacheIsCached;
                          Print ("Reusing cached engine in " +:+ path)])
        (trace s').
Proof.
  destruct args as [m loc fmt ebc ap].
  destruct env as [eebc [cached path guard free] size dl rml ws].
  unfold build_cache_enabled. simpl. intros Hen -> Hhub.
  assert (fmt = HF ∧ ap = false ∧ (ebc || eebc) = true) as (-> & -> & Hon).
  { destruct fmt, ap, ebc, eebc; simpl in Hen; try done. }
  destruct loc.
  - run_loader. repeat (first [rewrite Hon]; simpl).
    eexists. split_and!; [reflexivity|done|done|].
    repeat constructor; set_solver.
  - destruct Hhub as (dir & ->); [done|].
    run_loader. repeat (first [rewrite Hon]; simpl).
    eexists. split_and!; [reflexivity|done|done|].
    repeat constructor; set_solver.
Qed.

Lemma cache_hit_reuses_engine_witness :
  build_cache_enabled warm_cache local_hf_model = true
  ∧ ∃ s',
      __call__ warm_cache local_hf_model
      = (s', Return "/cache/1a2b/content")
      ∧ model (llm_args s') = "/cache/1a2b/content"
      ∧ llm_build_stats s' = Stats true None (Some "/cache/1a2b/content")
      ∧ Forall (λ ev, ev ∈ [DownloadPretrainedConfig; BuildCacheNew;
                            CacheStageLookup; CacheIsCached;
                            Print ("Reusing cached engine in "
                                     +:+ "/cache/1a2b/content")])
          (trace s').
Proof.
  split; [reflexivity|].
  apply (cache_hit_reuses_engine warm_cache
           (Args "/models/llama" true HF true false) (Stats false None None)).
  - reflexivity.
  - reflexivity.
  - simpl. intros H. discriminate H.
Defined.

End CachedLoaderMore.

(** * Facts about the call of a [ModelLoader] *)

Module ModelLoaderCallFacts.
Import ModelFormat ModelLoaderCall.

Lemma gathered_methods model fmt steps :
  _gather_build_steps model fmt = Return steps →
  model ≠ AModule →
  fmt ≠ TLLM_ENGINE →
  2 ≤ length steps
  ∧ Forall (λ m, m ≠ _build_engine_from_inmemory_model) steps.*2.
Proof.
  intros H Hmodel Hfmt.
  destruct model, fmt; try done; simpl in H; simplify_eq; simpl;
    (split; [lia|by repeat constructor]).
Qed.

Section loader.
Context {W : Type}.
Variable clock : W → Z.
Variable release_gc : W → W.
Variable model_of : W → model_arg.
Variable has_model : W → bool.
Variable bound : method → Pipeline.handler W.
Variable set_device : W → W.
Variable save : string → string → Pipeline.handler W.

(** X10.  The directory to build into is asked for after the build.  For a
    model that is no engine and no [Module], when every step returns, a
    call without [engine_dir] runs all the steps gathered, in order and
    each followed by a reclaim, records them in the statistics, and only
    then fails the assertion on [engine_dir]: nothing is saved. *)
Theorem call_without_engine_dir_builds_first model fmt multi steps s :
  _gather_build_steps model fmt = Return steps →
  model ≠ AModule →
  fmt ≠ TLLM_ENGINE →
  (∀ m w, m ≠ _build_engine_from_inmemory_model →
          ∃ w', bound m w = Done w') →
  ∃ s',
    __call__ clock release_gc model_of has_model bound set_device save
      (Loader fmt (Return multi) steps) None s
    = (s', Raise (AssertionError EmptyString))
    ∧ trace s'
      = trace s ++ (if multi then [SetDevice] else [])
        ++ (Step <$> Pipeline.steps_done 0 (length steps))
    ∧ ∃ latencies,
        length latencies = length steps
        ∧ build_steps_info s' = build_steps_info s ++ zip steps.*1 latencies.
Proof.
  intros Hsteps Hmodel Hfmt Hbound.
  destruct (gathered_methods _ _ _ Hsteps Hmodel Hfmt) as [_ Hmethods].
  unfold __call__. simpl.
  set (s1 := if multi then _ else s).
  assert (trace s1 = trace s ++ (if multi then [SetDevice] else [])) as Ht1.
  { unfold s1. destruct multi; simpl; [done|].
    by rewrite (right_id_L [] (++)). }
  assert (build_steps_info s1 = build_steps_info s) as Hi1.
  { unfold s1. by destruct multi. }
  clearbody s1.
  unfold Pipeline.__init__. rewrite decide_True by by rewrite !length_fmap.
  set (p := Pipeline.Pipeline_ _ _ _ _ _ _).
  pose proof (PipelineFacts.step_forward_times_spec clock release_gc
                (length steps.*1) p) as Hrun.
  unfold Pipeline.__call__. simpl in *.
  destruct (Pipeline.step_forward_times clock release_gc _ p) as [p'|p' e].
  - destruct Hrun as (Ht & (lat & Hl & Hs) & _);
      [by rewrite !length_fmap|lia|].
    rewrite Hi1, drop_0, firstn_all in Hs.
    rewrite length_fmap in Ht, Hl.
    destruct fmt; [| |done]; simpl; eexists;
      (split; [done|]); simpl; rewrite Ht, Ht1, <-(assoc_L (++));
      (split; [done|]); by exists lat.
  - destruct Hrun as (k & run & w & _ & Hk & Hr & _);
      [by rewrite !length_fmap|lia|].
    simpl in Hk. rewrite list_lookup_fmap in Hk.
    destruct (steps.*2 !! k) as [m|] eqn:Hm; [|done].
    simpl in Hk. injection Hk as <-.
    assert (m ≠ _build_engine_from_inmemory_model) as Hne.
    { by eapply (Forall_lookup_1 _ _ _ _ Hmethods). }
    destruct (Hbound m w Hne) as [w' Hw']. destruct m; try done;
      simpl in Hr; congruence.
Qed.

(** X11.  A [Module] given as the model is never built.  The one step
    gathered for it raises, whatever the other methods would do:
    [_ModelInfo.from_module] is not implemented, and the [self.model] it
    is handed is not an attribute the loader has been given.  A call has
    then run this step only, without a reclaim after it, has recorded
    nothing in the statistics and has saved nothing. *)
Theorem inmemory_module_is_never_built fmt_gathered fmt multi steps
    engine_dir s :
  _gather_build_steps AModule fmt_gathered = Return steps →
  fmt ≠ TLLM_ENGINE →
  ∃ s' e,
    __call__ clock release_gc model_of has_model bound set_device save
      (Loader fmt (Return multi) steps) engine_dir s
    = (s', Raise e)
    ∧ class_name e ∈ ["AssertionError"; "AttributeError";
                      "NotImplementedError"]
    ∧ trace s'
      = trace s ++ (if multi then [SetDevice] else [])
        ++ [Step (Pipeline.StepRun 0)]
    ∧ build_steps_info s' = build_steps_info s.
Proof.
  intros [= <-] Hfmt. unfold __call__. simpl.
  set (s1 := if multi then _ else s).
  assert (trace s1 = trace s ++ (if multi then [SetDevice] else [])) as Ht1.
  { unfold s1. destruct multi; simpl; [done|].
    by rewrite (right_id_L [] (++)). }
  assert (build_steps_info s1 = build_steps_info s) as Hi1.
  { unfold s1. by destruct multi. }
  clearbody s1.
  unfold Pipeline.__init__, Pipeline.__call__. simpl.
  unfold Pipeline.step_forward, build_engine_from_inmemory_model. simpl.
  destruct fmt; [| |done];
    destruct (model_of (world s1)); try destruct (has_model (world s1));
    simpl; eexists _, _; (split; [done|]); simpl;
    rewrite Ht1, Hi1, <-(assoc_L (++)); split_and!; try done; set_solver.
Qed.
End loader.

Lemma call_without_engine_dir_builds_first_witness :
  let s := State (0%Z, AName "meta-llama/Llama-2-7b") [] [] in
  let steps :=
    [("Downloading HF model", _download_hf_model);
     ("Loading HF model to memory", _load_model_from_hf);
     ("Building TRT-LLM engine", _build_engine)] in
  _gather_build_steps (AName "meta-llama/Llama-2-7b") HF = Return steps
  ∧ ∃ s',
      __call__ fst (λ w, ((w.1 + 1)%Z, w.2)) snd (λ _, false)
        example_methods id (λ _ _ w, Done w)
        (Loader HF (Return false) steps) None s
      = (s', Raise (AssertionError EmptyString))
      ∧ trace s'
        = trace s ++ [] ++ (Step <$> Pipeline.steps_done 0 (length steps))
      ∧ ∃ latencies,
          length latencies = length steps
          ∧ build_steps_info s'
            = build_steps_info s ++ zip steps.*1 latencies.
Proof.
  intros s steps. split; [reflexivity|].
  apply (call_without_engine_dir_builds_first fst (λ w, ((w.1 + 1)%Z, w.2))
           snd (λ _, false) example_methods id (λ _ _ w, Done w)
           (AName "meta-llama/Llama-2-7b") HF false steps s).
  - reflexivity.
  - discriminate.
  - discriminate.
  - intros m w Hm. destruct m; [done|by eexists..].
Defined.

Lemma inmemory_module_is_never_built_witness :
  let s := State (0%Z, AModule) [] [] in
  let steps :=
    [("Build TensorRT-LLM engine", _build_engine_from_inmemory_model)] in
  _gather_build_steps AModule HF = Return steps
  ∧ ∃ s' e,
      __call__ fst (λ w, ((w.1 + 1)%Z, w.2)) snd (λ _, false)
        example_methods id (λ _ _ w, Done w)
        (Loader HF (Return false) steps) (Some "/engines/llama") s
      = (s', Raise e)
      ∧ class_name e ∈ ["AssertionError"; "AttributeError";
                        "NotImplementedError"]
      ∧ trace s' = trace s ++ [] ++ [Step (Pipeline.StepRun 0)]
      ∧ build_steps_info s' = build_steps_info s.
Proof.
  intros s steps. split; [reflexivity|].
  apply (inmemory_module_is_never_built fst (λ w, ((w.1 + 1)%Z, w.2))
           snd (λ _, false) example_methods id (λ _ _ w, Done w)
           HF HF false steps (Some "/engines/llama") s).
  - reflexivity.
  - discriminate.
Defined.

End ModelLoaderCallFacts.

(** * Facts about the build pipeline as its loader runs it *)

Module LoaderContextFacts.
Import ModelFormat ModelLoaderCall LoaderContext.

Section sequence.
Context {W : Type}.
Variable clock : W → Z.
Variable release_gc : W → W.

(** The loop of [BuildPipeline.__call__] does what the steps in sequence
    do. *)
Lemma step_forward_times_in_sequence n (p : Pipeline.pipeline W) :
  length (Pipeline.labels p) = length (Pipeline.step_handlers p) →
  Pipeline.counter p + n = length (Pipeline.labels p) →
  let ran :=
    in_sequence clock release_gc
      (drop (Pipeline.counter p)
         (zip (Pipeline.labels p) (Pipeline.step_handlers p)))
      (Pipeline.counter p) (Pipeline.world p) in
  let p' :=
    Pipeline.Pipeline_ (Pipeline.labels p) (Pipeline.step_handlers p)
      (Pipeline.counter p + length (run_entries ran))
      (Pipeline.build_steps_info p ++ run_entries ran)
      (run_world ran) (Pipeline.trace p ++ run_events ran) in
  Pipeline.step_forward_times clock release_gc n p
  = match run_error ran with
    | None => Done p'
    | Some e => Raised p' e
    end.
Proof.
  revert p. induction n as [|n IH]; intros p Hlen Hn.
  { rewrite drop_ge by (rewrite length_zip_with; lia). simpl.
    destruct p. simpl. by rewrite Nat.add_0_r, !(right_id_L [] (++)). }
  destruct (lookup_lt_is_Some_2 (Pipeline.labels p) (Pipeline.counter p))
    as [label Hlabel]; [lia|].
  destruct (lookup_lt_is_Some_2 (Pipeline.step_handlers p)
              (Pipeline.counter p)) as [handler Hhandler]; [lia|].
  assert (zip (Pipeline.labels p) (Pipeline.step_handlers p)
            !! Pipeline.counter p = Some (label, handler)) as Hzip.
  { apply lookup_zip_with_Some. by exists label, handler. }
  rewrite (drop_S _ _ _ Hzip). simpl.
  unfold Pipeline.step_forward. rewrite Hlabel. cbv beta iota zeta.
  rewrite Hhandler.
  destruct (handler (Pipeline.world p)) as [w|w e].
  - rewrite IH by (simpl; lia). simpl.
    destruct (run_error _); simpl;
      by rewrite Nat.add_succ_r, <-!(assoc_L (++)).
  - simpl. by rewrite Nat.add_0_r, (right_id_L [] (++)).
Qed.

(** What the steps in sequence come to: the events are those of the steps
    completed, in order and each with its reclaim, then the step that
    raised if one did; the entries are those of the steps completed. *)
Lemma in_sequence_shape (steps : list (string * Pipeline.handler W)) i w :
  let ran := in_sequence clock release_gc steps i w in
  let k := length (run_entries ran) in
  run_events ran
  = Pipeline.steps_done i k
    ++ match run_error ran with
       | Some _ => [Pipeline.StepRun (i + k)]
       | None => []
       end
  ∧ (run_entries ran).*1 = take k steps.*1
  ∧ match run_error ran with
    | Some _ => k < length steps
    | None => k = length steps
    end.
Proof.
  revert i w. induction steps as [|[label handler] steps IH]; intros i w.
  { done. }
  cbv zeta. simpl. destruct (handler w) as [w1|w1 e]; simpl.
  - specialize (IH (S i) (release_gc w1)). cbv zeta in IH.
    set (after := in_sequence clock release_gc steps (S i) (release_gc w1))
      in *.
    destruct IH as (He & Hl & Hk). split_and!.
    + rewrite He.
      by replace (i + S (length (run_entries after)))
        with (S i + length (run_entries after)) by lia.
    + f_equal. exact Hl.
    + destruct (run_error after); lia.
  - rewrite Nat.add_0_r. split_and!; [done|done|lia].
Qed.
End sequence.

Lemma zip_steps {A B C} (f : B → C) (l : list (A * B)) :
  zip l.*1 (f <$> l.*2) = (λ step, (step.1, f step.2)) <$> l.
Proof. induction l as [|[a b] l IH]; simpl; [done|]. f_equal. exact IH. Qed.

Section context.
Context {W : Type}.
Variable clock : W → Z.
Variable release_gc : W → W.
Variable model_of : W → model_arg.
Variable has_model : W → bool.
Variable bound : method → Pipeline.handler W.
Variable set_device : W → W.
Variable save : string → string → Pipeline.handler W.
Variable clear_attributes : W → W.

(** C6.  The pipeline of a loader, run as the module runs it, in the
    [with] block of the loader.  The steps gathered run strictly in the
    order of their registration.  A reclaim is forced after every step
    that ran: after a step that returned by [step_forward], which also
    records the entry of the step; after a step that raised by
    [__exit__] of the loader, the exception having left the pipeline
    before the [release_gc()] of [step_forward].  A step that raises
    ends the call with its exception: no later step runs, and the entries
    of the steps completed before it are in the statistics. *)
Theorem pipeline_runs_in_order (self : ModelLoader) engine_dir multi s :
  model_format self ≠ TLLM_ENGINE →
  is_multi_gpu self = Return multi →
  let start := if multi then set_device (world s) else world s in
  let ran :=
    in_sequence clock release_gc (steps_of model_of has_model bound self)
      0 start in
  let completed := length (run_entries ran) in
  let before :=
    InCall <$> (trace s ++ if multi then [SetDevice] else []) in
  let in_order := InCall <$> (Step <$> run_events ran) in
  run_events ran
  = Pipeline.steps_done 0 completed
    ++ match run_error ran with
       | Some _ => [Pipeline.StepRun completed]
       | None => []
       end
  ∧ (run_entries ran).*1 = take completed (_build_pipeline self).*1
  ∧ match run_error ran with
    | Some e =>
        completed < length (_build_pipeline self)
        ∧ with_model_loader clock release_gc model_of has_model bound
            set_device save clear_attributes self engine_dir s
          = ((release_gc (clear_attributes (run_world ran)),
              build_steps_info s ++ run_entries ran,
              before ++ in_order ++ [ExitReleaseGc]),
             Raise e)
    | None =>
        completed = length (_build_pipeline self)
        ∧ ∃ w' rest result,
            with_model_loader clock release_gc model_of has_model bound
              set_device save clear_attributes self engine_dir s
            = ((w', build_steps_info s ++ run_entries ran,
                before ++ in_order ++ rest ++ [ExitReleaseGc]),
               result)
            ∧ Forall (λ ev, ∀ step, ev ≠ InCall (Step step)) rest
    end.
Proof.
  intros Hfmt Hmulti start ran completed before in_order.
  destruct (in_sequence_shape clock release_gc
              (steps_of model_of has_model bound self) 0 start)
    as (Hevents & Hentries & Hcompleted).
  fold ran in Hevents, Hentries, Hcompleted.
  fold completed in Hevents, Hentries, Hcompleted.
  assert ((steps_of model_of has_model bound self).*1
          = (_build_pipeline self).*1) as Hlabels.
  { unfold steps_of. rewrite <-list_fmap_compose. by apply list_fmap_ext. }
  rewrite Hlabels in Hentries.
  assert (length (steps_of model_of has_model bound self)
          = length (_build_pipeline self)) as Hsteps.
  { unfold steps_of. by rewrite length_fmap. }
  rewrite Hsteps in Hcompleted.
  split; [done|]. split; [done|].
  unfold with_model_loader, __call__, __exit__. rewrite Hmulti.
  set (s1 := if multi then _ else s).
  assert (world s1 = start) as Hw1 by (unfold s1, start; by destruct multi).
  assert (build_steps_info s1 = build_steps_info s) as Hi1.
  { unfold s1. by destruct multi. }
  assert (InCall <$> trace s1 = before) as Ht1.
  { unfold s1, before. destruct multi; simpl; [done|].
    by rewrite (right_id_L [] (++)). }
  clearbody s1.
  unfold Pipeline.__init__. rewrite decide_True by by rewrite !length_fmap.
  unfold Pipeline.__call__. cbn [Pipeline.labels].
  rewrite (step_forward_times_in_sequence clock release_gc);
    [|simpl; by rewrite !length_fmap|done].
  cbn [Pipeline.labels Pipeline.step_handlers Pipeline.counter
       Pipeline.world Pipeline.build_steps_info Pipeline.trace].
  rewrite drop_0, zip_steps, Hw1, Hi1.
  change ((λ step, (step.1, step_handler model_of has_model bound step.2))
            <$> _build_pipeline self)
    with (steps_of model_of has_model bound self).
  fold ran. fold completed.
  destruct (run_error ran) as [e|] eqn:Herr.
  - split; [done|].
    destruct (model_format self); [| |done]; simpl;
      by rewrite fmap_app, Ht1, <-(assoc_L (++)).
  - split; [done|].
    assert (∀ tail : list ModelLoaderCall.event,
              InCall <$> ((trace s1 ++ (Step <$> run_events ran)) ++ tail)
              = before ++ in_order ++ (InCall <$> tail)) as Htrace.
    { intros tail. by rewrite !fmap_app, Ht1, <-(assoc_L (++)). }
    pose proof (Htrace []) as Hnil.
    rewrite (right_id_L [] (++)) in Hnil.
    destruct (model_format self); [| |done]; simpl;
      destruct engine_dir as [dir|]; simpl;
      try (destruct (model_dir (model_of (run_world ran))) as [from|e'];
           simpl;
           try (destruct (save from dir (run_world ran)) as [w'|w' e'];
                simpl)).
    all: first
      [ eexists _, [InCall (Save _ _)], _;
        split; [by rewrite Htrace, <-!(assoc_L (++))|by repeat constructor]
      | eexists _, [], _;
        split; [by rewrite Hnil, <-!(assoc_L (++))|by constructor] ].
Qed.
End context.

(** C6, at a local HF model whose engine build runs out of memory: the
    model is loaded and a reclaim follows, the build raises and the
    reclaim of [__exit__] follows; the entry of the first step is in the
    statistics. *)
Lemma pipeline_runs_in_order_witness :
  let self :=
    Loader HF (Return false)
      [("Loading HF model to memory", _load_model_from_hf);
       ("Building TRT-LLM engine", _build_engine)] in
  let s := State (0%Z, APath "/models/llama") [] [] in
  model_format self ≠ TLLM_ENGINE
  ∧ is_multi_gpu self = Return false
  ∧ with_model_loader fst (λ w, ((w.1 + 1)%Z, w.2)) snd (λ _, false)
      failing_build id (λ _ _ w, Done w) id self (Some "/engines/llama") s
    = (((39%Z, APath "/models/llama"),
        [("Loading HF model to memory", 31%Z)],
        [InCall (Step (Pipeline.StepRun 0));
         InCall (Step Pipeline.GcReleased);
         InCall (Step (Pipeline.StepRun 1));
         ExitReleaseGc]),
       Raise out_of_memory).
Proof.
  intros self s.
  assert (model_format self ≠ TLLM_ENGINE) as Hfmt by discriminate.
  assert (is_multi_gpu self = Return false) as Hmulti by reflexivity.
  split; [exact Hfmt|]. split; [exact Hmulti|].
  exact (proj2 (proj2 (proj2
           (pipeline_runs_in_order fst (λ w, ((w.1 + 1)%Z, w.2)) snd
              (λ _, false) failing_build id (λ _ _ w, Done w) id self
              (Some "/engines/llama") false s Hfmt Hmulti)))).
Defined.

End LoaderContextFacts.

(** * Facts about the extra build configurations of an engine *)

Module ExtraBuildConfigsFacts.
Import ModelFormat ExtraBuildConfigs.




End ExtraBuildConfigsFacts.

(** * Facts about [CalibConfig] *)

Module CalibFacts.
Import Calib.

Lemma list_find_key (config : kwargs) k v :
  NoDup config.*1 → (k, v) ∈ config →
  ∃ i, list_find (λ item, item.1 = k) config = Some (i, (k, v)).
Proof.
  induction config as [|[k' v'] config IH]; simpl.
  { by intros _ ?%elem_of_nil. }
  rewrite NoDup_cons. intros [Hk Hnd] [[= <- <-]|Hin]%elem_of_cons.
  - exists 0. by rewrite decide_True.
  - rewrite decide_False.
    2:{ simpl. intros ->. apply Hk.
        by apply (list_elem_of_fmap_2 fst _ (k, v)). }
    destruct (IH Hnd Hin) as [i ->]. by eexists.
Qed.

Lemma list_find_no_key (config : kwargs) k :
  k ∉ config.*1 → list_find (λ item, item.1 = k) config = None.
Proof.
  intros Hk. apply list_find_None, Forall_forall.
  intros [k' v'] Hin Heq. simpl in Heq. subst k'.
  apply Hk. by apply (list_elem_of_fmap_2 fst _ (k, v')).
Qed.

Lemma argument_given config k v :
  NoDup config.*1 → (k, v) ∈ config → argument config k = v.
Proof.
  intros Hnd Hin. unfold argument.
  by destruct (list_find_key _ _ _ Hnd Hin) as [i ->].
Qed.

(** X13.  [to_dict] and [from_dict] are inverse to each other as far as
    they can be.  A configuration is got back from its dict.  A dict is
    accepted exactly when all its keys are fields, the error otherwise
    being the [TypeError] for the first key that is not; the dict of the
    configuration made from it has the seven fields in the order of their
    declaration, with the values given and the defaults for the rest. *)
Theorem calib_config_round_trip c config :
  from_dict (to_dict c) = Return c
  ∧ match from_dict config with
    | Return c' =>
        config.*1 ⊆ fields.*1
        ∧ (to_dict c').*1 = fields.*1
        ∧ (NoDup config.*1 → ∀ k v, (k, v) ∈ config → (k, v) ∈ to_dict c')
        ∧ (∀ k v, (k, v) ∈ fields → k ∉ config.*1 → (k, v) ∈ to_dict c')
    | Raise e =>
        ∃ before k v after,
          config = before ++ (k, v) :: after
          ∧ before.*1 ⊆ fields.*1
          ∧ (k ∉ fields.*1)
          ∧ e = unexpected k
    end.
Proof.
  split; [by destruct c|].
  unfold from_dict.
  destruct (list_find (λ item, item.1 ∉ fields.*1) config)
    as [[i [k v]]|] eqn:E.
  - apply list_find_Some in E as (Hi & Hk & Hbefore).
    exists (take i config), k, v, (drop (S i) config).
    split_and!; [|  |done|done].
    + by rewrite <-(take_drop_middle _ _ _ Hi) at 1.
    + intros k' ([k'' v'] & -> & Hin)%list_elem_of_fmap.
      apply list_elem_of_lookup in Hin as [j Hj].
      pose proof (lookup_lt_Some _ _ _ Hj) as Hlt.
      rewrite length_take in Hlt.
      rewrite lookup_take_lt in Hj by lia.
      destruct (decide ((k'', v').1 ∈ fields.*1)) as [|Hn]; [done|].
      destruct (Hbefore j _ Hj); [lia|done].
  - apply list_find_None in E.
    assert (config.*1 ⊆ fields.*1) as Hsub.
    { intros k ([k' v] & -> & Hin)%list_elem_of_fmap.
      pose proof (proj1 (Forall_forall _ _) E _ Hin) as Hk. simpl in Hk.
      by destruct (decide (k' ∈ fields.*1)). }
    split_and!; [done|done| |].
    + intros Hnd k v Hin.
      assert (k ∈ fields.*1) as Hk.
      { apply Hsub. by apply (list_elem_of_fmap_2 fst _ (k, v)). }
      rewrite <-(argument_given _ _ _ Hnd Hin).
      unfold fields in Hk. simpl in Hk. unfold to_dict. simpl.
      set_solver.
    + intros k v Hin Hk.
      assert (argument config k
              = default VNone
                  (snd <$> (snd <$> list_find (λ f, f.1 = k) fields)))
        as Harg.
      { unfold argument. by rewrite (list_find_no_key _ _ Hk). }
      unfold fields in Hin.
      repeat (apply elem_of_cons in Hin as [[= -> ->]|Hin];
              [unfold to_dict; simpl; rewrite Harg; set_solver|]).
      by apply elem_of_nil in Hin.
Qed.

End CalibFacts.

(** * Facts about [_ParallelConfig] *)

Module ParallelConfigFacts.
Import ParallelConfig.

Lemma length_range n : Z.of_nat (length (range n)) = Z.max 0 n.
Proof. unfold range. rewrite length_fmap, length_seq. lia. Qed.

Lemma manual_world_size tp pp c :
  manual tp pp c → world_size c = Return (tp * pp)%Z.
Proof.
  intros (<- & <- & Hauto & Hw & _). unfold world_size.
  by rewrite Hauto, Hw.
Qed.

Lemma manual_assign tp pp a c :
  manual tp pp c → manual tp pp (final_state (assign a c)).
Proof.
  intros Hc. pose proof (manual_world_size _ _ _ Hc) as Hws.
  destruct Hc as (Htp & Hpp & Hauto & Hw & Hds).
  destruct a as [w|ds]; simpl.
  - unfold set_world_size. rewrite Hauto.
    by destruct (negb _).
  - unfold set_devices. rewrite Hws.
    destruct (Z.of_nat (length ds) =? tp * pp)%Z eqn:E; simpl; [|done].
    split_and!; try done. intros ds' [= <-]. lia.
Qed.

Lemma manual_assign_all tp pp l c :
  manual tp pp c → manual tp pp (assign_all l c).
Proof.
  revert c. induction l as [|a l IH]; intros c Hc; [done|].
  apply IH. by apply manual_assign.
Qed.

(** X14.  Without auto-parallel mode the world size is [tp_size * pp_size]
    and stays so: whatever is assigned to [world_size] and [devices]
    afterwards, reading [world_size] never raises, an assignment to
    [world_size] stores nothing and is accepted exactly for the product,
    and the list [devices] gives has as many entries as the world size
    (none when the product is negative). *)
Theorem manual_world_size_is_product tp pp l :
  let c := assign_all l (__init__ tp pp false) in
  world_size c = Return (tp * pp)%Z
  ∧ (∀ w, final_state (set_world_size w c) = c
          ∧ (raised (set_world_size w c) = None ↔ w = (tp * pp)%Z))
  ∧ ∃ ds, devices c = Return ds
          ∧ Z.of_nat (length ds) = Z.max 0 (tp * pp).
Proof.
  intros c.
  assert (manual tp pp c) as Hc.
  { apply manual_assign_all. by split_and!. }
  pose proof (manual_world_size _ _ _ Hc) as Hws.
  destruct Hc as (Htp & Hpp & Hauto & Hw & Hds).
  split_and!; [done| |].
  - intros w. unfold set_world_size. rewrite Hauto, Htp, Hpp.
    destruct (w =? tp * pp)%Z eqn:E; simpl; (split; [done|]).
    + apply Z.eqb_eq in E. by split.
    + apply Z.eqb_neq in E. by split.
  - unfold devices. rewrite Hws. destruct (_devices c) as [ds|] eqn:E.
    + exists ds. split; [done|]. pose proof (Hds _ eq_refl). lia.
    + exists (range (tp * pp)). split; [done|]. apply length_range.
Qed.

(** X15.  In auto-parallel mode an assignment to [world_size] is stored as
    it is, and read back unless a manual [tp_size] or [pp_size] above one
    makes every read raise [RuntimeError]; the devices assigned before
    stay, whatever their number. *)
Theorem auto_parallel_world_size c w :
  auto_parallel c = true →
  ∃ c',
    set_world_size w c = Done c'
    ∧ world_size c'
      = (if (1 <? tp_size c)%Z || (1 <? pp_size c)%Z then
           Raise (RuntimeError
                    "manually TP and PP are not supported in auto parallel mode.")
         else Return w)
    ∧ _devices c' = _devices c
    ∧ (∀ ds, _devices c = Some ds → devices c' = Return ds).
Proof.
  intros Hauto. unfold set_world_size. rewrite Hauto. eexists.
  split; [done|]. unfold world_size, devices. simpl.
  split_and!; [done|done|]. by intros ds ->.
Qed.

Lemma auto_parallel_world_size_witness :
  let c := ParallelConfig_ 1 1 true 2 (Some [0; 1]%Z) in
  auto_parallel c = true
  ∧ ∃ c',
      set_world_size 8 c = Done c'
      ∧ world_size c'
        = (if (1 <? tp_size c)%Z || (1 <? pp_size c)%Z then
             Raise (RuntimeError
                      "manually TP and PP are not supported in auto parallel mode.")
           else Return 8%Z)
      ∧ _devices c' = _devices c
      ∧ (∀ ds, _devices c = Some ds → devices c' = Return ds).
Proof.
  intros c. split; [reflexivity|].
  apply (auto_parallel_world_size c 8). reflexivity.
Defined.

(** X16.  An assignment to [devices] is accepted exactly when reading
    [world_size] returns the length of the list; the list is then what
    [devices] gives.  Otherwise the configuration is as it was, and the
    error is the one of [world_size] or a [ValueError]. *)
Theorem devices_assignment c ds :
  match set_devices ds c with
  | Done c' =>
      world_size c = Return (Z.of_nat (length ds))
      ∧ devices c' = Return ds
      ∧ world_size c' = world_size c
  | Raised c' e =>
      c' = c
      ∧ world_size c ≠ Return (Z.of_nat (length ds))
      ∧ (world_size c = Raise e ∨ class_name e = "ValueError")
  end.
Proof.
  unfold set_devices. destruct (world_size c) as [w|e] eqn:Hw.
  - destruct (Z.of_nat (length ds) =? w)%Z eqn:E; simpl.
    + apply Z.eqb_eq in E as <-. split_and!; [done|done|].
      revert Hw. unfold world_size. simpl. done.
    + apply Z.eqb_neq in E. split_and!; [done|congruence|by right].
  - split_and!; [done|done|by left].
Qed.

Section from_kwargs.
Context {A : Type}.
Variable check : option exn.
Variable cls : _ParallelConfig → kwargs → result A.
Variable setup : A → result A.

(** X17.  When [from_kwargs] returns, the class was constructed with a
    parallel configuration that has the sizes and the mode given (1, 1 and
    off when not given).  Without auto-parallel mode the argument
    [world_size] is not looked at: reading [world_size] gives
    [tp_size * pp_size]; in auto-parallel mode it is stored.  Devices that
    were given (an empty list counts as none) are as many as the world size
    and are what [devices] gives. *)
Theorem from_kwargs_parallel_config kw r :
  from_kwargs check cls setup kw = Return r →
  ∃ c r0,
    cls c (kw_rest kw) = Return r0
    ∧ setup r0 = Return r
    ∧ tp_size c = default 1%Z (kw_tensor_parallel_size kw)
    ∧ pp_size c = default 1%Z (kw_pipeline_parallel_size kw)
    ∧ auto_parallel c = default false (kw_auto_parallel kw)
    ∧ (if auto_parallel c then
         _world_size c = default 1%Z (kw_world_size kw)
       else world_size c = Return (tp_size c * pp_size c)%Z)
    ∧ match kw_devices kw with
      | Some (d :: ds) =>
          devices c = Return (d :: ds)
          ∧ world_size c = Return (Z.of_nat (length (d :: ds)))
      | _ => _devices c = None
      end.
Proof.
  unfold from_kwargs. destruct check; [done|].
  destruct kw as [tp pp auto w ds rest]. simpl.
  set (tp' := default 1%Z tp). set (pp' := default 1%Z pp).
  set (w' := default 1%Z w).
  assert (∀ c, match cls c rest with
               | Return ret => setup ret
               | Raise e => Raise e
               end = Return r →
               ∃ r0, cls c rest = Return r0 ∧ setup r0 = Return r) as Hcls.
  { intros c. destruct (cls c rest) as [r0|]; [|done]. by exists r0. }
  destruct (default false auto) eqn:Hauto; unfold set_world_size; simpl.
  - destruct ds as [[|d ds]|].
    + intros (r0 & ? & ?)%Hcls. eexists _, r0. by split_and!.
    + unfold set_devices, world_size.
      cbn [auto_parallel tp_size pp_size _world_size].
      destruct ((1 <? tp')%Z || (1 <? pp')%Z) eqn:Hm; [done|].
      destruct (Z.of_nat (length (d :: ds)) =? w')%Z eqn:E; cbn [negb];
        [|done].
      apply Z.eqb_eq in E.
      intros (r0 & ? & ?)%Hcls. eexists _, r0.
      split_and!; try done. unfold devices, world_size.
      cbn [auto_parallel tp_size pp_size _world_size _devices].
      rewrite Hm. exact (f_equal Return (eq_sym E)).
    + intros (r0 & ? & ?)%Hcls. eexists _, r0. by split_and!.
  - destruct ds as [[|d ds]|].
    + intros (r0 & ? & ?)%Hcls. eexists _, r0. by split_and!.
    + unfold set_devices, world_size, __init__.
      cbn [auto_parallel tp_size pp_size _world_size].
      change (1 <? 1)%Z with false. cbv iota.
      destruct (Z.of_nat (length (d :: ds)) =? tp' * pp')%Z eqn:E;
        cbn [negb]; [|done].
      apply Z.eqb_eq in E.
      intros (r0 & ? & ?)%Hcls. eexists _, r0.
      split_and!; try done. unfold devices, world_size.
      cbn [auto_parallel tp_size pp_size _world_size _devices].
      exact (f_equal Return (eq_sym E)).
    + intros (r0 & ? & ?)%Hcls. eexists _, r0. by split_and!.
Qed.
End from_kwargs.

Lemma from_kwargs_parallel_config_witness :
  let kw :=
    ParallelKwargs (Some 2%Z) None None (Some 7%Z) (Some [0; 1]%Z) [] in
  let cls := λ (c : _ParallelConfig) (_ : kwargs), Return c in
  let r := ParallelConfig_ 2 1 false 1 (Some [0; 1]%Z) in
  from_kwargs None cls Return kw = Return r
  ∧ ∃ c r0,
      cls c (kw_rest kw) = Return r0
      ∧ Return r0 = Return r
      ∧ tp_size c = 2%Z
      ∧ pp_size c = 1%Z
      ∧ auto_parallel c = false
      ∧ (if auto_parallel c then _world_size c = 7%Z
         else world_size c = Return (tp_size c * pp_size c)%Z)
      ∧ devices c = Return [0; 1]%Z
      ∧ world_size c = Return 2%Z.
Proof.
  intros kw cls r.
  assert (from_kwargs None cls Return kw = Return r) as H by reflexivity.
  split; [exact H|].
  exact (from_kwargs_parallel_config None cls Return kw r H).
Defined.

End ParallelConfigFacts.

(** * Facts about [LlmArgs] *)

Module LlmArgumentsFacts.
Import ModelFormat ParallelConfig LlmArguments LlmArgumentsAux.

Lemma existsb_nonpositive window :
  existsb (λ i, (i <=? 0)%Z) window = false ↔ Forall (λ i, 0 < i)%Z window.
Proof.
  induction window as [|i window IH]; simpl.
  { split; [by constructor|done]. }
  rewrite orb_false_iff, IH, Forall_cons. split.
  - intros [?%Z.leb_gt ?]. by split.
  - intros [??]. split; [by apply Z.leb_gt|done].
Qed.

(** X18.  [_validate_kv_cache_config] changes nothing.  It returns when
    there is a [KvCacheConfig] whose [max_attention_window] is a list of
    positive numbers (an empty list among them) and whose
    [sink_token_length] is a positive number, and raises [ValueError]
    otherwise. *)
Theorem validate_kv_cache_config_spec s :
  match _validate_kv_cache_config s with
  | (s', Return _) =>
      s' = s ∧ ∃ kv, kv_cache_config s = Some kv ∧ valid_for_streaming kv
  | (s', Raise e) =>
      s' = s ∧ class_name e = "ValueError"
      ∧ ∀ kv, kv_cache_config s = Some kv → ¬ valid_for_streaming kv
  end.
Proof.
  unfold valid_for_streaming. run_args.
  destruct (kv_cache_config s) as [kv|] eqn:Hkv; simpl; [|by split_and!].
  destruct (max_attention_window kv) as [window|] eqn:Hwin; simpl.
  2:{ split_and!; [done..|]. intros ? [= <-] (? & ? & ? & _). congruence. }
  destruct (existsb _ window) eqn:Hw; simpl.
  { split_and!; [done..|]. intros ? [= <-] (? & ? & ? & Hpos & _).
    simplify_eq. apply existsb_nonpositive in Hpos. congruence. }
  destruct (sink_token_length kv) as [n|] eqn:Hsink; simpl.
  2:{ split_and!; [done..|].
      intros ? [= <-] (? & ? & _ & _ & ? & _). congruence. }
  destruct (n <=? 0)%Z eqn:Hn; simpl.
  { split_and!; [done..|]. intros ? [= <-] (? & ? & _ & _ & ? & ?).
    simplify_eq. lia. }
  split; [done|]. exists kv. split; [done|]. exists window, n.
  split_and!; [done| |done|lia]. by apply existsb_nonpositive.
Qed.

(** X19.  Loading the configuration of an engine replaces the build
    configuration by the one of the engine, before any check.  The call
    returns exactly when [tp_size] and [pp_size] are each 1 or the size the
    engine was built with; the parallel configuration is then a new one with
    the sizes of the engine, in which auto-parallel mode is off and no
    devices are set, so that reading its [world_size] gives their product.
    Otherwise it raises [ValueError] and the parallel configuration is as
    before. *)
Theorem load_config_from_engine_spec engine_config s :
  let c := parallel_config s in
  let mapping := engine_pretrained_config engine_config in
  let tp := mapping_tp_size mapping in
  let pp := mapping_pp_size mapping in
  let consistent :=
    (tp_size c = 1 ∨ tp_size c = tp)%Z ∧ (pp_size c = 1 ∨ pp_size c = pp)%Z in
  match _load_config_from_engine (Return engine_config) s with
  | (s', Return _) =>
      consistent
      ∧ build_config s' = Some (engine_build_config engine_config)
      ∧ parallel_config s' = ParallelConfig.__init__ tp pp false
      ∧ world_size (parallel_config s') = Return (tp * pp)%Z
  | (s', Raise e) =>
      ¬ consistent
      ∧ class_name e = "ValueError"
      ∧ build_config s' = Some (engine_build_config engine_config)
      ∧ parallel_config s' = c
  end.
Proof.
  run_args.
  destruct (tp_size (parallel_config s) =? 1)%Z eqn:E1;
    destruct (tp_size (parallel_config s)
              =? mapping_tp_size (engine_pretrained_config engine_config))%Z
      eqn:E2;
    destruct (pp_size (parallel_config s) =? 1)%Z eqn:E3;
    destruct (pp_size (parallel_config s)
              =? mapping_pp_size (engine_pretrained_config engine_config))%Z
      eqn:E4; simpl;
    rewrite ?Z.eqb_eq, ?Z.eqb_neq in *;
    split_and!; try done; try tauto; try (intros [[?|?] [?|?]]; done).
Qed.

(** X20.  Loading the configuration of a checkpoint.  Without auto-parallel
    mode the call returns exactly when [tp_size] and [pp_size] are each 1
    or the size of the checkpoint, and the parallel configuration is then a
    new one with the sizes of the checkpoint.  In auto-parallel mode a call
    that returns leaves the parallel configuration as it is.  A call that
    raises changes nothing. *)
Theorem load_config_from_ckpt_spec mapping s :
  let c := parallel_config s in
  let tp := mapping_tp_size mapping in
  let pp := mapping_pp_size mapping in
  let consistent :=
    (tp_size c = 1 ∨ tp_size c = tp)%Z ∧ (pp_size c = 1 ∨ pp_size c = pp)%Z in
  match _load_config_from_ckpt (Return mapping) s with
  | (s', Return _) =>
      consistent
      ∧ if auto_parallel c then s' = s
        else parallel_config s' = ParallelConfig.__init__ tp pp false
  | (s', Raise e) =>
      s' = s ∧ (auto_parallel c = false → ¬ consistent)
  end.
Proof.
  run_args.
  destruct (tp_size (parallel_config s) =? 1)%Z eqn:E1;
    destruct (tp_size (parallel_config s) =? mapping_tp_size mapping)%Z
      eqn:E2;
    destruct (pp_size (parallel_config s) =? 1)%Z eqn:E3;
    destruct (pp_size (parallel_config s) =? mapping_pp_size mapping)%Z
      eqn:E4; simpl;
    rewrite ?Z.eqb_eq, ?Z.eqb_neq in *;
    try (split; [done|]; intros _ [[?|?] [?|?]]; done);
    destruct (auto_parallel (parallel_config s)) eqn:Hauto; simpl;
    try (split; [tauto|done]);
    destruct (world_size (parallel_config s)) as [w|e]; simpl;
    try done;
    destruct (negb (w =? 1)%Z && negb (mapping_world_size mapping =? 1)%Z);
    simpl; try done; split; tauto.
Qed.

(** X21.  [_setup_embedding_parallel_mode] returns for the three modes it
    knows: it sets [use_parallel_embedding] and [share_embedding_table],
    and [embedding_sharding_dim] for the two sharding modes; for ['NONE']
    an [embedding_sharding_dim] set before stays.  For any other mode it
    changes nothing and raises; on an instance without an attribute
    [llm_args] the error is the [AttributeError] of formatting the message,
    not the [ValueError] the message was meant for. *)
Theorem setup_embedding_parallel_mode_spec s :
  let mode := embedding_parallel_mode s in
  let options := _convert_checkpoint_options s in
  let share := VBool (share_embedding_table s) in
  match _setup_embedding_parallel_mode s with
  | (s', Return _) =>
      (mode = "NONE"
       ∧ _convert_checkpoint_options s'
         = <["share_embedding_table" := share]>
             (<["use_parallel_embedding" := VBool false]> options))
      ∨ (∃ dim,
           (mode = "SHARDING_ALONG_VOCAB" ∧ dim = 0%Z
            ∨ mode = "SHARDING_ALONG_HIDDEN" ∧ dim = 1%Z)
           ∧ _convert_checkpoint_options s'
             = <["share_embedding_table" := share]>
                 (<["embedding_sharding_dim" := VInt dim]>
                    (<["use_parallel_embedding" := VBool true]> options)))
  | (s', Raise e) =>
      s' = s
      ∧ (mode ∉ ["NONE"; "SHARDING_ALONG_VOCAB"; "SHARDING_ALONG_HIDDEN"])
      ∧ (llm_args s = None → class_name e = "AttributeError")
  end.
Proof.
  run_args. repeat case_bool_decide; simpl.
  - by left.
  - right. exists 0%Z. split; [by left|done].
  - right. exists 1%Z. split; [by right|done].
  - destruct (llm_args s); simpl; (split; [done|]); (split; [set_solver|]);
      done.
Qed.

End LlmArgumentsFacts.

(** * Facts about the arbitration of [LlmArgs] *)

Module ArbitrationFacts.
Import ModelFormat ParallelConfig LlmArguments LlmArgumentsAux.
Import ArbitrationOutcome Arbitrator ArbitratorFacts.

Lemma object_after_assigned st configs name obj :
  NoDup configs.*1 → (name, obj) ∈ configs →
  object_after (apply_configs st configs) name obj
  = config_view st name ∪ obj.
Proof.
  intros Hnd Hin. rewrite apply_configs_assigned.
  unfold object_after, assigned.
  revert Hnd Hin. induction configs as [|[n o] configs IH]; simpl.
  { by intros _ ?%elem_of_nil. }
  rewrite NoDup_cons. intros [Hn Hnd] [[= <- <-]|Hin]%elem_of_cons.
  - by rewrite decide_True.
  - rewrite decide_False.
    2:{ intros ->. apply Hn.
        by apply (list_elem_of_fmap_2 fst _ (name, obj)). }
    specialize (IH Hnd Hin).
    destruct (list_find _ _) as [[i [n' o']]|]; simpl in *; done.
Qed.

(** The three objects [arbitrator_call] hands to the arbitrator, after the
    call. *)
Lemma objects_after st pc kva ba :
  let configs :=
    apply_configs st
      [("plugin_config", pc); ("kv_cache_config", kva);
       ("build_config", ba)] in
  object_after configs "plugin_config" pc
  = config_view st "plugin_config" ∪ pc
  ∧ object_after configs "kv_cache_config" kva
    = config_view st "kv_cache_config" ∪ kva
  ∧ object_after configs "build_config" ba
    = config_view st "build_config" ∪ ba.
Proof.
  assert (NoDup ["plugin_config"; "kv_cache_config"; "build_config"]).
  { refine (bool_decide_unpack _ _). vm_compute. exact I. }
  split_and!; apply object_after_assigned; simpl; try done; set_solver.
Qed.

(** ** The steps of the arbitration, one by one *)

Lemma bind_run {A B} (m : M A) (f : A → M B) s :
  (m ≫= f) s
  = match m s with
    | (s', Return a) => f a s'
    | (s', Raise e) => (s', Raise e)
    end.
Proof. done. Qed.

Lemma run_the_build_config attribute s b :
  build_config s = Some b → the_build_config attribute s = (s, Return b).
Proof. intros H. run_args. by rewrite H. Qed.

Lemma run_getattr cls obj name v (s : LlmArgs) :
  obj !! name = Some v → of_result (getattr cls obj name) s = (s, Return v).
Proof. intros H. unfold getattr. by rewrite H. Qed.

Lemma run_claim_func func name options s arb :
  _config_arbitrator s = Some arb →
  arbitrator_claim_func func name options s
  = (with_arbitrator s (Some (claim_func func name options arb)), Return tt).
Proof. intros H. run_args. by rewrite H. Qed.

Lemma run_claim_func_with func name options s arb :
  arbitrator_claim_func func name options (with_arbitrator s (Some arb))
  = (with_arbitrator s (Some (claim_func func name options arb)), Return tt).
Proof. done. Qed.

Lemma run_claim_perf perf name fb options s arb :
  _config_arbitrator s = Some arb →
  arbitrator_claim_perf perf name fb options s
  = (with_arbitrator s (Some (claim_perf perf name fb options arb)),
     Return tt).
Proof. intros H. run_args. by rewrite H. Qed.

Lemma run_setup info name kw s arb :
  _config_arbitrator s = Some arb →
  arbitrator_setup info name kw s
  = match setup info name kw arb with
    | Done arb' => (with_arbitrator s (Some arb'), Return tt)
    | Raised arb' e => (with_arbitrator s (Some arb'), Raise e)
    end.
Proof.
  intros H. unfold arbitrator_setup, the_config_arbitrator.
  unfold mbind, M_bind, bind, get, ret. simpl. rewrite H.
  by destruct (setup info name kw arb).
Qed.

Lemma with_arbitrator_id s arb :
  _config_arbitrator s = Some arb → with_arbitrator s (Some arb) = s.
Proof. destruct s. simpl. by intros ->. Qed.

Lemma run_pre_ampere pa name opt s arb :
  _config_arbitrator s = Some arb →
  (if negb pa then
     arbitrator_setup "pre-ampere not supported" name [(opt, VBool false)]
   else ret tt) s
  = match setup_pre_ampere pa name opt arb with
    | Done arb' => (with_arbitrator s (Some arb'), Return tt)
    | Raised arb' e => (with_arbitrator s (Some arb'), Raise e)
    end.
Proof.
  intros Harb. unfold setup_pre_ampere. destruct pa; cbn [negb]; cbv iota.
  - by rewrite with_arbitrator_id.
  - by apply run_setup.
Qed.

Lemma run_chunked s arb :
  _config_arbitrator s = Some arb →
  build_config_mutable s = true →
  _setup_enable_chunked_context s
  = (with_arbitrator s
       (Some (claims_chunked (enable_chunked_context s) arb)), Return tt).
Proof.
  destruct s as [? ? ? ? ? ? ? ? ? chunked ? ? ?].
  unfold build_config_mutable. simpl. intros -> Hmut.
  run_args. unfold build_config_mutable. simpl. rewrite Hmut.
  by destruct chunked.
Qed.

Lemma existsb_positive window :
  Forall (λ i, 0 < i)%Z window → existsb (λ i, (i <=? 0)%Z) window = false.
Proof.
  induction 1 as [|i l Hi _ IH]; simpl; [done|].
  rewrite IH. by replace (i <=? 0)%Z with false by lia.
Qed.

Lemma run_validate s kv :
  kv_cache_config s = Some kv → valid_for_streaming kv →
  _validate_kv_cache_config s = (s, Return tt).
Proof.
  intros Hkv (window & n & Hwin & Hpos & Hsink & Hn). run_args.
  rewrite Hkv, Hwin, (existsb_positive _ Hpos), Hsink.
  by replace (n <=? 0)%Z with false by lia.
Qed.

Lemma run_streaming s b kv streaming arb :
  _config_arbitrator s = Some arb →
  build_config s = Some b →
  plugin_config b !! "streamingllm" = Some (VBool streaming) →
  kv_cache_config s = Some kv →
  (streaming = true → valid_for_streaming kv) →
  _setup_enable_streaming_llm s
  = (with_arbitrator s (Some (claims_streaming streaming arb)), Return tt).
Proof.
  intros Harb Hb Hs Hkv Hvalid.
  unfold _setup_enable_streaming_llm.
  rewrite bind_run, (run_the_build_config _ s b) by done. cbv beta iota.
  rewrite bind_run, (run_getattr _ _ _ _ _ Hs). cbv beta iota. cbn [truthy].
  destruct streaming; cbv iota; [|by rewrite with_arbitrator_id].
  rewrite bind_run, (run_validate s kv) by auto. cbv beta iota.
  rewrite bind_run, (run_claim_func _ _ _ s arb) by done. cbv beta iota.
  by rewrite run_claim_func_with.
Qed.

Lemma run_quant s q arb :
  _config_arbitrator s = Some arb →
  quant_config s = Some q →
  _setup_quant_config s
  = (with_arbitrator s (Some (claims_fp8 (is_fp8 q) arb)), Return tt).
Proof.
  intros Harb Hq. unfold _setup_quant_config, is_fp8.
  unfold mbind, M_bind, bind, get. rewrite Hq.
  destruct (quant_algo q) as [[|name]|];
    [by apply run_claim_func|by rewrite with_arbitrator_id..].
Qed.

Lemma run_beam (beam : bool) s arb :
  _config_arbitrator s = Some arb →
  (if beam then
     arbitrator_claim_func "beam_search (beam_width > 1)" "kv_cache_config"
       [("enable_block_reuse", VBool false)]
   else ret tt) s
  = (with_arbitrator s (Some (claims_beam beam arb)), Return tt).
Proof.
  intros Harb. destruct beam; [by apply run_claim_func|].
  by rewrite with_arbitrator_id.
Qed.

Lemma run_kv pa s kv reuse arb :
  _config_arbitrator s = Some arb →
  kv_cache_config s = Some kv →
  kv_attrs kv !! "enable_block_reuse" = Some (VBool reuse) →
  _setup_kv_cache_config pa s
  = match setup_pre_ampere pa "kv_cache_config" "enable_block_reuse" arb with
    | Done arb' =>
        (with_arbitrator s (Some (claims_reuse reuse arb')), Return tt)
    | Raised arb' e => (with_arbitrator s (Some arb'), Raise e)
    end.
Proof.
  intros Harb Hkv Hr. unfold _setup_kv_cache_config.
  unfold mbind at 1, M_bind, bind at 1, get. rewrite Hkv.
  rewrite bind_run, (run_pre_ampere _ _ _ s arb) by done.
  destruct (setup_pre_ampere _ _ _ arb) as [arb'|arb' e]; [|done].
  rewrite bind_run, (run_getattr _ _ _ _ _ Hr). cbv beta iota.
  cbn [truthy]. destruct reuse; cbv iota; [|done].
  rewrite bind_run, run_claim_func_with. cbv beta iota.
  by rewrite run_claim_func_with.
Qed.

Lemma run_call s b kv arb :
  _config_arbitrator s = Some arb →
  build_config s = Some b →
  kv_cache_config s = Some kv →
  arbitrator_call s
  = match Arbitrator.__call__ arb
            [("plugin_config", plugin_config b);
             ("kv_cache_config", kv_attrs kv);
             ("build_config", build_attrs b)] with
    | Raised (arb', _) e => (with_arbitrator s (Some arb'), Raise e)
    | Done (arb', configs) =>
        perform_all (Arbitrator.effects arb')
          (LlmArgs_ (model_format s) (parallel_config s)
             (Some (BuildConfig_ (build_fields b)
                      (object_after configs "build_config" (build_attrs b))
                      (plugin_fields b)
                      (object_after configs "plugin_config"
                         (plugin_config b))))
             (quant_config s)
             (Some (KvCacheConfig_
                      (object_after configs "kv_cache_config" (kv_attrs kv))
                      (max_attention_window kv) (sink_token_length kv)))
             (_pretrained_config s) (embedding_parallel_mode s)
             (share_embedding_table s) (_convert_checkpoint_options s)
             (enable_chunked_context s) (Some arb') (llm_args s)
             (warnings s))
    end.
Proof.
  intros Harb Hb Hkv. unfold arbitrator_call, the_config_arbitrator,
    the_build_config.
  unfold mbind, M_bind, bind, get, ret, raise. rewrite Harb, Hb, Hkv.
  cbv beta iota.
  by destruct (Arbitrator.__call__ _ _) as [[arb' configs]|[arb' ?] e].
Qed.

Lemma run_set_config_arbitrator arb s :
  set_config_arbitrator arb s = (with_arbitrator s arb, Return tt).
Proof. done. Qed.

Lemma run_set_build_config b s :
  set_build_config b s = (with_build_config s b, Return tt).
Proof. done. Qed.

Lemma run_get (s : LlmArgs) : get s = (s, Return s).
Proof. done. Qed.

Lemma run_ret {A} (a : A) (s : LlmArgs) : ret a s = (s, Return a).
Proof. done. Qed.

Lemma run_py_gt (z n : Z) (s : LlmArgs) :
  of_result (py_gt (VInt z) n) s = (s, Return (n <? z)%Z).
Proof. done. Qed.

Lemma with_arbitrator_twice s a a' :
  with_arbitrator (with_arbitrator s a) a' = with_arbitrator s a'.
Proof. done. Qed.

Lemma with_build_config_arbitrator s a b :
  with_build_config (with_arbitrator s a) b
  = with_arbitrator (with_build_config s b) a.
Proof. done. Qed.

Lemma enable_chunked_context_with s a :
  enable_chunked_context (with_arbitrator s a) = enable_chunked_context s.
Proof. done. Qed.

Ltac mstep :=
  repeat rewrite bind_run;
  first
    [ rewrite run_set_config_arbitrator
    | rewrite run_set_build_config
    | rewrite run_get
    | rewrite run_ret
    | rewrite run_py_gt
    | erewrite run_the_build_config by (first [eassumption|reflexivity])
    | erewrite run_getattr by eassumption
    | erewrite run_pre_ampere by (first [eassumption|reflexivity])
    | erewrite run_beam by (first [eassumption|reflexivity])
    | erewrite run_chunked by (first [eassumption|reflexivity])
    | erewrite run_streaming by (first [eassumption|reflexivity])
    | erewrite run_quant by (first [eassumption|reflexivity])
    | erewrite run_claim_func by (first [eassumption|reflexivity])
    | erewrite run_kv by (first [eassumption|reflexivity])
    | erewrite run_call by (first [eassumption|reflexivity]) ];
  cbv beta iota;
  rewrite ?with_build_config_arbitrator, ?with_arbitrator_twice,
    ?enable_chunked_context_with.

(** The arbitration of the claims [LlmArgs] makes, for all the ways its
    features can be on and off: first as a check that is computed, then as
    the statement the check decides. *)
Lemma arbitrate_claims_check pa chunked streaming fp8 beam reuse :
  match arbitrator_before_call pa chunked streaming fp8 beam reuse with
  | Raised _ _ => false
  | Done st =>
      match _arbitrate st with
      | Done st' =>
          bool_decide
            (reuse && (forced_off pa streaming fp8
                       || reuse_off pa streaming beam) = false)
          && bool_decide
               (config_view st' "plugin_config"
                = set_flag "use_paged_context_fmha"
                    (paged pa chunked streaming fp8 reuse)
                    (if streaming then {["streamingllm" := VBool true]}
                     else ∅))
          && bool_decide
               (config_view st' "kv_cache_config"
                = set_flag "enable_block_reuse"
                    (block pa streaming beam reuse) ∅)
          && bool_decide (config_view st' "build_config" = ∅)
          && bool_decide
               (effects st'
                = (if chunked && forced_off pa streaming fp8 then
                     [LogWarning (ignore_message "chunked_context"
                                    "use_paged_context_fmha");
                      CallFallback "fallback"]
                   else []))
      | Raised _ e =>
          bool_decide
            (reuse && (forced_off pa streaming fp8
                       || reuse_off pa streaming beam) = true)
          && bool_decide
               (e = ConfigArbitrateError
                      (conflict_message (blamed_option streaming fp8)
                         (VBool true) "enable_block_reuse"
                         (blamed_feature pa streaming fp8) (VBool false)))
      end
  end = true.
Proof.
  destruct pa, chunked, streaming, fp8, beam, reuse; vm_compute;
    reflexivity.
Qed.

Lemma arbitrate_claims pa chunked streaming fp8 beam reuse :
  match arbitrator_before_call pa chunked streaming fp8 beam reuse with
  | Raised _ _ => False
  | Done st =>
      match _arbitrate st with
      | Done st' =>
          reuse && (forced_off pa streaming fp8
                    || reuse_off pa streaming beam) = false
          ∧ config_view st' "plugin_config"
            = set_flag "use_paged_context_fmha"
                (paged pa chunked streaming fp8 reuse)
                (if streaming then {["streamingllm" := VBool true]} else ∅)
          ∧ config_view st' "kv_cache_config"
            = set_flag "enable_block_reuse" (block pa streaming beam reuse) ∅
          ∧ config_view st' "build_config" = ∅
          ∧ effects st'
            = (if chunked && forced_off pa streaming fp8 then
                 [LogWarning (ignore_message "chunked_context"
                                "use_paged_context_fmha");
                  CallFallback "fallback"]
               else [])
      | Raised _ e =>
          reuse && (forced_off pa streaming fp8
                    || reuse_off pa streaming beam) = true
          ∧ e = ConfigArbitrateError
                  (conflict_message (blamed_option streaming fp8)
                     (VBool true) "enable_block_reuse"
                     (blamed_feature pa streaming fp8) (VBool false))
      end
  end.
Proof.
  pose proof (arbitrate_claims_check pa chunked streaming fp8 beam reuse)
    as H.
  destruct (arbitrator_before_call _ _ _ _ _ _) as [st|]; [|done].
  destruct (_arbitrate st) as [st'|st' e];
    rewrite !andb_true_iff, !bool_decide_eq_true in H; tauto.
Qed.

Lemma plugin_after_call paged streaming (pc : config_object) :
  pc !! "streamingllm" = Some (VBool streaming) →
  set_flag "use_paged_context_fmha" paged
    (if streaming then {["streamingllm" := VBool true]} else ∅) ∪ pc
  = set_flag "use_paged_context_fmha" paged pc.
Proof.
  intros Hs.
  assert ((if streaming then {["streamingllm" := VBool true]} else ∅) ∪ pc
          = pc) as Hu.
  { destruct streaming; [|by rewrite (left_id_L ∅ (∪))].
    by rewrite <-insert_union_singleton_l, insert_id. }
  destruct paged as [f|]; simpl; [|done]. by rewrite <-insert_union_l, Hu.
Qed.

Lemma kv_after_call pa streaming beam reuse (kva : config_object) :
  kva !! "enable_block_reuse" = Some (VBool reuse) →
  reuse && reuse_off pa streaming beam = false →
  set_flag "enable_block_reuse" (block pa streaming beam reuse) ∅ ∪ kva
  = kva.
Proof.
  intros Hr Hc. unfold block.
  destruct (reuse_off pa streaming beam) eqn:Hoff; simpl.
  - rewrite andb_true_r in Hc. subst reuse.
    by rewrite <-insert_union_l, (left_id_L ∅ (∪)), insert_id.
  - destruct reuse; simpl; [|by rewrite (left_id_L ∅ (∪))].
    by rewrite <-insert_union_l, (left_id_L ∅ (∪)), insert_id.
Qed.

Lemma perform_config_arbitration_mutable pa s b kv q mnt w streaming reuse :
  well_typed s b kv q mnt w streaming reuse →
  let fp8 := is_fp8 q in
  let beam := (1 <? w)%Z in
  match _perform_config_arbitration pa s with
  | (s', Return _) =>
      reuse && (forced_off pa streaming fp8 || reuse_off pa streaming beam)
      = false
      ∧ s' = arbitrated pa s b mnt streaming fp8 reuse
  | (s', Raise e) =>
      reuse && (forced_off pa streaming fp8 || reuse_off pa streaming beam)
      = true
      ∧ e = ConfigArbitrateError
              (conflict_message (blamed_option streaming fp8) (VBool true)
                 "enable_block_reuse" (blamed_feature pa streaming fp8)
                 (VBool false))
  end.
Proof.
  intros [Hmut Hb Hkv Hq Hmnt Hw Hs Hr Hv].
  pose proof (arbitrate_claims pa (enable_chunked_context s) streaming
                (is_fp8 q) (1 <? w)%Z reuse) as Harb.
  unfold arbitrator_before_call in Harb.
  unfold _perform_config_arbitration.
  mstep. mstep.
  replace (build_config_mutable (with_arbitrator s (Some __init__)))
    with true by done.
  cbv iota. mstep. mstep.
  set (b' := BuildConfig_ (build_fields b)
               (<["max_num_tokens" := VInt 2048]> (build_attrs b))
               (plugin_fields b) (plugin_config b)).
  assert (build_attrs b' !! "max_beam_width" = Some (VInt w)) as Hw'.
  { simpl. by rewrite lookup_insert_ne. }
  assert (plugin_config b' !! "streamingllm" = Some (VBool streaming))
    as Hs' by done.
  set (s1 := with_build_config s (Some b')).
  assert (build_config s1 = Some b') as Hb1 by done.
  assert (kv_cache_config s1 = Some kv) as Hkv1 by done.
  assert (quant_config s1 = Some q) as Hq1 by done.
  assert (build_config_mutable s1 = true) as Hmut1 by done.
  assert (∀ c off : bool, c && off = false → c && negb off = c) as Hbool.
  { by intros [] []. }
  destruct (truthy mnt) eqn:Hm; cbn [negb]; cbv iota; mstep.
  - mstep.
    destruct (setup_pre_ampere pa "plugin_config" _ __init__)
      as [a0|a0 e0]; [|done].
    cbv iota. do 8 mstep.
    destruct (setup_pre_ampere pa "kv_cache_config" _ _)
      as [a5|a5 e5]; [|done].
    cbv iota. mstep. unfold __call__.
    destruct (_arbitrate (claims_reuse reuse a5)) as [st'|st' e];
      cbv beta iota; [|done].
    destruct Harb as (Hconflict & Hplugin & Hkvv & Hbuild & Heff).
    rewrite Heff.
    destruct (objects_after st' (plugin_config b) (kv_attrs kv)
                (build_attrs b)) as (-> & -> & ->).
    rewrite Hplugin, Hkvv, Hbuild, (left_id_L ∅ (∪)).
    rewrite (plugin_after_call _ _ _ Hs).
    rewrite (kv_after_call _ _ _ _ _ Hr).
    2:{ revert Hconflict.
        destruct reuse, (forced_off _ _ _), (reuse_off _ _ _); done. }
    unfold arbitrated. rewrite Hm.
    destruct (_ && forced_off _ _ _) eqn:Hc; run_args.
    + split; [done|].
      destruct s, b, kv; simpl in *. simplify_eq.
      apply andb_true_iff in Hc as [-> ->]. simpl.
      by rewrite <-(assoc_L (++)).
    + split; [done|].
      destruct s, b, kv; simpl in *. simplify_eq.
      by rewrite (Hbool _ _ Hc), (right_id_L [] (++)).
  - mstep.
    destruct (setup_pre_ampere pa "plugin_config" _ __init__)
      as [a0|a0 e0]; [|done].
    cbv iota. do 8 mstep.
    destruct (setup_pre_ampere pa "kv_cache_config" _ _)
      as [a5|a5 e5]; [|done].
    cbv iota. mstep. unfold __call__.
    destruct (_arbitrate (claims_reuse reuse a5)) as [st'|st' e];
      cbv beta iota; [|done].
    destruct Harb as (Hconflict & Hplugin & Hkvv & Hbuild & Heff).
    rewrite Heff.
    destruct (objects_after st' (plugin_config b') (kv_attrs kv)
                (build_attrs b')) as (-> & -> & ->).
    rewrite Hplugin, Hkvv, Hbuild, (left_id_L ∅ (∪)).
    rewrite (plugin_after_call _ _ _ Hs').
    rewrite (kv_after_call _ _ _ _ _ Hr).
    2:{ revert Hconflict.
        destruct reuse, (forced_off _ _ _), (reuse_off _ _ _); done. }
    unfold arbitrated. rewrite Hm.
    destruct (_ && forced_off _ _ _) eqn:Hc; run_args.
    + split; [done|].
      destruct s, b, kv; simpl in *. simplify_eq.
      apply andb_true_iff in Hc as [-> ->]. simpl.
      by rewrite <-(assoc_L (++)).
    + split; [done|].
      destruct s, b, kv; simpl in *. simplify_eq.
      by rewrite (Hbool _ _ Hc), (right_id_L [] (++)).
Qed.

(** X22.  Block reuse against the rest.  For an instance whose format is not
    the engine format, [_perform_config_arbitration] raises
    [ConfigArbitrateError] exactly when [kv_cache_config.enable_block_reuse]
    is on together with one of: hardware before Ampere, streaming LLM, FP8
    quantization, a beam width above one.  The message says that
    [enable_block_reuse] cannot set [use_paged_context_fmha] (when
    streaming LLM or FP8 is in the way) or [enable_block_reuse] (otherwise)
    to [True], and names the first of the four, in this order, as the one
    that has set it to [False].  In all other cases the call returns. *)
Theorem block_reuse_conflicts pa s b kv q mnt w streaming reuse :
  well_typed s b kv q mnt w streaming reuse →
  let fp8 := is_fp8 q in
  if reuse && (negb pa || streaming || fp8 || (1 <? w)%Z) then
    ∃ s',
      _perform_config_arbitration pa s
      = (s', Raise (ConfigArbitrateError
                      (conflict_message (blamed_option streaming fp8)
                         (VBool true) "enable_block_reuse"
                         (blamed_feature pa streaming fp8) (VBool false))))
  else ∃ s', _perform_config_arbitration pa s = (s', Return tt).
Proof.
  intros Ht fp8.
  pose proof (perform_config_arbitration_mutable pa _ _ _ _ _ _ _ _ Ht) as H.
  cbv zeta in H. fold fp8 in H.
  assert (reuse && (forced_off pa streaming fp8
                    || reuse_off pa streaming (1 <? w)%Z)
          = reuse && (negb pa || streaming || fp8 || (1 <? w)%Z)) as Heq.
  { unfold forced_off, reuse_off.
    by destruct reuse, pa, streaming, fp8, (1 <? w)%Z. }
  rewrite Heq in H.
  destruct (_perform_config_arbitration pa s) as [s' [[]|e]].
  - destruct H as [-> _]. by exists s'.
  - destruct H as [-> ->]. by exists s'.
Qed.

Lemma block_reuse_conflicts_witness :
  let s := beam_search_with_reuse in
  ∃ b kv q,
    well_typed s b kv q VNone 4 false true
    ∧ ∃ s',
        _perform_config_arbitration true s
        = (s', Raise (ConfigArbitrateError
                        (conflict_message "enable_block_reuse" (VBool true)
                           "enable_block_reuse"
                           "beam_search (beam_width > 1)" (VBool false)))).
Proof.
  intros s.
  assert (well_typed s
            (BuildConfig_ ["max_num_tokens"; "max_beam_width"]
               (<["max_num_tokens" := VNone]>
                  (<["max_beam_width" := VInt 4]> ∅))
               ["streamingllm"; "use_paged_context_fmha"]
               (<["streamingllm" := VBool false]>
                  (<["use_paged_context_fmha" := VBool false]> ∅)))
            (KvCacheConfig_ (<["enable_block_reuse" := VBool true]> ∅)
               None None)
            (QuantConfig_ None) VNone 4 false true) as Ht.
  { split; try (vm_compute; reflexivity). intros H. discriminate H. }
  eexists _, _, _. split; [exact Ht|].
  exact (block_reuse_conflicts true _ _ _ _ _ _ _ _ Ht).
Defined.

(** X23.  What an arbitration that returns has done, for an instance whose
    format is not the engine format.  [use_paged_context_fmha] is [False]
    when the hardware is older than Ampere or streaming LLM or FP8
    quantization is on; otherwise it is [True] when block reuse or chunked
    context asks for it; otherwise it is as it was.  A chunked context
    that cannot have it is switched off by its fallback, after two
    warnings.  [max_num_tokens] is 2048 when it had no true value.
    Nothing else changes in the build and plugin configurations, the
    [KvCacheConfig] is as it was, and the arbitrator is dropped. *)
Theorem arbitration_settles_paged_context pa s b kv q mnt w streaming reuse
    s' :
  well_typed s b kv q mnt w streaming reuse →
  _perform_config_arbitration pa s = (s', Return tt) →
  let off := negb pa || streaming || is_fp8 q in
  let chunked := enable_chunked_context s in
  ∃ b',
    build_config s' = Some b'
    ∧ plugin_config b' !! "use_paged_context_fmha"
      = (if off then Some (VBool false)
         else if reuse || chunked then Some (VBool true)
         else plugin_config b !! "use_paged_context_fmha")
    ∧ (∀ k, k ≠ "use_paged_context_fmha" →
         plugin_config b' !! k = plugin_config b !! k)
    ∧ build_attrs b' !! "max_num_tokens"
      = Some (if truthy mnt then mnt else VInt 2048)
    ∧ (∀ k, k ≠ "max_num_tokens" →
         build_attrs b' !! k = build_attrs b !! k)
    ∧ kv_cache_config s' = kv_cache_config s
    ∧ enable_chunked_context s' = chunked && negb off
    ∧ warnings s'
      = warnings s
        ++ (if chunked && off then
              [ignore_message "chunked_context" "use_paged_context_fmha";
               "Disabling chunked context due to configuration conflict."]
            else [])
    ∧ _config_arbitrator s' = None.
Proof.
  intros Ht Hrun.
  pose proof (perform_config_arbitration_mutable pa _ _ _ _ _ _ _ _ Ht) as H.
  cbv zeta in H. rewrite Hrun in H. destruct H as [_ ->].
  destruct Ht as [_ _ _ _ Hmnt _ _ _ _].
  unfold arbitrated, paged, forced_off. simpl. eexists.
  split; [done|]. simpl.
  split_and!; try done.
  - destruct (negb pa || streaming || is_fp8 q); simpl.
    { by rewrite lookup_insert_eq. }
    destruct (reuse || enable_chunked_context s); simpl; [|done].
    by rewrite lookup_insert_eq.
  - intros k Hk.
    destruct (negb pa || streaming || is_fp8 q); simpl.
    { by rewrite lookup_insert_ne. }
    destruct (reuse || enable_chunked_context s); simpl; [|done].
    by rewrite lookup_insert_ne.
  - destruct (truthy mnt); [done|]. by rewrite lookup_insert_eq.
  - intros k Hk. destruct (truthy mnt); [done|].
    by rewrite lookup_insert_ne.
Qed.

Lemma arbitration_settles_paged_context_witness :
  let s := fp8_with_chunked_context in
  ∃ b kv q s',
    well_typed s b kv q VNone 1 false false
    ∧ _perform_config_arbitration true s = (s', Return tt)
    ∧ ∃ b',
        build_config s' = Some b'
        ∧ plugin_config b' !! "use_paged_context_fmha"
          = (if negb true || false || is_fp8 q then Some (VBool false)
             else if false || enable_chunked_context s then Some (VBool true)
             else plugin_config b !! "use_paged_context_fmha")
        ∧ (∀ k, k ≠ "use_paged_context_fmha" →
             plugin_config b' !! k = plugin_config b !! k)
        ∧ build_attrs b' !! "max_num_tokens"
          = Some (if truthy VNone then VNone else VInt 2048)
        ∧ (∀ k, k ≠ "max_num_tokens" →
             build_attrs b' !! k = build_attrs b !! k)
        ∧ kv_cache_config s' = kv_cache_config s
        ∧ enable_chunked_context s'
          = enable_chunked_context s && negb (negb true || false || is_fp8 q)
        ∧ warnings s'
          = warnings s
            ++ (if enable_chunked_context s
                   && (negb true || false || is_fp8 q) then
                  [ignore_message "chunked_context"
                     "use_paged_context_fmha";
                   "Disabling chunked context due to configuration conflict."]
                else [])
        ∧ _config_arbitrator s' = None.
Proof.
  intros s.
  assert (well_typed s
            (BuildConfig_ ["max_num_tokens"; "max_beam_width"]
               (<["max_num_tokens" := VNone]>
                  (<["max_beam_width" := VInt 1]> ∅))
               ["streamingllm"; "use_paged_context_fmha"]
               (<["streamingllm" := VBool false]>
                  (<["use_paged_context_fmha" := VBool true]> ∅)))
            (KvCacheConfig_ (<["enable_block_reuse" := VBool false]> ∅)
               None None)
            (QuantConfig_ (Some FP8)) VNone 1 false false) as Ht.
  { split; try (vm_compute; reflexivity). intros H. discriminate H. }
  set (s' := (_perform_config_arbitration true s).1).
  assert (_perform_config_arbitration true s = (s', Return tt)) as Hrun.
  { vm_compute. reflexivity. }
  eexists _, _, _, s'. split; [exact Ht|]. split; [exact Hrun|].
  exact (arbitration_settles_paged_context true _ _ _ _ _ _ _ _ s' Ht Hrun).
Defined.

End ArbitrationFacts.

(** * Facts about the arbitration of [LlmArgs] for an engine *)

Module EngineArbitrationFacts.
Import ModelFormat ParallelConfig LlmArguments LlmArgumentsAux.
Import ArbitrationOutcome EngineArbitration Arbitrator ArbitratorFacts.
Import ArbitrationFacts.

Lemma asdict_spec cls fields (obj : config_object) :
  Forall (λ f, is_Some (obj !! f)) fields →
  ∃ kw,
    asdict cls fields obj = Return kw
    ∧ kw.*1 = fields
    ∧ ∀ k v, (k, v) ∈ kw → obj !! k = Some v.
Proof.
  induction 1 as [|f fields [v Hv] _ (kw & Hkw & Hfst & Hall)]; simpl.
  { exists []. split_and!; [done..|]. by intros ?? ?%elem_of_nil. }
  unfold getattr. rewrite Hv, Hkw. exists ((f, v) :: kw).
  split_and!; [done|by rewrite fmap_cons, Hfst|].
  intros k v' [[= -> ->]|Hin]%elem_of_cons; [done|by apply Hall].
Qed.

(** A baseline read off an object agrees with it. *)
Lemma cell_setup_object info kw (obj : config_object) vc os :
  (∀ k v, (k, v) ∈ kw → obj !! k = Some v) →
  vc ⊆ obj →
  (∀ k, is_Some (vc !! k) → os !! k = Some info) →
  ∃ vc' os',
    cell_setup info kw vc os = Done (vc', os')
    ∧ vc ⊆ vc' ∧ vc' ⊆ obj
    ∧ (∀ k, k ∈ kw.*1 → is_Some (vc' !! k))
    ∧ (∀ k, is_Some (vc' !! k) → os' !! k = Some info).
Proof.
  revert vc os. induction kw as [|[opt val] kw IH]; intros vc os Hkw Hsub Hos;
    simpl.
  { exists vc, os. split_and!; [done..| |done]. by intros k ?%elem_of_nil. }
  assert (obj !! opt = Some val) as Hopt by (apply Hkw; left).
  assert (vc ⊆ <[opt := val]> vc) as Hins.
  { destruct (vc !! opt) as [v0|] eqn:E; [|by apply insert_subseteq].
    pose proof (lookup_weaken _ _ _ _ E Hsub).
    rewrite insert_id; [done|congruence]. }
  assert (default val (vc !! opt) = val) as ->.
  { destruct (vc !! opt) as [v0|] eqn:E; [|done]. simpl.
    pose proof (lookup_weaken _ _ _ _ E Hsub). congruence. }
  rewrite py_eqb_refl.
  destruct (IH (<[opt := val]> vc) (<[opt := info]> os))
    as (vc' & os' & -> & H1 & H2 & H3 & H4).
  - intros k v Hin. apply Hkw. by right.
  - by apply insert_subseteq_l.
  - intros k. destruct (decide (k = opt)) as [->|Hne].
    + by rewrite !lookup_insert_eq.
    + rewrite !lookup_insert_ne by done. apply Hos.
  - exists vc', os'. split_and!; [done|by etrans|done| |done].
    intros k [->|Hin]%elem_of_cons; [|by apply H3].
    exists val. eapply lookup_weaken; [|done]. apply lookup_insert_eq.
Qed.

Lemma config_view_init name : config_view __init__ name = ∅.
Proof. unfold config_view, view. simpl. by rewrite lookup_empty. Qed.

Lemma source_view_init name : source_view __init__ name = ∅.
Proof. unfold source_view, view. simpl. by rewrite lookup_empty. Qed.

Lemma setup_fresh info name kw st c :
  wf_store st →
  config_view st name = ∅ → source_view st name = ∅ →
  cell_setup info kw ∅ ∅ = Done c →
  ∃ st', setup info name kw st = Done st' ∧ cell_update st st' name c.
Proof.
  intros Hwf Hc Hs Hcell. pose proof (setup_cell info name kw st Hwf) as H.
  by rewrite Hc, Hs, Hcell in H.
Qed.

Lemma engine_setups kwB kwP (objB objP : config_object) paged :
  (∀ k v, (k, v) ∈ kwB → objB !! k = Some v) →
  (∀ k v, (k, v) ∈ kwP → objP !! k = Some v) →
  "use_paged_context_fmha" ∈ kwP.*1 →
  objP !! "use_paged_context_fmha" = Some paged →
  ∃ arb1 arb2,
    setup "BuildConfig is readonly" "build_config" kwB __init__ = Done arb1
    ∧ setup "PluginConfig is readonly" "plugin_config" kwP arb1 = Done arb2
    ∧ engine_baseline arb2 objB objP paged.
Proof.
  intros HB HP Hfield Hpaged.
  destruct (cell_setup_object "BuildConfig is readonly" kwB objB ∅ ∅)
    as (vcB & osB & HcB & _ & HsubB & _ & _); [done|apply map_empty_subseteq| |].
  { intros k [? Hk]. by rewrite lookup_empty in Hk. }
  destruct (cell_setup_object "PluginConfig is readonly" kwP objP ∅ ∅)
    as (vcP & osP & HcP & _ & HsubP & HinP & HosP);
    [done|apply map_empty_subseteq| |].
  { intros k [? Hk]. by rewrite lookup_empty in Hk. }
  destruct (setup_fresh _ "build_config" _ __init__ _
              (wf_wf_store _ wf_init) (config_view_init _)
              (source_view_init _) HcB) as (arb1 & Harb1 & U1).
  assert (config_view arb1 "plugin_config" = ∅) as Hc1.
  { rewrite (cu_config_ne _ _ _ _ U1) by done. apply config_view_init. }
  assert (source_view arb1 "plugin_config" = ∅) as Hs1.
  { rewrite (cu_source_ne _ _ _ _ U1) by done. apply source_view_init. }
  destruct (setup_fresh _ "plugin_config" _ arb1 _ (cu_wf _ _ _ _ U1)
              Hc1 Hs1 HcP) as (arb2 & Harb2 & U2).
  exists arb1, arb2. split_and!; [done..|]. split.
  - apply U2.
  - rewrite (cu_config_ne _ _ _ _ U2) by done.
    by rewrite (cu_config _ _ _ _ U1).
  - by rewrite (cu_config _ _ _ _ U2).
  - rewrite (cu_config _ _ _ _ U2). simpl.
    destruct (HinP _ Hfield) as [v Hv]. rewrite Hv. f_equal.
    pose proof (lookup_weaken _ _ _ _ Hv HsubP). congruence.
  - rewrite (cu_source _ _ _ _ U2). simpl. apply HosP. by apply HinP.
  - rewrite (cu_config_ne _ _ _ _ U2), (cu_config_ne _ _ _ _ U1) by done.
    apply config_view_init.
  - rewrite (cu_source_ne _ _ _ _ U2), (cu_source_ne _ _ _ _ U1) by done.
    apply source_view_init.
  - by rewrite (cu_func_claims _ _ _ _ U2), (cu_func_claims _ _ _ _ U1).
  - by rewrite (cu_perf_claims _ _ _ _ U2), (cu_perf_claims _ _ _ _ U1).
  - by rewrite (cu_effects _ _ _ _ U2), (cu_effects _ _ _ _ U1).
Qed.

Lemma engine_pre_ampere pa arb objB objP paged :
  engine_baseline arb objB objP paged →
  ∃ arb3,
    setup_pre_ampere pa "kv_cache_config" "enable_block_reuse" arb
    = Done arb3
    ∧ wf_store arb3
    ∧ config_view arb3 "build_config" = config_view arb "build_config"
    ∧ config_view arb3 "plugin_config" = config_view arb "plugin_config"
    ∧ source_view arb3 "plugin_config" = source_view arb "plugin_config"
    ∧ config_view arb3 "kv_cache_config"
      = (if pa then ∅ else <["enable_block_reuse" := VBool false]> ∅)
    ∧ source_view arb3 "kv_cache_config"
      = (if pa then ∅
         else <["enable_block_reuse" := "pre-ampere not supported"]> ∅)
    ∧ func_claims arb3 = [] ∧ perf_claims arb3 = [] ∧ effects arb3 = [].
Proof.
  intros [Hwf HB HP Hpaged Hsrc Hkv Hkvs Hfc Hpc Heff].
  unfold setup_pre_ampere. destruct pa.
  { exists arb. by split_and!. }
  destruct (setup_fresh "pre-ampere not supported" "kv_cache_config"
              [("enable_block_reuse", VBool false)] arb
              (<["enable_block_reuse" := VBool false]> ∅,
               <["enable_block_reuse" := "pre-ampere not supported"]> ∅)
              Hwf Hkv Hkvs) as (arb3 & Harb3 & U).
  { simpl. by rewrite lookup_empty. }
  exists arb3. split_and!; [done|apply U|..].
  - by rewrite (cu_config_ne _ _ _ _ U).
  - by rewrite (cu_config_ne _ _ _ _ U).
  - by rewrite (cu_source_ne _ _ _ _ U).
  - by rewrite (cu_config _ _ _ _ U).
  - by rewrite (cu_source _ _ _ _ U).
  - by rewrite (cu_func_claims _ _ _ _ U).
  - by rewrite (cu_perf_claims _ _ _ _ U).
  - by rewrite (cu_effects _ _ _ _ U).
Qed.

Lemma engine_call pa reuse arb objB objP paged configs :
  engine_baseline arb objB objP paged →
  match setup_pre_ampere pa "kv_cache_config" "enable_block_reuse" arb with
  | Raised _ _ => False
  | Done arb3 =>
      match __call__ (claims_reuse reuse arb3) configs with
      | Done (st', configs') =>
          (reuse = true → pa = true ∧ py_eqb paged (VBool true) = true)
          ∧ effects st' = []
          ∧ config_view st' "build_config" ⊆ objB
          ∧ config_view st' "plugin_config" ⊆ objP
          ∧ config_view st' "kv_cache_config"
            ⊆ <["enable_block_reuse" := VBool reuse]> ∅
          ∧ configs' = apply_configs st' configs
      | Raised _ e =>
          reuse = true
          ∧ (pa = true → py_eqb paged (VBool true) = false)
          ∧ e = reuse_error pa paged
      end
  end.
Proof.
  intros Hbase.
  destruct (engine_pre_ampere pa _ _ _ _ Hbase)
    as (arb3 & -> & Hwf3 & HB3 & HP3 & HS3 & HK3 & HKS3 & Hfc3 & Hpc3
        & Heff3).
  destruct Hbase as [Hwf HB HP Hpaged Hsrc Hkv Hkvs Hfc Hpc Heff].
  destruct reuse.
  - set (st := claims_reuse true arb3).
    assert (func_claims st
            = [("kv_cache_config",
                [("enable_block_reuse",
                  [("enable_block_reuse", VBool true)])]);
               ("plugin_config",
                [("enable_block_reuse",
                  [("use_paged_context_fmha", VBool true)])])]) as Hfuncs.
    { unfold st, claims_reuse, claim_func. simpl. by rewrite Hfc3. }
    assert (wf_store st) as Hwfst by exact Hwf3.
    unfold __call__, _arbitrate. rewrite Hfuncs.
    pose proof (func_phase_cons "kv_cache_config"
                  [("enable_block_reuse",
                    [("enable_block_reuse", VBool true)])]
                  [("plugin_config",
                    [("enable_block_reuse",
                      [("use_paged_context_fmha", VBool true)])])]
                  st Hwfst) as H1.
    change (config_view st "kv_cache_config")
      with (config_view arb3 "kv_cache_config") in H1.
    change (source_view st "kv_cache_config")
      with (source_view arb3 "kv_cache_config") in H1.
    rewrite HK3, HKS3 in H1. destruct pa.
    + assert (cell_funcs
                [("enable_block_reuse",
                  [("enable_block_reuse", VBool true)])] ∅ ∅
              = Done (<["enable_block_reuse" := VBool true]> ∅,
                      <["enable_block_reuse" := "enable_block_reuse"]> ∅))
        as Hcell by (simpl; by rewrite lookup_empty).
      rewrite Hcell in H1. destruct H1 as (st1 & -> & U1).
      pose proof (func_phase_cons "plugin_config"
                    [("enable_block_reuse",
                      [("use_paged_context_fmha", VBool true)])]
                    [] st1 (cu_wf _ _ _ _ U1)) as H2.
      rewrite (cu_config_ne _ _ _ _ U1), (cu_source_ne _ _ _ _ U1) in H2
        by done.
      change (config_view st "plugin_config")
        with (config_view arb3 "plugin_config") in H2.
      change (source_view st "plugin_config")
        with (source_view arb3 "plugin_config") in H2.
      rewrite HP3, HS3 in H2.
      assert (cell_funcs
                [("enable_block_reuse",
                  [("use_paged_context_fmha", VBool true)])]
                (config_view arb "plugin_config")
                (source_view arb "plugin_config")
              = if py_eqb paged (VBool true) then
                  Done (config_view arb "plugin_config",
                        source_view arb "plugin_config")
                else
                  Raised (config_view arb "plugin_config",
                          source_view arb "plugin_config")
                    (reuse_error true paged)) as Hcell2.
      { simpl. rewrite Hpaged, Hsrc. by destruct (py_eqb _ _). }
      rewrite Hcell2 in H2.
      destruct (py_eqb paged (VBool true)) eqn:E.
      * destruct H2 as (st2 & -> & U2). simpl.
        rewrite (cu_perf_claims _ _ _ _ U2), (cu_perf_claims _ _ _ _ U1).
        change (perf_claims st) with (perf_claims arb3). rewrite Hpc3.
        simpl. split_and!; [done| | | | |done].
        -- rewrite (cu_effects _ _ _ _ U2), (cu_effects _ _ _ _ U1).
           exact Heff3.
        -- rewrite (cu_config_ne _ _ _ _ U2), (cu_config_ne _ _ _ _ U1)
             by done.
           change (config_view st "build_config")
             with (config_view arb3 "build_config"). by rewrite HB3.
        -- by rewrite (cu_config _ _ _ _ U2).
        -- rewrite (cu_config_ne _ _ _ _ U2) by done.
           by rewrite (cu_config _ _ _ _ U1).
      * destruct H2 as (st2 & -> & U2). by split_and!.
    + assert (cell_funcs
                [("enable_block_reuse",
                  [("enable_block_reuse", VBool true)])]
                (<["enable_block_reuse" := VBool false]> ∅)
                (<["enable_block_reuse" := "pre-ampere not supported"]> ∅)
              = Raised (<["enable_block_reuse" := VBool false]> ∅,
                        <["enable_block_reuse"
                            := "pre-ampere not supported"]> ∅)
                  (reuse_error false paged)) as Hcell.
      { simpl. by rewrite !lookup_insert_eq. }
      rewrite Hcell in H1. destruct H1 as (st1 & -> & U1). by split_and!.
  - unfold claims_reuse, __call__, _arbitrate. rewrite Hfc3. simpl.
    rewrite Hpc3. simpl. split_and!; [done|done| | | |done].
    + by rewrite HB3.
    + by rewrite HP3.
    + rewrite HK3. destruct pa; [apply map_empty_subseteq|done].
Qed.

Lemma run_setup_build_config s b arb kwB kwP :
  _config_arbitrator s = Some arb →
  build_config s = Some b →
  asdict "BuildConfig" (build_fields b) (build_attrs b) = Return kwB →
  asdict "PluginConfig" (plugin_fields b) (plugin_config b) = Return kwP →
  _setup_build_config_into_config_arbitrator s
  = match setup "BuildConfig is readonly" "build_config" kwB arb with
    | Raised arb1 e => (with_arbitrator s (Some arb1), Raise e)
    | Done arb1 =>
        match setup "PluginConfig is readonly" "plugin_config" kwP arb1 with
        | Raised arb2 e => (with_arbitrator s (Some arb2), Raise e)
        | Done arb2 => (with_arbitrator s (Some arb2), Return tt)
        end
    end.
Proof.
  intros Harb Hb HB HP. destruct s. simpl in Harb, Hb. subst.
  unfold _setup_build_config_into_config_arbitrator, arbitrator_setup,
    the_config_arbitrator, the_build_config.
  unfold mbind, M_bind, bind, get, ret, raise. simpl. rewrite HB. simpl.
  destruct (setup "BuildConfig is readonly" _ _ _) as [arb1|arb1 e]; simpl;
    [|done].
  rewrite HP. simpl.
  by destruct (setup "PluginConfig is readonly" _ _ _).
Qed.

(** The arbitration for an engine, on the attributes the objects are
    given by: those that hold [None], booleans, integers and strings. *)
Lemma engine_arbitration_run pa s b kv paged reuse :
  engine_typed s b kv paged reuse →
  ∃ arb,
    _perform_config_arbitration pa s
    = if reuse && (negb pa || negb (py_eqb paged (VBool true))) then
        (with_arbitrator s (Some arb), Raise (reuse_error pa paged))
      else (with_arbitrator s None, Return tt).
Proof.
  intros [Hfmt Hb Hkv HfB HfP Hfield Hpaged Hr].
  destruct (asdict_spec "BuildConfig" _ _ HfB) as (kwB & HkwB & _ & HallB).
  destruct (asdict_spec "PluginConfig" _ _ HfP)
    as (kwP & HkwP & HfstP & HallP).
  destruct (engine_setups kwB kwP (build_attrs b) (plugin_config b) paged
              HallB HallP) as (arb1 & arb2 & H1 & H2 & Hbase);
    [by rewrite HfstP|done|].
  pose proof (engine_call pa reuse arb2 _ _ _
                [("plugin_config", plugin_config b);
                 ("kv_cache_config", kv_attrs kv);
                 ("build_config", build_attrs b)] Hbase) as Hcall.
  unfold _perform_config_arbitration.
  mstep. mstep.
  replace (build_config_mutable (with_arbitrator s (Some __init__)))
    with false by (unfold build_config_mutable; simpl; by rewrite Hfmt).
  cbv iota. rewrite bind_run.
  erewrite run_setup_build_config by (first [eassumption|reflexivity]).
  rewrite H1, H2. cbv beta iota. rewrite ?with_arbitrator_twice.
  mstep.
  destruct (setup_pre_ampere pa "kv_cache_config" _ arb2) as [arb3|];
    [|done].
  cbv iota. mstep.
  destruct (__call__ (claims_reuse reuse arb3) _)
    as [[st' configs']|[st' ?] e]; cbv beta iota.
  - destruct Hcall as (Hre & Heff & HB' & HP' & HK' & ->).
    rewrite Heff.
    destruct (objects_after st' (plugin_config b) (kv_attrs kv)
                (build_attrs b)) as (-> & -> & ->).
    rewrite (map_subseteq_union _ _ HB'), (map_subseteq_union _ _ HP').
    rewrite (map_subseteq_union _ (kv_attrs kv)).
    2:{ etrans; [done|]. apply insert_subseteq_l; [done|].
        apply map_empty_subseteq. }
    exists __init__.
    replace (reuse && (negb pa || negb (py_eqb paged (VBool true))))
      with false.
    2:{ destruct reuse; [|done]. by destruct Hre as [-> ->]. }
    run_args. destruct s, b, kv. simpl in *. by simplify_eq.
  - destruct Hcall as (-> & Hpa & ->). exists st'.
    replace (true && (negb pa || negb (py_eqb paged (VBool true))))
      with true; [done|].
    destruct pa; [|done]. by rewrite Hpa.
Qed.

(** X24.  Block reuse on an engine.  For an instance given an engine,
    [_perform_config_arbitration] raises [ConfigArbitrateError] exactly
    when [enable_block_reuse] is on and either the hardware is older than
    Ampere or the engine was built with a [use_paged_context_fmha] that
    is not true; the message then names the baseline in the way,
    [pre-ampere not supported] or [PluginConfig is readonly].  Otherwise
    it returns, with the arbitrator dropped.  Either way
    [use_paged_context_fmha] of the plugin configuration and
    [enable_block_reuse] of the KV-cache configuration keep the values
    they had. *)
Theorem engine_block_reuse pa s b kv paged reuse :
  engine_typed s b kv paged reuse →
  let conflict := reuse && (negb pa || negb (py_eqb paged (VBool true))) in
  ∃ s' b' kv',
    _perform_config_arbitration pa s
    = (s', if conflict then Raise (reuse_error pa paged) else Return tt)
    ∧ build_config s' = Some b'
    ∧ plugin_config b' !! "use_paged_context_fmha" = Some paged
    ∧ kv_cache_config s' = Some kv'
    ∧ kv_attrs kv' !! "enable_block_reuse" = Some (VBool reuse)
    ∧ (conflict = false → _config_arbitrator s' = None).
Proof.
  intros Ht conflict.
  destruct (engine_arbitration_run pa _ _ _ _ _ Ht) as [arb Hrun].
  fold conflict in Hrun. destruct Ht as [_ Hb Hkv _ _ _ Hpaged Hr].
  rewrite Hrun. destruct conflict; eexists _, b, kv;
    (split; [reflexivity|]); by split_and!.
Qed.

Lemma engine_block_reuse_witness :
  let s := engine_without_paged_context in
  ∃ b kv,
    engine_typed s b kv (VBool false) true
    ∧ ∃ s' b' kv',
        _perform_config_arbitration true s
        = (s', Raise (ConfigArbitrateError
                        (conflict_message "use_paged_context_fmha"
                           (VBool true) "enable_block_reuse"
                           "PluginConfig is readonly" (VBool false))))
        ∧ build_config s' = Some b'
        ∧ plugin_config b' !! "use_paged_context_fmha" = Some (VBool false)
        ∧ kv_cache_config s' = Some kv'
        ∧ kv_attrs kv' !! "enable_block_reuse" = Some (VBool true)
        ∧ (true = false → _config_arbitrator s' = None).
Proof.
  intros s.
  assert (engine_typed s
            (BuildConfig_ ["max_num_tokens"; "max_beam_width"]
               (<["max_num_tokens" := VInt 8192]>
                  (<["max_beam_width" := VInt 1]> ∅))
               ["streamingllm"; "use_paged_context_fmha"]
               (<["streamingllm" := VBool false]>
                  (<["use_paged_context_fmha" := VBool false]> ∅)))
            (KvCacheConfig_ (<["enable_block_reuse" := VBool true]> ∅)
               None None)
            (VBool false) true) as Ht.
  { split; try (vm_compute; reflexivity).
    - repeat constructor; by eexists.
    - repeat constructor; by eexists.
    - set_solver. }
  eexists _, _. split; [exact Ht|].
  exact (engine_block_reuse true _ _ _ _ _ Ht).
Defined.

End EngineArbitrationFacts.
